(** * Behaviour engine of the WALL-E robot: recorder, recognition, search

    Shallow embedding of three classes of the robot's behaviour engine,

    - [modules/recognition_handler.py]  (class RecognitionHandler),
    - [modules/search_controller.py]    (class SearchController),
    - [modules/action_recorder.py]      (class ActionRecorder),

    together with the constants of [config.py] they read, and the
    properties of the specification that concern them.

    Conventions of the embedding.
    - A Python [int] is a [Z]; a Python [float] is the rational number it
      denotes, a [Q], and float arithmetic is the arithmetic of [Q].
    - A Python [str] is a [string]; [None] in an optional position is
      [None] of [option].
    - A [dict] used as a map is a [gmap]; a [dict] used as a record with
      fixed keys is a [Record].
    - A method that mutates [self] is a function from the object to the
      new object, paired with the returned value when there is one.  The
      methods of ActionRecorder also read the wall clock, drive the motor,
      sleep and may raise, so they live in a small state-and-error monad.
    - [with self._lock] is transparent: the model is sequential. *)

From Stdlib Require Import ZArith QArith Qabs Qround Lia Lqa.
From stdpp Require Import gmap strings list fin_maps pretty.

Open Scope Z_scope.

(** ** Python arithmetic on floats *)

Module Py.

(** [int(x)] on a float: truncation toward zero. *)
Definition int (x : Q) : Z := Z.quot (Qnum x) (Zpos (Qden x)).

(** [x >= y], [x <= y], [x < y], [x > y] on floats. *)
Definition ge (x y : Q) : bool := Qle_bool y x.
Definition le (x y : Q) : bool := Qle_bool x y.
Definition lt (x y : Q) : bool := negb (Qle_bool y x).
Definition gt (x y : Q) : bool := negb (Qle_bool x y).

(** [abs(x)] on a float. *)
Definition abs (x : Q) : Q := Qabs x.

End Py.

(** ** config.py *)

Module Config.

Definition EMOTION_CONFIRM_COUNT : Z := 3.
Definition NO_FACE_RESET_COUNT : Z := 30.

Definition CAMERA_WIDTH : Z := 640.

Definition SEARCH_CYCLES : Z := 4.
Definition SEARCH_ROTATE_PAUSE : Q := 0.5.
Definition SEARCH_ROTATE_SPEED : Z := 36.
Definition SEARCH_45DEG_DURATION : Q := 1.5.

Definition ROTATE_STEP_DURATION : Q := 0.15.
Definition ROTATE_STEP_PAUSE : Q := 0.08.

Definition FACE_CENTER_ENABLED : bool := true.
Definition FACE_CENTER_TOLERANCE : Q := 0.16.
Definition FACE_CENTER_SPEED : Z := 50.
Definition FACE_CENTER_TIMEOUT : Q := 3.0.
Definition FACE_CENTER_STEP_DURATION : Q := 0.15.
Definition FACE_CENTER_STEP_PAUSE : Q := 0.50.

Definition SAMPLES_PER_PERSON : Z := 5.
Definition SAMPLE_INTERVAL : Z := 3.
Definition RECOGNITION_INTERVAL : Z := 2.

Definition VOICE_WAKE_DURATION : Q := 5.0.
Definition AWAKE_TIMEOUT : Q := 30.0.
Definition AWAKE_ACTIVITY_EXTEND : bool := true.
Definition FAMILIAR_IDLE_TIMEOUT : Q := 20.0.
Definition STRANGER_TRACK_TIMEOUT : Q := 55.0.

End Config.

(** ** modules/recognition_handler.py *)

Module RecognitionHandler.
Import Config.

(** The attributes of a RecognitionHandler object. *)
Record t := mk {
  recognition_counters : gmap string Z;
  recognition_active_label : option string;
  no_face_count : Z;
  is_registering : bool;
  register_name : string;
  register_count : Z
}.

Definition set_recognition_counters (c : gmap string Z) (h : t) : t :=
  mk c (recognition_active_label h) (no_face_count h)
     (is_registering h) (register_name h) (register_count h).

Definition set_recognition_active_label (l : option string) (h : t) : t :=
  mk (recognition_counters h) l (no_face_count h)
     (is_registering h) (register_name h) (register_count h).

Definition set_no_face_count (n : Z) (h : t) : t :=
  mk (recognition_counters h) (recognition_active_label h) n
     (is_registering h) (register_name h) (register_count h).

Definition set_registration (on : bool) (name : string) (n : Z) (h : t) : t :=
  mk (recognition_counters h) (recognition_active_label h) (no_face_count h)
     on name n.

(** [__init__] *)
Definition init : t :=
  mk (<["stranger" := 0]> (<["familiar" := 0]> ∅)) None 0 false "" 0.

(** One iteration of the loop body of [update_counter], at key [key]
    holding [v]. *)
Definition update_entry (label key : string) (v : Z) : Z :=
  if bool_decide (key = label) then Z.min EMOTION_CONFIRM_COUNT (v + 1)
  else if 0 <? v then v - 1 else v.

Definition update_counter (label : string) (h : t) : t :=
  set_recognition_counters
    (map_imap (fun key v => Some (update_entry label key v))
              (recognition_counters h)) h.

Definition reset_counters (h : t) : t :=
  set_recognition_counters ((fun _ => 0) <$> recognition_counters h) h.

(** The loop body of [decay_counters]. *)
Definition decay_entry (v : Z) : Z := if 0 <? v then v - 1 else v.

Definition decay_counters (h : t) : t :=
  set_recognition_counters (decay_entry <$> recognition_counters h) h.

Definition get_count (label : string) (h : t) : Z :=
  default 0 (recognition_counters h !! label).

Definition is_confirmed (label : string) (h : t) : bool :=
  default 0 (recognition_counters h !! label) >=? EMOTION_CONFIRM_COUNT.

Definition on_face_lost (h : t) : bool * t :=
  let h := set_no_face_count (no_face_count h + 1) h in
  let h := decay_counters h in
  if no_face_count h >=? NO_FACE_RESET_COUNT then
    let h := set_recognition_active_label None h in
    let h := reset_counters h in
    let h := set_no_face_count 0 h in
    (true, h)
  else (false, h).

Definition on_face_detected (h : t) : t := set_no_face_count 0 h.

Definition set_active_label (label : option string) (h : t) : t :=
  set_recognition_active_label label h.

Definition get_active_label (h : t) : option string :=
  recognition_active_label h.

Definition should_skip_recognition_frame (frame_count : Z) : bool :=
  negb (frame_count `mod` RECOGNITION_INTERVAL =? 0).

Definition should_skip_registration_frame (frame_count : Z) : bool :=
  negb (frame_count `mod` SAMPLE_INTERVAL =? 0).

(** [start_registration(name=None)]; [now] is the reading of
    [time.time()] used for the default name. *)
Definition start_registration (name : option string) (now : Q) (h : t)
  : bool * t :=
  let chosen :=
    match name with
    | Some n => if bool_decide (n = "") then "person_" +:+ pretty (Py.int now)
                else n
    | None => "person_" +:+ pretty (Py.int now)
    end in
  (true, set_registration true chosen 0 h).

(** [handle_registration]; [success] is the first component of what the
    recogniser's [register_person] returned for this frame, and
    [on_complete], when a callback is passed, is what calling it does to
    the handler. *)
Definition handle_registration (success : bool) (on_complete : option (t -> t)) (h : t)
  : bool * t :=
  if success then
    let h := set_registration (is_registering h) (register_name h)
                              (register_count h + 1) h in
    if register_count h >=? SAMPLES_PER_PERSON then
      let h := set_registration false "" 0 h in
      let h := match on_complete with
               | Some callback => callback h
               | None => h
               end in
      (true, h)
    else (false, h)
  else (false, h).

(** The callback the dispatcher passes ([on_complete] in
    [_handle_registration] of main.py): on the handler it calls
    [reset_counters()]; its other statements act on the display, the
    audio and the dispatcher. *)
Definition on_registration_complete (h : t) : t := reset_counters h.

Definition cancel_registration (h : t) : t := set_registration false "" 0 h.

(** The calls a client can make on a handler; [with_callback] tells
    whether the dispatcher's callback is passed as [on_complete]. *)
Inductive call :=
| UpdateCounter (label : string)
| ResetCounters
| DecayCounters
| OnFaceLost
| OnFaceDetected
| SetActiveLabel (label : option string)
| StartRegistration (name : option string) (now : Q)
| HandleRegistration (success with_callback : bool)
| CancelRegistration.

Definition perform (c : call) (h : t) : t :=
  match c with
  | UpdateCounter label => update_counter label h
  | ResetCounters => reset_counters h
  | DecayCounters => decay_counters h
  | OnFaceLost => snd (on_face_lost h)
  | OnFaceDetected => on_face_detected h
  | SetActiveLabel label => set_active_label label h
  | StartRegistration name now => snd (start_registration name now h)
  | HandleRegistration success with_callback =>
      snd (handle_registration success
             (if with_callback then Some on_registration_complete else None) h)
  | CancelRegistration => cancel_registration h
  end.

(** States a handler can be in: those obtained from a fresh object by
    method calls. *)
Inductive reachable : t -> Prop :=
| reachable_init : reachable init
| reachable_call c h : reachable h -> reachable (perform c h).


End RecognitionHandler.

(** ** What the face pipeline hands to the behaviour engine *)

Module Face.

(** A detected face: the dict built by the detector.  Only its ['box'],
    the tuple [(x, y, w, h)] in pixels, is read by the code below; the
    detector fills it with integers, the code does float arithmetic
    on it. *)
Record face_rect := mk_face_rect { box : Q * Q * Q * Q }.

Definition box_x (f : face_rect) : Q := let '(x, _, _, _) := box f in x.
Definition box_w (f : face_rect) : Q := let '(_, _, w, _) := box f in w.
Definition box_h (f : face_rect) : Q := let '(_, _, _, h) := box f in h.

(** An element of what [detect_and_recognize] returns:
    [(face_rect, person_name, similarity)]. *)
Definition result : Type := face_rect * option string * Q.

End Face.

(** ** The robot's surroundings: wall clock, camera, motor, display *)

Module Env.

(** What the program does to the outside world, in order: the commands
    given to the motor controller (with the speed they work with; the
    duty cycle the controller then writes to each wheel is not part of
    the event), the calls of [time.sleep] and the calls of
    [display.update]. *)
Inductive event :=
| TurnLeft (speed : Z)
| TurnRight (speed : Z)
| Forward (speed : Z)
| Backward (speed : Z)
| Stop
| Sleep (seconds : Q)
| DisplayUpdate (delta_time : Q).

(** [clock k] is what the [k]-th call of [time.time()] returns and
    [reads] counts the calls made so far.  [camera k] is what the [k]-th
    [camera.read()] followed by [detect_and_recognize] yields ([None]
    when the read fails) and [frames] counts the reads so far.  [log]
    holds the events so far, oldest first. *)
Record t := mk {
  clock : nat -> Q;
  reads : nat;
  camera : nat -> option (list Face.result);
  frames : nat;
  log : list event
}.

Definition tick (w : t) : t :=
  mk (clock w) (S (reads w)) (camera w) (frames w) (log w).

Definition grab (w : t) : t :=
  mk (clock w) (reads w) (camera w) (S (frames w)) (log w).

Definition emit (e : event) (w : t) : t :=
  mk (clock w) (reads w) (camera w) (frames w) (log w ++ [e]).

End Env.

(** ** modules/motor_controller.py, the part the recorder drives *)

Module MotorController.

(** The attributes read here: [default_speed] and [enabled]. *)
Record t := mk { default_speed : Z; enabled : bool }.

(** [speed or self.default_speed] *)
Definition speed_or_default (speed : option Z) (m : t) : Z :=
  match speed with
  | Some s => if s =? 0 then default_speed m else s
  | None => default_speed m
  end.

(** The events of one call; a disabled motor only prints.  The speed of
    an event is [speed or self.default_speed]; [forward] and [backward]
    trim it per wheel before writing the duty cycles, which the events
    do not show. *)
Definition turn_left (speed : option Z) (m : t) : list Env.event :=
  if enabled m then [Env.TurnLeft (speed_or_default speed m)] else [].

Definition turn_right (speed : option Z) (m : t) : list Env.event :=
  if enabled m then [Env.TurnRight (speed_or_default speed m)] else [].

Definition forward (speed : option Z) (m : t) : list Env.event :=
  if enabled m then [Env.Forward (speed_or_default speed m)] else [].

Definition backward (speed : option Z) (m : t) : list Env.event :=
  if enabled m then [Env.Backward (speed_or_default speed m)] else [].

Definition stop (m : t) : list Env.event :=
  if enabled m then [Env.Stop] else [].

End MotorController.

(** ** modules/action_recorder.py *)

Module ActionRecorder.
Import Config.

(** An entry of [action_history]. *)
Record action := mk_action {
  type : string;
  direction : string;
  duration : Q;
  timestamp : Q
}.

(** The dict held in [_current_action]. *)
Record current := mk_current {
  current_type : string;
  current_direction : string
}.

(** The dict returned by [get_next_return_action]. *)
Record return_action := mk_return_action {
  return_type : string;
  return_direction : string;
  original_direction : string;
  return_duration : Q;
  index : Z;
  total : Z
}.

(** The attributes of an ActionRecorder object. *)
Record t := mk {
  action_history : list action;
  is_returning : bool;
  return_action_index : Z;
  _current_action : option current;
  _action_start_time : Q
}.

Definition set_action_history (l : list action) (r : t) : t :=
  mk l (is_returning r) (return_action_index r)
     (_current_action r) (_action_start_time r).

Definition set_is_returning (b : bool) (r : t) : t :=
  mk (action_history r) b (return_action_index r)
     (_current_action r) (_action_start_time r).

Definition set_return_action_index (i : Z) (r : t) : t :=
  mk (action_history r) (is_returning r) i
     (_current_action r) (_action_start_time r).

Definition set_current_action (c : option current) (r : t) : t :=
  mk (action_history r) (is_returning r) (return_action_index r)
     c (_action_start_time r).

Definition set_action_start_time (s : Q) (r : t) : t :=
  mk (action_history r) (is_returning r) (return_action_index r)
     (_current_action r) s.

(** [__init__] *)
Definition init : t := mk [] false 0 None 0.

(** *** The monad of the methods

    A method runs on the recorder and the surroundings and either
    raises or returns a value with both updated. *)
Inductive exn := IndexError.

Definition M (A : Type) : Type := t -> Env.t -> exn + (A * t * Env.t).

#[global] Instance M_ret : MRet M := fun A x r w => inr (x, r, w).

#[global] Instance M_bind : MBind M := fun A B f c r w =>
  match c r w with
  | inl e => inl e
  | inr (x, r', w') => f x r' w'
  end.

Definition raise {A : Type} (e : exn) : M A := fun _ _ => inl e.

(** Reading and changing [self]. *)
Definition self : M t := fun r w => inr (r, r, w).
Definition update (f : t -> t) : M unit := fun r w => inr (tt, f r, w).

(** [time.time()] and [time.sleep(d)].  The durations slept in this
    development are configuration constants and durations of recorded
    actions, none of them negative; [time.sleep] raising ValueError on a
    negative argument is left out. *)
Definition time_time : M Q := fun r w => inr (Env.clock w (Env.reads w), r, Env.tick w).
Definition emit (e : Env.event) : M unit := fun r w => inr (tt, r, Env.emit e w).
Definition time_sleep (d : Q) : M unit := emit (Env.Sleep d).

(** [camera.read()] then [detect_and_recognize(frame)]. *)
Definition camera_detect : M (option (list Face.result)) :=
  fun r w => inr (Env.camera w (Env.frames w), r, Env.grab w).

(** Issuing the events of a motor call. *)
Fixpoint emit_all (es : list Env.event) : M unit :=
  match es with
  | [] => mret tt
  | e :: es' => emit e;; emit_all es'
  end.

(** [for step in range(n): body] *)
Fixpoint for_range (n : nat) (body : M unit) : M unit :=
  match n with
  | O => mret tt
  | S n' => body;; for_range n' body
  end.

(** *** Asynchronous recording *)

Definition _finish_current_action : M unit :=
  r ← self;
  match _current_action r with
  | None => mret tt
  | Some c =>
      now ← time_time;
      let duration := (now - _action_start_time r)%Q in
      (if Py.ge duration 0.05 then
         stamp ← time_time;
         update (fun r =>
           set_action_history
             (action_history r ++
                [mk_action (current_type c) (current_direction c) duration stamp]) r)
       else mret tt);;
      update (set_current_action None);;
      update (set_action_start_time 0)
  end.

Definition start_action (action_type direction : string) : M unit :=
  r ← self;
  if is_returning r then mret tt
  else
    (if _current_action r is Some _ then _finish_current_action else mret tt);;
    update (set_current_action (Some (mk_current action_type direction)));;
    now ← time_time;
    update (set_action_start_time now).

Definition stop_action : M unit :=
  r ← self;
  if _current_action r is Some _ then _finish_current_action else mret tt.

Definition get_current_action : M (option current) :=
  r ← self; mret (_current_action r).

Definition record (action_type direction : string) (duration : Q) : M unit :=
  r ← self;
  if is_returning r then mret tt
  else if Py.lt duration 0.05 then mret tt
  else
    stamp ← time_time;
    update (fun r =>
      set_action_history
        (action_history r ++ [mk_action action_type direction duration stamp]) r).

(** *** History management *)

Definition clear : M unit :=
  update (set_action_history []);;
  update (set_current_action None);;
  update (set_action_start_time 0).

Definition has_actions : M bool :=
  r ← self; mret (Z.of_nat (length (action_history r)) >? 0).

Definition get_action_count : M Z :=
  r ← self; mret (Z.of_nat (length (action_history r))).

Definition reverse_map : gmap string string :=
  <["backward" := "forward"]>
    (<["forward" := "backward"]>
       (<["right" := "left"]>
          (<["left" := "right"]> ∅))).

Definition get_reverse_direction (direction : string) : string :=
  default direction (reverse_map !! direction).

(** *** Return to origin *)

Definition start_returning : M bool :=
  stop_action;;
  some ← has_actions;
  if negb some then mret false
  else
    r ← self;
    update (set_is_returning true);;
    update (set_return_action_index (Z.of_nat (length (action_history r)) - 1));;
    mret true.

(** [self.action_history[self.return_action_index]] is only reached
    with a non-negative index; past the end it raises. *)
Definition get_next_return_action : M (option return_action) :=
  r ← self;
  if return_action_index r <? 0 then mret None
  else
    match action_history r !! Z.to_nat (return_action_index r) with
    | None => raise IndexError
    | Some a =>
        mret (Some (mk_return_action
                      (type a)
                      (get_reverse_direction (direction a))
                      (direction a)
                      (duration a)
                      (return_action_index r)
                      (Z.of_nat (length (action_history r)))))
    end.

Definition advance_return_index : M unit :=
  update (fun r => set_return_action_index (return_action_index r - 1) r).

Definition is_return_complete : M bool :=
  r ← self; mret (return_action_index r <? 0).

Definition finish_returning : M unit :=
  update (set_is_returning false);;
  clear.

(** The rotation branch of [execute_return_action]. *)
Definition replay_rotate (m : MotorController.t) (info : return_action) : M unit :=
  let step_duration := ROTATE_STEP_DURATION in
  let pause_duration := ROTATE_STEP_PAUSE in
  let total_steps := Py.int (return_duration info / step_duration) in
  for_range (Z.to_nat total_steps)
    ((if bool_decide (return_direction info = "left")
      then emit_all (MotorController.turn_left (Some SEARCH_ROTATE_SPEED) m)
      else emit_all (MotorController.turn_right (Some SEARCH_ROTATE_SPEED) m));;
     time_sleep step_duration;;
     emit_all (MotorController.stop m);;
     time_sleep pause_duration).

(** The movement branch of [execute_return_action]. *)
Definition replay_move (m : MotorController.t) (info : return_action) : M unit :=
  (if bool_decide (return_direction info = "forward")
   then emit_all (MotorController.forward None m)
   else emit_all (MotorController.backward None m));;
  time_sleep (return_duration info);;
  emit_all (MotorController.stop m).

(** [execute_return_action(motor, obstacle_callback)]; the callback is
    never called by the method. *)
Definition execute_return_action (motor : option MotorController.t) : M bool :=
  action_info ← get_next_return_action;
  match action_info with
  | None => finish_returning;; mret true
  | Some info =>
      (match motor with
       | Some m =>
           if negb (MotorController.enabled m) then time_sleep (return_duration info)
           else if bool_decide (return_type info = "rotate") then replay_rotate m info
           else if bool_decide (return_type info = "move") then replay_move m info
           else mret tt
       | None => time_sleep (return_duration info)
       end);;
      time_sleep 0.1;;
      advance_return_index;;
      mret false
  end.

(** *** Drivers

    [record_all] makes one [record] call per element, first element
    first. *)
Fixpoint record_all (acts : list (string * string * Q)) : M unit :=
  match acts with
  | [] => mret tt
  | (action_type, direction, duration) :: rest =>
      record action_type direction duration;; record_all rest
  end.

(** The dispatcher calls [execute_return_action] once per tick while it
    is in its returning state and leaves that state when the call reports
    completion.  [replay fuel motor] makes these calls, at most [fuel] of
    them.  It yields [Some l] when a call reported completion, [l] being
    what [get_next_return_action] showed before each of the earlier
    calls, and [None] when the fuel ran out first. *)
Fixpoint replay (fuel : nat) (motor : option MotorController.t)
  : M (option (list return_action)) :=
  match fuel with
  | O => mret None
  | S fuel' =>
      shown ← get_next_return_action;
      done ← execute_return_action motor;
      if done : bool then mret (Some [])
      else
        rest ← replay fuel' motor;
        mret (match shown with
              | Some info => cons info <$> rest
              | None => rest
              end)
  end.

(** The calls a client can make on a recorder. *)
Inductive call :=
| StartAction (action_type direction : string)
| StopAction
| Record_ (action_type direction : string) (duration : Q)
| Clear
| StartReturning
| AdvanceReturnIndex
| FinishReturning
| ExecuteReturnAction (motor : option MotorController.t).

Definition perform (c : call) : M unit :=
  match c with
  | StartAction action_type direction => start_action action_type direction
  | StopAction => stop_action
  | Record_ action_type direction duration => record action_type direction duration
  | Clear => clear
  | StartReturning => start_returning;; mret tt
  | AdvanceReturnIndex => advance_return_index
  | FinishReturning => finish_returning
  | ExecuteReturnAction motor => execute_return_action motor;; mret tt
  end.

(** States a recorder can be in: those obtained from a fresh object, in
    any surroundings, by method calls that return. *)
Inductive reachable : t -> Env.t -> Prop :=
| reachable_init w : reachable init w
| reachable_call c r w x r' w' :
    reachable r w -> perform c r w = inr (x, r', w') -> reachable r' w'.

End ActionRecorder.


(** ** modules/search_controller.py *)

Module SearchController.
Import Config.

(** The attributes of a SearchController object. *)
Record t := mk {
  search_step : Z;
  search_cycle : Z;
  last_rotation_time : Q;
  face_found_in_search : bool
}.

(** The dict returned by [get_next_search_action]. *)
Record search_action := mk_search_action {
  action : string;
  duration : Q;
  message : string
}.

(** [__init__] *)
Definition init : t := mk 0 0 0 false.

Definition reset (s : t) : t := mk 0 0 0 false.

Definition is_in_rotation_pause (now : Q) (s : t) : bool :=
  Py.lt (now - last_rotation_time s) SEARCH_ROTATE_PAUSE.

Definition update_rotation_time (now : Q) (s : t) : t :=
  mk (search_step s) (search_cycle s) now (face_found_in_search s).

Definition get_next_search_action (s : t) : search_action :=
  if search_step s =? 0 then
    mk_search_action "rotate_left" SEARCH_45DEG_DURATION
      "Scan: rotate left 45 degrees"
  else if search_step s =? 1 then
    mk_search_action "rotate_right" (SEARCH_45DEG_DURATION * 2)
      ("Scan: rotate right 90 degrees (" +:+ pretty (search_cycle s + 1)
         +:+ "/" +:+ pretty SEARCH_CYCLES +:+ ")")
  else if search_step s =? 2 then
    mk_search_action "rotate_left" (SEARCH_45DEG_DURATION * 2)
      ("Scan: rotate left 90 degrees (" +:+ pretty (search_cycle s + 1)
         +:+ "/" +:+ pretty SEARCH_CYCLES +:+ ")")
  else if search_step s =? 3 then
    mk_search_action "rotate_right" SEARCH_45DEG_DURATION
      "Scan: return to center"
  else
    mk_search_action "complete" 0 "Scan complete".

Definition advance_step (s : t) : t :=
  if search_step s =? 0 then
    mk 1 (search_cycle s) (last_rotation_time s) (face_found_in_search s)
  else if search_step s =? 1 then
    mk 2 (search_cycle s) (last_rotation_time s) (face_found_in_search s)
  else if search_step s =? 2 then
    let cycle := search_cycle s + 1 in
    if cycle >=? SEARCH_CYCLES then
      mk 3 cycle (last_rotation_time s) (face_found_in_search s)
    else
      mk 1 cycle (last_rotation_time s) (face_found_in_search s)
  else if search_step s =? 3 then
    mk 4 (search_cycle s) (last_rotation_time s) (face_found_in_search s)
  else s.

Definition is_search_complete (s : t) : bool := search_step s >? 3.

Definition on_face_found (s : t) : t :=
  mk (search_step s) (search_cycle s) (last_rotation_time s) true.

(** [n] rounds of the search loop: each reads [get_next_search_action]
    and then calls [advance_step]; the value of [search_step] at each
    read and the action read, first round first. *)
Fixpoint scan (n : nat) (s : t) : list (Z * search_action) :=
  match n with
  | O => []
  | S n' => (search_step s, get_next_search_action s) :: scan n' (advance_step s)
  end.

(** *** Face centering *)

Import ActionRecorder.

Definition _get_largest_face (results : list Face.result) : option Face.result :=
  match results with
  | [] => None
  | [only] => Some only
  | first :: rest =>
      let area (x : Face.result) := (Face.box_w (x.1.1) * Face.box_h (x.1.1))%Q in
      Some (fst (fold_left
                   (fun '(largest, largest_area) x =>
                      if Py.gt (area x) largest_area then (x, area x)
                      else (largest, largest_area))
                   rest (first, area first)))
  end.

(** The locals [frame_width / 2] and [frame_width * FACE_CENTER_TOLERANCE]
    of [center_face]. *)
Definition center_x : Q := inject_Z CAMERA_WIDTH / 2.
Definition tolerance : Q := inject_Z CAMERA_WIDTH * FACE_CENTER_TOLERANCE.

(** [box[0] + box[2] / 2 - center_x] *)
Definition face_center_x (f : Face.face_rect) : Q := Face.box_x f + Face.box_w f / 2.
Definition offset_from (center_x : Q) (f : Face.face_rect) : Q :=
  face_center_x f - center_x.

(** The test [abs(offset) <= tolerance]. *)
Definition within (center_x tolerance : Q) (f : Face.face_rect) : bool :=
  Py.le (Py.abs (offset_from center_x f)) tolerance.

(** The dict returned by [_do_center_rotation]. *)
Record rotation_result := mk_rotation_result {
  centered : bool;
  last_face_rect : option Face.face_rect;
  overshot : bool
}.

(** The loop of [_do_center_rotation] with [n] steps left; it yields the
    locals [centered], [last_face_rect], [overshot] and
    [actual_rotate_time] at the exit of the loop. *)
Fixpoint center_steps (n : nat) (direction : string) (motor : MotorController.t)
    (center_x tolerance : Q) (last : option Face.face_rect) (actual : Q)
  : M (rotation_result * Q) :=
  match n with
  | O => mret (mk_rotation_result false last false, actual)
  | S n' =>
      let step_duration := FACE_CENTER_STEP_DURATION in
      let pause_duration := FACE_CENTER_STEP_PAUSE in
      (if bool_decide (direction = "right")
       then emit_all (MotorController.turn_right (Some FACE_CENTER_SPEED) motor)
       else emit_all (MotorController.turn_left (Some FACE_CENTER_SPEED) motor));;
      time_sleep step_duration;;
      emit_all (MotorController.stop motor);;
      let actual := (actual + step_duration)%Q in
      time_sleep pause_duration;;
      seen ← camera_detect;
      match seen with
      | None => center_steps n' direction motor center_x tolerance last actual
      | Some results =>
          match _get_largest_face results with
          | None => center_steps n' direction motor center_x tolerance last actual
          | Some largest =>
              let face := largest.1.1 in
              if within center_x tolerance face then
                mret (mk_rotation_result true (Some face) false, actual)
              else
                let new_direction :=
                  if Py.gt (offset_from center_x face) 0 then "right" else "left" in
                if negb (bool_decide (new_direction = direction)) then
                  mret (mk_rotation_result false (Some face) true, actual)
                else
                  emit (Env.DisplayUpdate (step_duration + pause_duration));;
                  center_steps n' direction motor center_x tolerance (Some face) actual
          end
      end
  end.

Definition _do_center_rotation (direction : string) (motor : MotorController.t)
    (center_x tolerance : Q) : M rotation_result :=
  let max_rotate_time := FACE_CENTER_TIMEOUT in
  let max_steps :=
    Py.int (max_rotate_time / (FACE_CENTER_STEP_DURATION + FACE_CENTER_STEP_PAUSE)) in
  out ← center_steps (Z.to_nat max_steps) direction motor center_x tolerance None 0;
  let '(result, actual_rotate_time) := out in
  (if Py.gt actual_rotate_time 0.1
   then record "rotate" direction actual_rotate_time
   else mret tt);;
  mret result.

(** The loop of [center_face] with [retries] passes left. *)
Fixpoint center_passes (retries : nat) (face_rect : Face.face_rect)
    (motor : MotorController.t) : M bool :=
  match retries with
  | O => mret true
  | S retries' =>
      if within center_x tolerance face_rect then mret true
      else
        let direction :=
          if Py.gt (offset_from center_x face_rect) 0 then "right" else "left" in
        result ← _do_center_rotation direction motor center_x tolerance;
        if centered result then mret true
        else
          match last_face_rect result with
          | None => mret false
          | Some face_rect' =>
              time_sleep 0.1;;
              center_passes retries' face_rect' motor
          end
  end.

Definition MAX_CENTER_RETRIES : nat := 3.

Definition center_face (face_rect : Face.face_rect)
    (motor : option MotorController.t) : M bool :=
  if negb FACE_CENTER_ENABLED then mret true
  else
    match motor with
    | None => mret true
    | Some m =>
        if negb (MotorController.enabled m) then mret true
        else center_passes MAX_CENTER_RETRIES face_rect m
    end.

(** *** Rotating while watching for a face *)

(** [camera.read()] then [detect_faces_only(frame)]: the faces of which
    [detect_and_recognize] builds its results, one result per face. *)
Definition camera_detect_faces_only : M (option (list Face.face_rect)) :=
  seen ← camera_detect;
  mret (option_map (map (fun x : Face.result => x.1.1)) seen).

(** [devices] tells that neither [camera] nor [face_recognizer] is
    [None]. *)
Definition detect_face_in_search (devices : bool) (s : SearchController.t)
  : M (bool * SearchController.t) :=
  if negb devices then mret (false, s)
  else
    seen ← camera_detect_faces_only;
    match seen with
    | Some faces =>
        if Z.of_nat (length faces) >? 0 then mret (true, on_face_found s)
        else mret (false, s)
    | None => mret (false, s)
    end.

(** The [while] loop of [rotate_and_detect], run for at most [fuel]
    tests of its condition; it yields the local [found_face] and the
    controller, or [None] when the tests are used up. *)
Fixpoint rotate_loop (fuel : nat) (start_time duration : Q) (devices : bool)
    (s : SearchController.t) : M (option (bool * SearchController.t)) :=
  match fuel with
  | O => mret None
  | S fuel' =>
      now ← time_time;
      if Py.lt (now - start_time) duration then
        out ← detect_face_in_search devices s;
        let '(found, s') := (out : bool * SearchController.t) in
        if found then mret (Some (true, s'))
        else rotate_loop fuel' start_time duration devices s'
      else mret (Some (false, s))
  end.

Definition rotate_and_detect (fuel : nat) (direction : string) (duration : Q)
    (motor : option MotorController.t) (devices : bool) (s : SearchController.t)
  : M (option (bool * SearchController.t)) :=
  start_time ← time_time;
  match motor with
  | Some m =>
      if MotorController.enabled m then
        if bool_decide (direction = "left")
        then emit_all (MotorController.turn_left (Some SEARCH_ROTATE_SPEED) m)
        else emit_all (MotorController.turn_right (Some SEARCH_ROTATE_SPEED) m)
      else mret tt
  | None => mret tt
  end;;
  out ← rotate_loop fuel start_time duration devices s;
  match out with
  | None => mret None
  | Some (found_face, s') =>
      match motor with
      | Some m =>
          if MotorController.enabled m then emit_all (MotorController.stop m)
          else mret tt
      | None => mret tt
      end;;
      now ← time_time;
      let actual_rotate_time := (now - start_time)%Q in
      (if Py.gt actual_rotate_time 0.1
       then record "rotate" direction actual_rotate_time
       else mret tt);;
      mret (Some (found_face, s'))
  end.

End SearchController.


(** ** modules/interaction_handler.py, the timers and latches

    Every method that calls [time.time()] takes the readings as
    arguments, in the order in which the method takes them; a reading
    the method does not reach is ignored. *)

Module InteractionHandler.
Import Config.

(** The attributes of an InteractionHandler object. *)
Record t := mk {
  voice_wake_time : Q;
  voice_wake_active : bool;
  voice_wake_duration : Q;
  is_awake : bool;
  awake_time : Q;
  awake_duration : Q;
  last_activity_time : Q;
  is_playing_audio : bool;
  blocking_action_active : bool;
  familiar_interaction_active : bool;
  familiar_interaction_time : Q;
  familiar_idle_timeout : Q;
  stranger_observation_active : bool;
  stranger_observation_time : Q;
  stranger_track_timeout : Q;
  ultrasonic_scared_active : bool;
  ultrasonic_scared_time : Q;
  excited_until : Q
}.

Definition set_voice_wake (time : Q) (active : bool) (h : t) : t :=
  mk time active (voice_wake_duration h)
     (is_awake h) (awake_time h) (awake_duration h) (last_activity_time h)
     (is_playing_audio h) (blocking_action_active h)
     (familiar_interaction_active h) (familiar_interaction_time h) (familiar_idle_timeout h)
     (stranger_observation_active h) (stranger_observation_time h) (stranger_track_timeout h)
     (ultrasonic_scared_active h) (ultrasonic_scared_time h) (excited_until h).

Definition set_awake (awake : bool) (since activity : Q) (h : t) : t :=
  mk (voice_wake_time h) (voice_wake_active h) (voice_wake_duration h)
     awake since (awake_duration h) activity
     (is_playing_audio h) (blocking_action_active h)
     (familiar_interaction_active h) (familiar_interaction_time h) (familiar_idle_timeout h)
     (stranger_observation_active h) (stranger_observation_time h) (stranger_track_timeout h)
     (ultrasonic_scared_active h) (ultrasonic_scared_time h) (excited_until h).

Definition set_is_playing_audio (playing : bool) (h : t) : t :=
  mk (voice_wake_time h) (voice_wake_active h) (voice_wake_duration h)
     (is_awake h) (awake_time h) (awake_duration h) (last_activity_time h)
     playing (blocking_action_active h)
     (familiar_interaction_active h) (familiar_interaction_time h) (familiar_idle_timeout h)
     (stranger_observation_active h) (stranger_observation_time h) (stranger_track_timeout h)
     (ultrasonic_scared_active h) (ultrasonic_scared_time h) (excited_until h).

Definition set_familiar (active : bool) (time : Q) (h : t) : t :=
  mk (voice_wake_time h) (voice_wake_active h) (voice_wake_duration h)
     (is_awake h) (awake_time h) (awake_duration h) (last_activity_time h)
     (is_playing_audio h) (blocking_action_active h)
     active time (familiar_idle_timeout h)
     (stranger_observation_active h) (stranger_observation_time h) (stranger_track_timeout h)
     (ultrasonic_scared_active h) (ultrasonic_scared_time h) (excited_until h).

Definition set_stranger (active : bool) (time : Q) (h : t) : t :=
  mk (voice_wake_time h) (voice_wake_active h) (voice_wake_duration h)
     (is_awake h) (awake_time h) (awake_duration h) (last_activity_time h)
     (is_playing_audio h) (blocking_action_active h)
     (familiar_interaction_active h) (familiar_interaction_time h) (familiar_idle_timeout h)
     active time (stranger_track_timeout h)
     (ultrasonic_scared_active h) (ultrasonic_scared_time h) (excited_until h).

Definition set_ultrasonic (active : bool) (time : Q) (h : t) : t :=
  mk (voice_wake_time h) (voice_wake_active h) (voice_wake_duration h)
     (is_awake h) (awake_time h) (awake_duration h) (last_activity_time h)
     (is_playing_audio h) (blocking_action_active h)
     (familiar_interaction_active h) (familiar_interaction_time h) (familiar_idle_timeout h)
     (stranger_observation_active h) (stranger_observation_time h) (stranger_track_timeout h)
     active time (excited_until h).

(** [__init__] *)
Definition init : t :=
  mk 0 false VOICE_WAKE_DURATION
     false 0 AWAKE_TIMEOUT 0
     false false
     false 0 FAMILIAR_IDLE_TIMEOUT
     false 0 STRANGER_TRACK_TIMEOUT
     false 0 0.

(** *** Awake state *)

Definition wake_up (now1 now2 : Q) (h : t) : t := set_awake true now1 now2 h.

Definition update_activity (now : Q) (h : t) : t :=
  set_awake (is_awake h) (awake_time h) now h.

Definition check_awake_timeout (now1 now2 : Q) (h : t) : bool * t :=
  if negb (is_awake h) then (false, h)
  else
    let time_since_activity := (now1 - last_activity_time h)%Q in
    if AWAKE_ACTIVITY_EXTEND && Py.lt time_since_activity (awake_duration h)
    then (false, h)
    else if Py.ge (now2 - awake_time h) (awake_duration h)
    then (true, set_awake false (awake_time h) (last_activity_time h) h)
    else (false, h).

Definition sleep (h : t) : t :=
  set_awake false (awake_time h) (last_activity_time h) h.

(** *** Voice-wake emotion *)

Definition start_voice_wake_emotion (now : Q) (h : t) : t := set_voice_wake now true h.

Definition check_voice_wake_emotion_timeout (now : Q) (h : t) : bool * t :=
  if negb (voice_wake_active h) then (false, h)
  else if Py.ge (now - voice_wake_time h) (voice_wake_duration h)
  then (true, set_voice_wake (voice_wake_time h) false h)
  else (false, h).

(** *** Audio *)

Definition start_playing_audio (h : t) : t := set_is_playing_audio true h.

(** [music_playing] is what [audio.is_music_playing()] answers. *)
Definition check_audio_finished (music_playing : bool) (h : t) : bool * t :=
  if is_playing_audio h then
    if negb music_playing then (true, set_is_playing_audio false h)
    else (false, h)
  else (false, h).

(** *** Familiar interaction *)

Definition start_familiar_interaction (now : Q) (h : t) : t := set_familiar true now h.

Definition refresh_familiar_interaction (now : Q) (h : t) : t :=
  if familiar_interaction_active h
  then set_familiar (familiar_interaction_active h) now h
  else h.

Definition check_familiar_timeout (now : Q) (h : t) : bool * t :=
  if negb (familiar_interaction_active h) then (false, h)
  else
    let time_since_interaction := (now - familiar_interaction_time h)%Q in
    if Py.ge time_since_interaction (familiar_idle_timeout h)
    then (true, set_familiar false (familiar_interaction_time h) h)
    else (false, h).

Definition end_familiar_interaction (h : t) : t :=
  set_familiar false (familiar_interaction_time h) h.

(** *** Stranger observation *)

Definition start_stranger_observation (now : Q) (h : t) : t := set_stranger true now h.

Definition refresh_stranger_observation (now : Q) (h : t) : t :=
  if stranger_observation_active h
  then set_stranger (stranger_observation_active h) now h
  else h.

Definition check_stranger_timeout (now : Q) (h : t) : bool * t :=
  if negb (stranger_observation_active h) then (false, h)
  else
    let time_since_start := (now - stranger_observation_time h)%Q in
    if Py.ge time_since_start (stranger_track_timeout h)
    then (true, set_stranger false (stranger_observation_time h) h)
    else (false, h).

Definition end_stranger_observation (h : t) : t :=
  set_stranger false (stranger_observation_time h) h.

(** *** Ultrasonic scare *)

Definition trigger_ultrasonic_scared (now : Q) (h : t) : t := set_ultrasonic true now h.

Definition check_ultrasonic_recovery (recovery_delay now : Q) (h : t) : bool * t :=
  if negb (ultrasonic_scared_active h) then (false, h)
  else if Py.ge (now - ultrasonic_scared_time h) recovery_delay
  then (true, set_ultrasonic false (ultrasonic_scared_time h) h)
  else (false, h).

End InteractionHandler.


(** * Notions used to state the properties *)

Module RecognitionHandlerNotions.
Import Config RecognitionHandler.

(** Every counter of the handler lies in [0, EMOTION_CONFIRM_COUNT]. *)
Definition in_range (h : t) : Prop :=
  map_Forall (fun _ v => 0 <= v <= EMOTION_CONFIRM_COUNT) (recognition_counters h).

(** The counters are those of the two labels, and no other. *)
Definition two_labels (h : t) : Prop :=
  forall key, is_Some (recognition_counters h !! key)
              <-> key = "familiar" \/ key = "stranger".

Definition both_confirmed (h : t) : Prop :=
  is_confirmed "familiar" h = true /\ is_confirmed "stranger" h = true.

(** Successive calls of [handle_registration] with the same
    [on_complete], one per element of [results] (what the recogniser
    answered for each sampled frame): the values returned, first call
    first, and the final handler. *)
Fixpoint handle_all (on_complete : option (t -> t)) (results : list bool) (h : t)
  : list bool * t :=
  match results with
  | [] => ([], h)
  | success :: rest =>
      let '(done, h1) := handle_registration success on_complete h in
      let '(dones, h2) := handle_all on_complete rest h1 in
      (done :: dones, h2)
  end.

(** The number of successful samples among [results]. *)
Definition successes (results : list bool) : Z :=
  Z.of_nat (count_occ Bool.bool_dec results true).

(** Every counter of the handler lies in [0, k]. *)
Definition counters_at_most (k : Z) (h : t) : Prop :=
  map_Forall (fun _ v => 0 <= v <= k) (recognition_counters h).


End RecognitionHandlerNotions.

Module SearchControllerNotions.
Import Config SearchController.

(** What a round of the search loop shows: the step and the name of the
    action. *)
Definition shown (round : Z * search_action) : Z * string :=
  (round.1, action round.2).

(** The area [w * h] of the box of a detection, as [_get_largest_face]
    computes it. *)
Definition face_area (x : Face.result) : Q :=
  (Face.box_w x.1.1 * Face.box_h x.1.1)%Q.

(** One step of the scan of [_get_largest_face] over the faces after the
    first. *)
Definition keep_larger : Face.result * Q -> Face.result -> Face.result * Q :=
  fun '(largest, largest_area) x =>
    if Py.gt (face_area x) largest_area then (x, face_area x)
    else (largest, largest_area).

(** The calls a client can make on a search controller; [now] is the
    clock reading taken by [update_rotation_time]. *)
Inductive call :=
| Reset
| AdvanceStep
| OnFaceFound
| UpdateRotationTime (now : Q).

Definition perform (c : call) (s : t) : t :=
  match c with
  | Reset => reset s
  | AdvanceStep => advance_step s
  | OnFaceFound => on_face_found s
  | UpdateRotationTime now => update_rotation_time now s
  end.

(** States a search controller can be in. *)
Inductive reachable : t -> Prop :=
| reachable_init : reachable init
| reachable_call c s : reachable s -> reachable (perform c s).

(** The step and the cycle counter go together: before the sweeps the
    cycle is 0, during them it is below SEARCH_CYCLES, after them it is
    SEARCH_CYCLES. *)
Definition in_script (s : t) : Prop :=
  (search_step s = 0 /\ search_cycle s = 0)
  \/ ((search_step s = 1 \/ search_step s = 2)
      /\ 0 <= search_cycle s < SEARCH_CYCLES)
  \/ ((search_step s = 3 \/ search_step s = 4)
      /\ search_cycle s = SEARCH_CYCLES).

(** The seconds of rotation named [name] in a run of the search loop. *)
Definition rotation_time (name : string) (rounds : list (Z * search_action)) : Q :=
  fold_right
    (fun round acc => if bool_decide (action round.2 = name)
                      then (duration round.2 + acc)%Q else acc)
    0%Q rounds.

(** The rotation commands among events. *)
Fixpoint turns (es : list Env.event) : nat :=
  match es with
  | [] => 0
  | Env.TurnLeft _ :: es' => S (turns es')
  | Env.TurnRight _ :: es' => S (turns es')
  | _ :: es' => turns es'
  end.

(** The seconds of motion recorded in entries of the action history. *)
Definition recorded_time (l : list ActionRecorder.action) : Q :=
  fold_right (fun a acc => (ActionRecorder.duration a + acc)%Q) 0%Q l.

(** An entry as a centering pass records it: a rotation to the left or
    to the right of one to four centering steps. *)
Definition centering_entry (a : ActionRecorder.action) : Prop :=
  ActionRecorder.type a = "rotate"
  /\ (ActionRecorder.direction a = "left" \/ ActionRecorder.direction a = "right")
  /\ (FACE_CENTER_STEP_DURATION <= ActionRecorder.duration a)%Q
  /\ (ActionRecorder.duration a <= 4 * FACE_CENTER_STEP_DURATION)%Q.

(** The local [actual_rotate_time] of [_do_center_rotation] after [k]
    more steps. *)
Definition steps_time (k : nat) (actual : Q) : Q :=
  Nat.iter k (fun a => (a + FACE_CENTER_STEP_DURATION)%Q) actual.

(** The surroundings after [k] more camera frames have been read and the
    events [es] have been added to the log. *)
Definition after_frames (k : nat) (es : list Env.event) (w : Env.t) : Env.t :=
  Env.mk (Env.clock w) (Env.reads w) (Env.camera w) (k + Env.frames w) (Env.log w ++ es).

(** A frame in which the detector finds at least one face. *)
Definition sees_face (seen : option (list Face.result)) : bool :=
  match seen with
  | Some (_ :: _) => true
  | _ => false
  end.

(** What reaches the motor driver during a search rotation: one turn
    command at the search speed and one stop, or nothing without a
    working motor. *)
Definition search_motion (direction : string) (motor : option MotorController.t)
  : list Env.event :=
  match motor with
  | Some m =>
      if MotorController.enabled m then
        [if bool_decide (direction = "left")
         then Env.TurnLeft SEARCH_ROTATE_SPEED
         else Env.TurnRight SEARCH_ROTATE_SPEED;
         Env.Stop]
      else []
  | None => []
  end.

(** The reading of the clock [i] calls of [time.time()] after the next
    one, counted from the next one. *)
Definition reading (w : Env.t) (i : nat) : Q := Env.clock w (Env.reads w + i).

(** A box as the detector delivers it: its four numbers are whole
    pixels ([astype(int)] in face_detector.py). *)
Definition whole_pixels (f : Face.face_rect) : Prop :=
  exists x y w h : Z, Face.box f = (inject_Z x, inject_Z y, inject_Z w, inject_Z h).

End SearchControllerNotions.

Module ActionRecorderNotions.
Import Config ActionRecorder.

(** The surroundings after the events [es] have been added to the log. *)
Definition logged (es : list Env.event) (w : Env.t) : Env.t :=
  Env.mk (Env.clock w) (Env.reads w) (Env.camera w) (Env.frames w) (Env.log w ++ es).

(** A computation that only adds the events [es] to the log. *)
Definition emits (c : M unit) (es : list Env.event) : Prop :=
  forall r w, c r w = inr (tt, r, logged es w).

(** The time the motor is driven in a run of events: the sleeps between
    a motion command and the next stop; [on] tells whether the motor is
    driven at the start. *)
Fixpoint motor_on_time (on : bool) (es : list Env.event) : Q :=
  match es with
  | [] => 0
  | Env.Stop :: es' => motor_on_time false es'
  | Env.Sleep d :: es' => ((if on then d else 0) + motor_on_time on es')%Q
  | Env.DisplayUpdate _ :: es' => motor_on_time on es'
  | _ :: es' => motor_on_time true es'
  end.

(** One step pulse of a replayed rotation toward [dir]. *)
Definition pulse (m : MotorController.t) (dir : string) : list Env.event :=
  (if bool_decide (dir = "left")
   then MotorController.turn_left (Some SEARCH_ROTATE_SPEED) m
   else MotorController.turn_right (Some SEARCH_ROTATE_SPEED) m)
  ++ [Env.Sleep ROTATE_STEP_DURATION]
  ++ MotorController.stop m
  ++ [Env.Sleep ROTATE_STEP_PAUSE].

(** The events of the replay of an action of kind [ty] toward [dir]
    lasting [d] seconds, before the stabilisation sleep. *)
Definition replay_events (motor : option MotorController.t) (ty dir : string) (d : Q)
  : list Env.event :=
  match motor with
  | None => [Env.Sleep d]
  | Some m =>
      if negb (MotorController.enabled m) then [Env.Sleep d]
      else if bool_decide (ty = "rotate") then
        concat (replicate (Z.to_nat (Py.int (d / ROTATE_STEP_DURATION))) (pulse m dir))
      else if bool_decide (ty = "move") then
        (if bool_decide (dir = "forward")
         then MotorController.forward None m
         else MotorController.backward None m)
        ++ [Env.Sleep d] ++ MotorController.stop m
      else []
  end.

(** What [get_next_return_action] shows for the entry [a] at index [i]
    of a history of [n] entries. *)
Definition shown_for (n : nat) (i : Z) (a : action) : return_action :=
  mk_return_action (type a) (get_reverse_direction (direction a)) (direction a)
                   (duration a) i (Z.of_nat n).

(** A recorded action without its timestamp. *)
Definition plain (a : action) : string * string * Q :=
  (type a, direction a, duration a).

(** Every entry of the history lasts at least 0.05 s. *)
Definition all_meaningful (r : t) : Prop :=
  Forall (fun a => (0.05 <= duration a)%Q) (action_history r).

(** Surroundings used in examples: the clock advances one second per
    reading, the camera sees no face, nothing has happened yet. *)
Definition still : Env.t :=
  Env.mk (fun k => inject_Z (Z.of_nat k)) 0 (fun _ => None) 0 [].

(** What [get_next_return_action] showed, without cursor and total. *)
Definition replayed (info : return_action) : string * string * Q :=
  (return_type info, original_direction info, return_duration info).

(** The events of the replay of the recorded action [x], stabilisation
    sleep included. *)
Definition undo_events (motor : option MotorController.t) (x : string * string * Q)
  : list Env.event :=
  replay_events motor x.1.1 (get_reverse_direction x.1.2) x.2 ++ [Env.Sleep 0.1].

(** The duration [_finish_current_action] measures for the resident
    action: the next clock reading less the start time. *)
Definition elapsed (r : t) (w : Env.t) : Q :=
  (Env.clock w (Env.reads w) - _action_start_time r)%Q.

(** The entry [_finish_current_action] appends for the resident action
    [c]; the timestamp is the clock reading after the one that measured
    the duration. *)
Definition finished (c : current) (r : t) (w : Env.t) : action :=
  mk_action (current_type c) (current_direction c) (elapsed r w)
            (Env.clock w (S (Env.reads w))).

(** A computation that, when it returns, leaves a history of meaningful
    entries meaningful. *)
Definition keeps_meaningful {A : Type} (c : M A) : Prop :=
  forall r w x r' w',
    c r w = inr (x, r', w') -> all_meaningful r -> all_meaningful r'.

(** The events of one step pulse on an enabled motor, [turn] being the
    rotation command. *)
Definition step_pulse (turn : Env.event) : list Env.event :=
  [turn; Env.Sleep ROTATE_STEP_DURATION; Env.Stop; Env.Sleep ROTATE_STEP_PAUSE].

(** A motor that is present and enabled, as on the robot. *)
Definition live_motor : MotorController.t := MotorController.mk 60 true.

End ActionRecorderNotions.


Module InteractionHandlerNotions.
Import Config InteractionHandler.

(** The methods of the handler that only read the clock and their own
    attributes, each with the clock readings it takes. *)
Inductive call :=
| WakeUp (now1 now2 : Q)
| UpdateActivity (now : Q)
| CheckAwakeTimeout (now1 now2 : Q)
| Sleep
| StartVoiceWakeEmotion (now : Q)
| CheckVoiceWakeEmotionTimeout (now : Q)
| StartPlayingAudio
| CheckAudioFinished (music_playing : bool)
| StartFamiliarInteraction (now : Q)
| RefreshFamiliarInteraction (now : Q)
| CheckFamiliarTimeout (now : Q)
| EndFamiliarInteraction
| StartStrangerObservation (now : Q)
| RefreshStrangerObservation (now : Q)
| CheckStrangerTimeout (now : Q)
| EndStrangerObservation
| TriggerUltrasonicScared (now : Q)
| CheckUltrasonicRecovery (recovery_delay now : Q).

Definition perform (c : call) (h : t) : t :=
  match c with
  | WakeUp now1 now2 => wake_up now1 now2 h
  | UpdateActivity now => update_activity now h
  | CheckAwakeTimeout now1 now2 => (check_awake_timeout now1 now2 h).2
  | Sleep => sleep h
  | StartVoiceWakeEmotion now => start_voice_wake_emotion now h
  | CheckVoiceWakeEmotionTimeout now => (check_voice_wake_emotion_timeout now h).2
  | StartPlayingAudio => start_playing_audio h
  | CheckAudioFinished music_playing => (check_audio_finished music_playing h).2
  | StartFamiliarInteraction now => start_familiar_interaction now h
  | RefreshFamiliarInteraction now => refresh_familiar_interaction now h
  | CheckFamiliarTimeout now => (check_familiar_timeout now h).2
  | EndFamiliarInteraction => end_familiar_interaction h
  | StartStrangerObservation now => start_stranger_observation now h
  | RefreshStrangerObservation now => refresh_stranger_observation now h
  | CheckStrangerTimeout now => (check_stranger_timeout now h).2
  | EndStrangerObservation => end_stranger_observation h
  | TriggerUltrasonicScared now => trigger_ultrasonic_scared now h
  | CheckUltrasonicRecovery recovery_delay now =>
      (check_ultrasonic_recovery recovery_delay now h).2
  end.

(** The handler after a sequence of calls on a fresh object. *)
Definition run (cs : list call) : t := foldl (fun h c => perform c h) init cs.

(** The clock readings a call takes, in order.  A reading is listed
    even where the call's early return skips it: the clock has passed
    that value by the time the call ends. *)
Definition readings (c : call) : list Q :=
  match c with
  | WakeUp now1 now2 | CheckAwakeTimeout now1 now2 => [now1; now2]
  | UpdateActivity now
  | StartVoiceWakeEmotion now | CheckVoiceWakeEmotionTimeout now
  | StartFamiliarInteraction now | RefreshFamiliarInteraction now
  | CheckFamiliarTimeout now
  | StartStrangerObservation now | RefreshStrangerObservation now
  | CheckStrangerTimeout now
  | TriggerUltrasonicScared now | CheckUltrasonicRecovery _ now => [now]
  | Sleep | StartPlayingAudio | CheckAudioFinished _
  | EndFamiliarInteraction | EndStrangerObservation => []
  end.

(** The readings stored as the time of the last activity, and as the
    time of waking. *)
Definition activity_readings (c : call) : list Q :=
  match c with
  | WakeUp _ now2 => [now2]
  | UpdateActivity now => [now]
  | _ => []
  end.

Definition wake_readings (c : call) : list Q :=
  match c with
  | WakeUp now1 _ => [now1]
  | _ => []
  end.

(** A clock that never goes back. *)
Fixpoint ordered_from (last : Q) (ts : list Q) : bool :=
  match ts with
  | [] => true
  | t :: ts' => Qle_bool last t && ordered_from t ts'
  end.

Definition ordered (ts : list Q) : bool :=
  match ts with
  | [] => true
  | t :: ts' => ordered_from t ts'
  end.

(** Polling a timer: the answers of successive checks at the given
    times, and the handler after them. *)
Fixpoint poll (check : Q -> t -> bool * t) (nows : list Q) (h : t) : list bool * t :=
  match nows with
  | [] => ([], h)
  | now :: nows' =>
      let '(fired, h1) := check now h in
      let '(rest, h2) := poll check nows' h1 in
      (fired :: rest, h2)
  end.

(** The answers of a one-shot timer: [true] at the first poll that is
    due, [false] at every other poll. *)
Fixpoint first_only (due : Q -> bool) (nows : list Q) : list bool :=
  match nows with
  | [] => []
  | now :: nows' =>
      if due now then true :: map (fun _ => false) nows'
      else false :: first_only due nows'
  end.

(** A run of refresh calls, and the reading stored by the last touch of
    a timer started at [t0]. *)
Definition refreshes (refresh : Q -> t -> t) (ts : list Q) (h : t) : t :=
  foldl (fun h now => refresh now h) h ts.

Definition last_touch (t0 : Q) (ts : list Q) : Q := List.last ts t0.

End InteractionHandlerNotions.

(** * Properties *)

(** ** RecognitionHandler: debounced confirmation *)

Module RecognitionHandlerFacts.
Import Config RecognitionHandler RecognitionHandlerNotions.

Lemma lookup_update_counter label h key :
  recognition_counters (update_counter label h) !! key
  = update_entry label key <$> recognition_counters h !! key.
Proof.
  unfold update_counter; simpl.
  rewrite map_lookup_imap.
  by destruct (recognition_counters h !! key).
Qed.

Lemma lookup_decay_counters h key :
  recognition_counters (decay_counters h) !! key
  = decay_entry <$> recognition_counters h !! key.
Proof. unfold decay_counters; simpl. apply lookup_fmap. Qed.

Lemma lookup_reset_counters h key :
  recognition_counters (reset_counters h) !! key
  = (fun _ => 0) <$> recognition_counters h !! key.
Proof. unfold reset_counters; simpl. apply lookup_fmap. Qed.

Lemma update_entry_range label key v :
  0 <= v <= EMOTION_CONFIRM_COUNT ->
  0 <= update_entry label key v <= EMOTION_CONFIRM_COUNT.
Proof.
  unfold update_entry, EMOTION_CONFIRM_COUNT. intros Hv.
  case_bool_decide; [lia|].
  destruct (Z.ltb_spec 0 v); lia.
Qed.

Lemma decay_entry_range v :
  0 <= v <= EMOTION_CONFIRM_COUNT -> 0 <= decay_entry v <= EMOTION_CONFIRM_COUNT.
Proof. unfold decay_entry. intros Hv. destruct (Z.ltb_spec 0 v); lia. Qed.

Lemma update_entry_other label key v :
  key <> label -> update_entry label key v = decay_entry v.
Proof. unfold update_entry, decay_entry. intros. by rewrite bool_decide_eq_false_2. Qed.

Lemma update_entry_same label v :
  update_entry label label v = Z.min EMOTION_CONFIRM_COUNT (v + 1).
Proof. unfold update_entry. by rewrite bool_decide_eq_true_2. Qed.

Lemma decay_entry_floor v : 0 <= v -> decay_entry v = Z.max 0 (v - 1).
Proof. unfold decay_entry. intros Hv. destruct (Z.ltb_spec 0 v); lia. Qed.

Lemma in_range_update_counter label h : in_range h -> in_range (update_counter label h).
Proof.
  intros Hr key v. rewrite lookup_update_counter.
  destruct (recognition_counters h !! key) as [v0|] eqn:E; [|done].
  intros [= <-]. apply update_entry_range. exact (Hr key v0 E).
Qed.

Lemma in_range_decay_counters h : in_range h -> in_range (decay_counters h).
Proof.
  intros Hr key v. rewrite lookup_decay_counters.
  destruct (recognition_counters h !! key) as [v0|] eqn:E; [|done].
  intros [= <-]. apply decay_entry_range. exact (Hr key v0 E).
Qed.

Lemma in_range_reset_counters h : in_range (reset_counters h).
Proof.
  intros key v. rewrite lookup_reset_counters.
  destruct (recognition_counters h !! key); [|done].
  intros [= <-]. unfold EMOTION_CONFIRM_COUNT. lia.
Qed.

Lemma counters_on_face_lost h :
  recognition_counters (on_face_lost h).2 = recognition_counters (decay_counters h)
  \/ recognition_counters (on_face_lost h).2
     = recognition_counters (reset_counters (decay_counters h)).
Proof.
  unfold on_face_lost.
  destruct (no_face_count _ >=? NO_FACE_RESET_COUNT); simpl; auto.
Qed.

Lemma in_range_on_face_lost h : in_range h -> in_range (on_face_lost h).2.
Proof.
  intros Hr. unfold in_range.
  destruct (counters_on_face_lost h) as [-> | ->].
  - by apply in_range_decay_counters.
  - apply in_range_reset_counters.
Qed.

Lemma counters_handle_registration b (cb : bool) h :
  let h' := (handle_registration b
               (if cb then Some on_registration_complete else None) h).2 in
  recognition_counters h' = recognition_counters h
  \/ recognition_counters h' = (fun _ => 0) <$> recognition_counters h.
Proof.
  unfold handle_registration. destruct b; [|by left].
  destruct (_ >=? SAMPLES_PER_PERSON); [|by left].
  destruct cb; [by right|by left].
Qed.

Lemma in_range_perform c h : in_range h -> in_range (perform c h).
Proof.
  intros Hr. destruct c; cbn [perform];
    auto using in_range_update_counter, in_range_decay_counters,
               in_range_reset_counters, in_range_on_face_lost.
  destruct (counters_handle_registration success with_callback h) as [Heq | Heq];
    unfold in_range; rewrite Heq; [exact Hr|exact (in_range_reset_counters h)].
Qed.

Lemma in_range_init : in_range init.
Proof.
  intros key v. unfold init; simpl. unfold EMOTION_CONFIRM_COUNT.
  rewrite !lookup_insert. repeat case_decide; rewrite ?lookup_empty; intros [=]; lia.
Qed.

Lemma two_labels_init : two_labels init.
Proof.
  intros key. unfold init; simpl. rewrite !lookup_insert.
  repeat case_decide; subst; rewrite ?lookup_empty; split; intros Hk;
    eauto; try (by destruct Hk as [? [=]]); by destruct Hk.
Qed.

Lemma two_labels_same_keys h h' :
  (forall key, is_Some (recognition_counters h' !! key)
               <-> is_Some (recognition_counters h !! key)) ->
  two_labels h -> two_labels h'.
Proof. intros Hk Ht key. rewrite Hk. apply Ht. Qed.

Lemma two_labels_perform c h : two_labels h -> two_labels (perform c h).
Proof.
  apply two_labels_same_keys. intros key.
  destruct c; cbn [perform]; try done.
  - rewrite lookup_update_counter. apply fmap_is_Some.
  - rewrite lookup_reset_counters. apply fmap_is_Some.
  - rewrite lookup_decay_counters. apply fmap_is_Some.
  - destruct (counters_on_face_lost h) as [-> | ->].
    + rewrite lookup_decay_counters. apply fmap_is_Some.
    + rewrite lookup_reset_counters, fmap_is_Some, lookup_decay_counters.
      apply fmap_is_Some.
  - destruct (counters_handle_registration success with_callback h) as [-> | ->];
      [done|]. rewrite lookup_fmap. apply fmap_is_Some.
Qed.

Lemma reachable_in_range h : reachable h -> in_range h.
Proof. induction 1; auto using in_range_init, in_range_perform. Qed.

Lemma reachable_two_labels h : reachable h -> two_labels h.
Proof. induction 1; auto using two_labels_init, two_labels_perform. Qed.

Lemma get_count_lookup label h v :
  recognition_counters h !! label = Some v -> get_count label h = v.
Proof. unfold get_count. by intros ->. Qed.

Lemma get_count_decay_counters key h :
  get_count key (decay_counters h) = decay_entry (get_count key h).
Proof.
  unfold get_count. rewrite lookup_decay_counters.
  by destruct (recognition_counters h !! key).
Qed.

Lemma is_confirmed_get_count label h :
  is_confirmed label h = (get_count label h >=? EMOTION_CONFIRM_COUNT).
Proof. done. Qed.

(** [n] calls of [update_counter label]. *)
Lemma lookup_update_counter_iter label n h key :
  recognition_counters (Nat.iter n (update_counter label) h) !! key
  = Nat.iter n (update_entry label key) <$> recognition_counters h !! key.
Proof.
  induction n as [|n IH].
  - cbv [Nat.iter nat_rect]. by destruct (recognition_counters h !! key).
  - rewrite !Nat.iter_succ, lookup_update_counter, IH.
    by destruct (recognition_counters h !! key).
Qed.

(** In a state met in operation the two labels are never both confirmed. *)
Lemma not_both_perform c h :
  in_range h -> two_labels h -> ~ both_confirmed h -> ~ both_confirmed (perform c h).
Proof.
  intros Hr Ht Hn.
  destruct (proj2 (Ht "familiar")) as [f Hf]; [by left|].
  destruct (proj2 (Ht "stranger")) as [s Hs]; [by right|].
  pose proof (Hr _ _ Hf) as Hfr. pose proof (Hr _ _ Hs) as Hsr.
  assert (Hcase : recognition_counters (perform c h) = recognition_counters h
          \/ (exists label, perform c h = update_counter label h)
          \/ recognition_counters (perform c h) = recognition_counters (decay_counters h)
          \/ recognition_counters (perform c h)
             = (fun _ => 0) <$> recognition_counters (perform DecayCounters h)
          \/ recognition_counters (perform c h) = (fun _ => 0) <$> recognition_counters h).
  { destruct c; cbn [perform]; eauto.
    - destruct (counters_on_face_lost h) as [-> | ->]; eauto.
    - destruct (counters_handle_registration success with_callback h) as [-> | ->];
        eauto 6. }
  unfold both_confirmed, is_confirmed in *. unfold EMOTION_CONFIRM_COUNT in *.
  destruct Hcase as [-> | [[label ->] | [-> | [-> | ->]]]].
  - done.
  - rewrite !lookup_update_counter, Hf, Hs. simpl. unfold update_entry.
    rewrite Hf, Hs in Hn. simpl in Hn.
    repeat case_bool_decide; subst; try discriminate;
      repeat match goal with |- context [0 <? ?x] => destruct (Z.ltb_spec 0 x) end;
      lia.
  - rewrite !lookup_decay_counters, Hf, Hs. simpl. unfold decay_entry.
    repeat match goal with |- context [0 <? ?x] => destruct (Z.ltb_spec 0 x) end; lia.
  - rewrite !lookup_fmap. cbn [perform]. rewrite !lookup_decay_counters, Hf. simpl. lia.
  - rewrite !lookup_fmap, Hf. simpl. lia.
Qed.

Lemma not_both_init : ~ both_confirmed init.
Proof. by intros [? ?]. Qed.

Lemma reachable_not_both h : reachable h -> ~ both_confirmed h.
Proof.
  induction 1 as [|c h Hh IH]; [apply not_both_init|].
  apply not_both_perform; auto using reachable_in_range, reachable_two_labels.
Qed.

(** C5.  From any state whose familiar and stranger counters lie in
    [0, EMOTION_CONFIRM_COUNT], EMOTION_CONFIRM_COUNT calls of
    [update_counter("familiar")] leave familiar confirmed and stranger
    not confirmed.  One call replaces the counter of the named label by
    [min(EMOTION_CONFIRM_COUNT, v + 1)] and every other counter [v >= 0]
    by [max(0, v - 1)], and in no state met in operation are familiar and
    stranger both confirmed. *)
Theorem familiar_confirmed_after_threshold :
  (forall h f s,
      recognition_counters h !! "familiar" = Some f ->
      recognition_counters h !! "stranger" = Some s ->
      0 <= f <= EMOTION_CONFIRM_COUNT ->
      0 <= s <= EMOTION_CONFIRM_COUNT ->
      let h' := Nat.iter (Z.to_nat EMOTION_CONFIRM_COUNT) (update_counter "familiar") h in
      is_confirmed "familiar" h' = true /\ is_confirmed "stranger" h' = false) /\
  (forall label h key v,
      recognition_counters h !! key = Some v ->
      0 <= v ->
      recognition_counters (update_counter label h) !! key
      = Some (if bool_decide (key = label)
              then Z.min EMOTION_CONFIRM_COUNT (v + 1)
              else Z.max 0 (v - 1))) /\
  (forall h, reachable h ->
      ~ (is_confirmed "familiar" h = true /\ is_confirmed "stranger" h = true)).
Proof.
  split; [|split].
  - intros h f s Hf Hs Hfr Hsr h'. subst h'.
    unfold is_confirmed. rewrite !lookup_update_counter_iter, Hf, Hs.
    unfold EMOTION_CONFIRM_COUNT in *. simpl. unfold update_entry.
    rewrite !bool_decide_eq_true_2 by done.
    rewrite !bool_decide_eq_false_2 by done.
    unfold EMOTION_CONFIRM_COUNT.
    repeat match goal with |- context [0 <? ?x] => destruct (Z.ltb_spec 0 x) end;
      split; lia.
  - intros label h key v Hv Hpos.
    rewrite lookup_update_counter, Hv. simpl. f_equal.
    unfold update_entry. case_bool_decide; [done|].
    by apply decay_entry_floor.
  - apply reachable_not_both.
Qed.

Lemma familiar_confirmed_after_threshold_witness :
  let h := mk (<["stranger" := 2]> (<["familiar" := 1]> ∅)) None 0 false "" 0 in
  let h' := Nat.iter (Z.to_nat EMOTION_CONFIRM_COUNT) (update_counter "familiar") h in
  is_confirmed "familiar" h' = true /\ is_confirmed "stranger" h' = false.
Proof.
  apply (proj1 familiar_confirmed_after_threshold _ 1 2);
    [reflexivity | reflexivity | unfold EMOTION_CONFIRM_COUNT; lia
     | unfold EMOTION_CONFIRM_COUNT; lia].
Defined.

(** C6.  In every state met in operation the handler holds exactly the
    familiar and the stranger counter and each is an integer of
    [0, EMOTION_CONFIRM_COUNT]; [update_counter], [decay_counters],
    [reset_counters] and [on_face_lost], like every other method, keep
    the counters of any state within that interval. *)
Theorem counters_stay_in_range :
  (forall h, reachable h ->
      two_labels h /\ in_range h /\
      0 <= get_count "familiar" h <= EMOTION_CONFIRM_COUNT /\
      0 <= get_count "stranger" h <= EMOTION_CONFIRM_COUNT) /\
  (forall h, in_range h ->
      (forall label, in_range (update_counter label h)) /\
      in_range (decay_counters h) /\
      in_range (reset_counters h) /\
      in_range (on_face_lost h).2 /\
      (forall c, in_range (perform c h))).
Proof.
  split.
  - intros h Hh.
    pose proof (reachable_in_range h Hh) as Hr.
    pose proof (reachable_two_labels h Hh) as Ht.
    destruct (proj2 (Ht "familiar")) as [f Hf]; [by left|].
    destruct (proj2 (Ht "stranger")) as [s Hs]; [by right|].
    rewrite (get_count_lookup _ _ _ Hf), (get_count_lookup _ _ _ Hs).
    split; [exact Ht|]. split; [exact Hr|].
    split; [apply (Hr _ _ Hf) | apply (Hr _ _ Hs)].
  - intros h Hr.
    split; [intros label; by apply in_range_update_counter|].
    split; [by apply in_range_decay_counters|].
    split; [apply in_range_reset_counters|].
    split; [by apply in_range_on_face_lost|].
    intros c. by apply in_range_perform.
Qed.

Lemma counters_stay_in_range_witness :
  in_range (update_counter "stranger" (update_counter "familiar" init)).
Proof.
  destruct counters_stay_in_range as [Hreach Hstep].
  destruct (Hreach (update_counter "familiar" init)) as (_ & Hr & _).
  { exact (reachable_call (UpdateCounter "familiar") init reachable_init). }
  destruct (Hstep _ Hr) as (Hu & _). exact (Hu "stranger").
Defined.







(** Calling [update_counter] with a label that has no counter is calling
    [decay_counters]. *)
Lemma update_counter_unknown label h :
  recognition_counters h !! label = None -> update_counter label h = decay_counters h.
Proof.
  intros Hnone. unfold update_counter, decay_counters. f_equal.
  apply map_eq. intros key. rewrite map_lookup_imap, lookup_fmap.
  destruct (recognition_counters h !! key) as [v|] eqn:E; [|done].
  simpl. f_equal. apply update_entry_other. congruence.
Qed.

(** C10.  For a label other than "familiar" and "stranger": no state met
    in operation has a counter for it, and in every state without a
    counter for it, whatever the other counters hold,
    [update_counter(label)] does what [decay_counters] does: it adds no
    counter, raises none, and lowers every positive counter by 1;
    [get_count(label)] is 0 and [is_confirmed(label)] is false, before
    and after.  The three methods are total: they return in every
    state. *)
Theorem unknown_label_is_harmless (label : string) (h : t) :
  label <> "familiar" -> label <> "stranger" ->
  (reachable h -> recognition_counters h !! label = None) /\
  (recognition_counters h !! label = None ->
   update_counter label h = decay_counters h /\
   (forall key v,
      recognition_counters h !! key = Some v ->
      recognition_counters (update_counter label h) !! key
      = Some (if 0 <? v then v - 1 else v)) /\
   (forall key,
      recognition_counters h !! key = None ->
      recognition_counters (update_counter label h) !! key = None) /\
   (forall key,
      get_count key (update_counter label h)
      = if 0 <? get_count key h then get_count key h - 1 else get_count key h) /\
   get_count label h = 0 /\
   is_confirmed label h = false /\
   get_count label (update_counter label h) = 0 /\
   is_confirmed label (update_counter label h) = false).
Proof.
  intros Hf Hs. split.
  { intros Hh. destruct (recognition_counters h !! label) eqn:E; [|done].
    destruct (proj1 (reachable_two_labels h Hh label)); [by eexists| |]; congruence. }
  intros Hnone.
  assert (Hafter : recognition_counters (update_counter label h) !! label = None).
  { rewrite update_counter_unknown, lookup_decay_counters by done. by rewrite Hnone. }
  split; [by apply update_counter_unknown|].
  split; [|split; [|split; [|split; [|split; [|split]]]]].
  - intros key v Hv. rewrite update_counter_unknown, lookup_decay_counters by done.
    by rewrite Hv.
  - intros key Hk. rewrite update_counter_unknown, lookup_decay_counters by done.
    by rewrite Hk.
  - intros key. rewrite update_counter_unknown by done.
    apply get_count_decay_counters.
  - unfold get_count. by rewrite Hnone.
  - unfold is_confirmed. by rewrite Hnone.
  - unfold get_count. by rewrite Hafter.
  - unfold is_confirmed. by rewrite Hafter.
Qed.

Lemma unknown_label_is_harmless_witness :
  let h := update_counter "familiar" (update_counter "familiar" init) in
  recognition_counters h !! "familiar" = Some 2
  /\ recognition_counters (update_counter "nobody" h) !! "familiar" = Some 1
  /\ get_count "nobody" (update_counter "nobody" h) = 0.
Proof.
  intros h.
  destruct (unknown_label_is_harmless "nobody" h) as [Hnone Hrest];
    [discriminate | discriminate |].
  assert (Hh : reachable h).
  { exact (reachable_call (UpdateCounter "familiar") _
             (reachable_call (UpdateCounter "familiar") init reachable_init)). }
  destruct (Hrest (Hnone Hh)) as (_ & Hdec & _ & _ & _ & _ & Hcount & _).
  assert (H2 : recognition_counters h !! "familiar" = Some 2) by reflexivity.
  split; [exact H2|]. split; [exact (Hdec "familiar" 2 H2)|exact Hcount].
Defined.

End RecognitionHandlerFacts.


(** ** SearchController: the scripted sweep *)

Module SearchControllerFacts.
Import Config SearchController SearchControllerNotions.

(** Once the step is past 3, [advance_step] does nothing. *)
Lemma advance_step_complete s : is_search_complete s = true -> advance_step s = s.
Proof.
  unfold is_search_complete, advance_step. intros Hc.
  apply Z.gtb_lt in Hc.
  repeat match goal with
         | |- context [?x =? ?y] => destruct (Z.eqb_spec x y); [lia|]
         end.
  done.
Qed.

Lemma advance_steps_complete n s :
  is_search_complete s = true -> Nat.iter n advance_step s = s.
Proof.
  intros Hc. induction n as [|n IH]; [done|].
  rewrite Nat.iter_succ, IH. by apply advance_step_complete.
Qed.

(** C4.  With SEARCH_CYCLES = 4, the rounds of the search loop after
    [reset()] show step 0 with rotate_left, then four times step 1 with
    rotate_right followed by step 2 with rotate_left, then step 3 with
    rotate_right, then 'complete'; and [is_search_complete()] holds after
    [n] calls of [advance_step()] exactly when [n] is at least 10. *)
Theorem search_script (s : t) :
  SEARCH_CYCLES = 4 /\
  shown <$> scan 11 (reset s)
  = [(0, "rotate_left");
     (1, "rotate_right"); (2, "rotate_left");
     (1, "rotate_right"); (2, "rotate_left");
     (1, "rotate_right"); (2, "rotate_left");
     (1, "rotate_right"); (2, "rotate_left");
     (3, "rotate_right");
     (4, "complete")] /\
  (forall n : nat,
     is_search_complete (Nat.iter n advance_step (reset s)) = true <-> (10 <= n)%nat).
Proof.
  split; [done|]. split; [by vm_compute|].
  intros n. split.
  - intros Hc. destruct (le_lt_dec 10 n) as [|Hlt]; [done|].
    exfalso. revert Hc.
    do 10 (destruct n as [|n]; [by vm_compute|]). lia.
  - intros Hn. replace n with (n - 10 + 10)%nat by lia.
    rewrite Nat.iter_add. by rewrite advance_steps_complete.
Qed.

(** *** Face centering *)

Lemma center_x_value : (center_x == 320)%Q.
Proof. reflexivity. Qed.

Lemma tolerance_value : (tolerance == 102.4)%Q.
Proof. reflexivity. Qed.

Lemma within_iff (f : Face.face_rect) :
  within center_x tolerance f = true <-> (Qabs (face_center_x f - 320) <= 102.4)%Q.
Proof.
  unfold within, Py.le, Py.abs, offset_from.
  rewrite Qle_bool_iff, center_x_value, tolerance_value. reflexivity.
Qed.

(** Where the box holds whole pixels, as the detector's boxes do, the
    face centre lies on the half-pixel grid; no point of that grid lies
    further than 102 and within 102.4 of the frame centre. *)
Remark within_on_pixel_grid (x y w h : Z) (bound : Q) :
  (102 <= bound)%Q -> (bound < 102.5)%Q ->
  let f := Face.mk_face_rect (inject_Z x, inject_Z y, inject_Z w, inject_Z h) in
  within center_x tolerance f = true <-> (Qabs (face_center_x f - 320) <= bound)%Q.
Proof.
  intros Hlo Hhi f. rewrite within_iff.
  assert (Hgrid : (face_center_x f - 320 == (2 * x + w - 640) # 2)%Q).
  { unfold face_center_x, f, Face.box_x, Face.box_w. simpl.
    unfold Qeq, Qminus, Qplus, Qdiv, Qmult, Qinv, Qopp, inject_Z. simpl. lia. }
  rewrite Hgrid. simpl Qabs.
  set (k := Z.abs (2 * x + w - 640)).
  assert (Hk : 0 <= k) by (subst k; lia).
  clearbody k. clear Hgrid f.
  destruct bound as [bn bd].
  unfold Qle, Qlt in *. simpl in *. split; nia.
Qed.

End SearchControllerFacts.


(** ** ActionRecorder: recording and return to origin *)

Module ActionRecorderFacts.
Import Config ActionRecorder ActionRecorderNotions.

Lemma bind_run {A B : Type} (c : M A) (f : A -> M B) r w x r' w' :
  c r w = inr (x, r', w') -> (c ≫= f) r w = f x r' w'.
Proof. intros H. unfold mbind, M_bind. by rewrite H. Qed.

Lemma bind_raise {A B : Type} (c : M A) (f : A -> M B) r w e :
  c r w = inl e -> (c ≫= f) r w = inl e.
Proof. intros H. unfold mbind, M_bind. by rewrite H. Qed.

Lemma logged_nil w : logged [] w = w.
Proof. destruct w. unfold logged. simpl. by rewrite app_nil_r. Qed.

Lemma logged_logged es1 es2 w : logged es2 (logged es1 w) = logged (es1 ++ es2) w.
Proof. unfold logged. simpl. by rewrite app_assoc. Qed.

Lemma emits_ret : emits (mret tt) [].
Proof. intros r w. by rewrite logged_nil. Qed.

Lemma emits_emit e : emits (emit e) [e].
Proof. by intros r w. Qed.

Lemma emits_sleep d : emits (time_sleep d) [Env.Sleep d].
Proof. by intros r w. Qed.

Lemma emits_bind c1 c2 es1 es2 :
  emits c1 es1 -> emits c2 es2 -> emits (c1;; c2) (es1 ++ es2).
Proof.
  intros H1 H2 r w. rewrite (bind_run _ _ _ _ _ _ _ (H1 r w)).
  by rewrite H2, logged_logged.
Qed.

Lemma emits_emit_all es : emits (emit_all es) es.
Proof.
  induction es as [|e es IH]; [apply emits_ret|].
  apply (emits_bind _ _ [e] es); [apply emits_emit | exact IH].
Qed.

Lemma emits_for_range n body es :
  emits body es -> emits (for_range n body) (concat (replicate n es)).
Proof.
  intros Hb. induction n as [|n IH]; [apply emits_ret|].
  apply (emits_bind _ _ es _); [exact Hb | exact IH].
Qed.

Lemma get_next_return_action_at r w a :
  0 <= return_action_index r ->
  action_history r !! Z.to_nat (return_action_index r) = Some a ->
  get_next_return_action r w
  = inr (Some (shown_for (length (action_history r)) (return_action_index r) a), r, w).
Proof.
  intros Hi Ha. unfold get_next_return_action, mbind, M_bind, self.
  destruct (Z.ltb_spec (return_action_index r) 0); [lia|].
  by rewrite Ha.
Qed.

Lemma get_next_return_action_done r w :
  return_action_index r < 0 -> get_next_return_action r w = inr (None, r, w).
Proof.
  intros Hi. unfold get_next_return_action, mbind, M_bind, self.
  by destruct (Z.ltb_spec (return_action_index r) 0); [|lia].
Qed.

Lemma get_next_return_action_raises r w :
  0 <= return_action_index r ->
  action_history r !! Z.to_nat (return_action_index r) = None ->
  get_next_return_action r w = inl IndexError.
Proof.
  intros Hi Ha. unfold get_next_return_action, mbind, M_bind, self.
  destruct (Z.ltb_spec (return_action_index r) 0); [lia|].
  by rewrite Ha.
Qed.

Lemma emits_replay_rotate m info :
  emits (replay_rotate m info)
        (concat (replicate (Z.to_nat (Py.int (return_duration info / ROTATE_STEP_DURATION)))
                           (pulse m (return_direction info)))).
Proof.
  unfold replay_rotate. apply emits_for_range. unfold pulse.
  apply emits_bind.
  { case_bool_decide; apply emits_emit_all. }
  apply (emits_bind _ _ [_] _); [apply emits_sleep|].
  apply emits_bind; [apply emits_emit_all | apply emits_sleep].
Qed.

Lemma emits_replay_move m info :
  emits (replay_move m info)
        ((if bool_decide (return_direction info = "forward")
          then MotorController.forward None m
          else MotorController.backward None m)
         ++ [Env.Sleep (return_duration info)] ++ MotorController.stop m).
Proof.
  unfold replay_move. apply emits_bind.
  { case_bool_decide; apply emits_emit_all. }
  apply (emits_bind _ _ [_] _); [apply emits_sleep | apply emits_emit_all].
Qed.

(** A call of [execute_return_action] that finds an entry under the
    cursor replays it and moves the cursor down. *)
Lemma execute_return_action_at motor r w a :
  0 <= return_action_index r ->
  action_history r !! Z.to_nat (return_action_index r) = Some a ->
  execute_return_action motor r w
  = inr (false,
         set_return_action_index (return_action_index r - 1) r,
         logged (replay_events motor (type a) (get_reverse_direction (direction a))
                               (duration a) ++ [Env.Sleep 0.1]) w).
Proof.
  intros Hi Ha. unfold execute_return_action.
  rewrite (bind_run _ _ _ _ _ _ _ (get_next_return_action_at r w a Hi Ha)).
  set (info := shown_for _ _ a).
  assert (Hbranch : emits
            (match motor with
             | Some m =>
                 if negb (MotorController.enabled m) then time_sleep (return_duration info)
                 else if bool_decide (return_type info = "rotate") then replay_rotate m info
                 else if bool_decide (return_type info = "move") then replay_move m info
                 else mret tt
             | None => time_sleep (return_duration info)
             end)
            (replay_events motor (type a) (get_reverse_direction (direction a)) (duration a))).
  { unfold replay_events. destruct motor as [m|]; [|apply emits_sleep].
    destruct (MotorController.enabled m); cbn [negb]; [|apply emits_sleep].
    change (return_type info) with (type a).
    case_bool_decide; [apply (emits_replay_rotate m info)|].
    case_bool_decide; [apply (emits_replay_move m info) | apply emits_ret]. }
  rewrite (bind_run _ _ _ _ _ _ _ (Hbranch r w)).
  rewrite (bind_run _ _ _ _ _ _ _ (emits_sleep 0.1 r _)).
  by rewrite logged_logged.
Qed.

(** A call that finds the cursor below 0 ends the return. *)
Lemma execute_return_action_done motor r w :
  return_action_index r < 0 ->
  execute_return_action motor r w
  = inr (true, mk [] false (return_action_index r) None 0, w).
Proof.
  intros Hi. unfold execute_return_action.
  by rewrite (bind_run _ _ _ _ _ _ _ (get_next_return_action_done r w Hi)).
Qed.

(** A call that finds the cursor past the end of the history raises. *)
Lemma execute_return_action_raises motor r w :
  0 <= return_action_index r ->
  action_history r !! Z.to_nat (return_action_index r) = None ->
  execute_return_action motor r w = inl IndexError.
Proof.
  intros Hi Ha. unfold execute_return_action.
  by rewrite (bind_raise _ _ _ _ _ (get_next_return_action_raises r w Hi Ha)).
Qed.

(** *** Replaying to completion *)

(** With the cursor on entry [k - 1], [k + 1] calls end the return: the
    first [k] replay the entries [k - 1], ..., 0 in this order and the
    last one clears the recorder. *)
Lemma replay_from motor k : forall r w,
  (k <= length (action_history r))%nat ->
  return_action_index r = Z.of_nat k - 1 ->
  replay (S k) motor r w
  = inr (Some (rev (imap (fun i a => shown_for (length (action_history r)) (Z.of_nat i) a)
                         (take k (action_history r)))),
         mk [] false (-1) None 0,
         logged (flat_map
                   (fun a => replay_events motor (type a)
                               (get_reverse_direction (direction a)) (duration a)
                             ++ [Env.Sleep 0.1])
                   (rev (take k (action_history r)))) w).
Proof.
  induction k as [|k IH]; intros r w Hk Hi.
  - assert (Hneg : return_action_index r < 0) by lia.
    cbn [replay].
    rewrite (bind_run _ _ _ _ _ _ _ (get_next_return_action_done r w Hneg)).
    rewrite (bind_run _ _ _ _ _ _ _ (execute_return_action_done motor r w Hneg)).
    rewrite take_0. simpl. rewrite logged_nil.
    replace (return_action_index r) with (-1) by lia. done.
  - assert (Hpos : 0 <= return_action_index r) by lia.
    assert (Hidx : Z.to_nat (return_action_index r) = k) by lia.
    destruct (lookup_lt_is_Some_2 (action_history r) k) as [a Ha]; [lia|].
    assert (Ha' : action_history r !! Z.to_nat (return_action_index r) = Some a)
      by (by rewrite Hidx).
    change (replay (S (S k)) motor)
      with (shown ← get_next_return_action;
            done ← execute_return_action motor;
            if done : bool then mret (Some [])
            else
              rest ← replay (S k) motor;
              mret (match shown with
                    | Some info => cons info <$> rest
                    | None => rest
                    end)).
    rewrite (bind_run _ _ _ _ _ _ _ (get_next_return_action_at r w a Hpos Ha')).
    rewrite (bind_run _ _ _ _ _ _ _ (execute_return_action_at motor r w a Hpos Ha')).
    cbv beta iota.
    set (r1 := set_return_action_index _ r). set (w1 := logged _ w).
    rewrite (bind_run _ _ _ _ _ _ _ (IH r1 w1 ltac:(simpl; lia) ltac:(simpl; lia))).
    subst r1 w1. cbn [action_history set_return_action_index].
    rewrite logged_logged.
    rewrite (take_S_r _ _ _ Ha), imap_app, !rev_app_distr.
    cbn [imap rev app flat_map]. rewrite length_take_le by lia.
    rewrite Nat.add_0_r, Hi.
    replace (Z.of_nat (S k) - 1) with (Z.of_nat k) by lia.
    unfold mret, M_ret. cbn [fmap option_fmap option_map]. done.
Qed.

(** *** Recording *)

Lemma record_kept action_type direction d r w :
  is_returning r = false -> (0.05 <= d)%Q ->
  record action_type direction d r w
  = inr (tt,
         set_action_history
           (action_history r
              ++ [mk_action action_type direction d (Env.clock w (Env.reads w))]) r,
         Env.tick w).
Proof.
  intros Hr Hd. unfold record, mbind, M_bind, self. rewrite Hr.
  unfold Py.lt. apply Qle_bool_iff in Hd. by rewrite Hd.
Qed.

Lemma record_dropped action_type direction d r w :
  (d < 0.05)%Q -> record action_type direction d r w = inr (tt, r, w).
Proof.
  intros Hd. unfold record, mbind, M_bind, self.
  destruct (is_returning r); [done|].
  unfold Py.lt. destruct (Qle_bool 0.05 d) eqn:E; [|done].
  apply Qle_bool_iff in E. exfalso. apply (Qlt_not_le _ _ Hd E).
Qed.

Lemma record_while_returning action_type direction d r w :
  is_returning r = true -> record action_type direction d r w = inr (tt, r, w).
Proof. intros Hr. unfold record, mbind, M_bind, self. by rewrite Hr. Qed.

(** Recording a list of actions, each of at least 0.05 s, appends them
    in order. *)
Lemma record_all_kept acts : forall r w,
  is_returning r = false ->
  Forall (fun x => (0.05 <= x.2)%Q) acts ->
  exists h' w',
    record_all acts r w = inr (tt, set_action_history (action_history r ++ h') r, w')
    /\ plain <$> h' = acts
    /\ Env.log w' = Env.log w.
Proof.
  induction acts as [|[[ty dir] d] acts IH]; intros r w Hr Hall.
  - exists [], w. rewrite app_nil_r. by destruct r.
  - inversion Hall as [|? ? Hd Hrest]; subst. simpl in Hd.
    set (a := mk_action ty dir d (Env.clock w (Env.reads w))).
    destruct (IH (set_action_history (action_history r ++ [a]) r) (Env.tick w))
      as (h' & w' & Hrun & Hplain & Hlog); [done|done|].
    exists (a :: h'), w'. cbn [record_all].
    rewrite (bind_run _ _ _ _ _ _ _ (record_kept ty dir d r w Hr Hd)).
    fold a. rewrite Hrun. cbn [action_history set_action_history].
    rewrite <- app_assoc. cbn [app]. split; [by destruct r|].
    split; [|done]. cbn [fmap list_fmap]. fold (fmap plain h'). by rewrite Hplain.
Qed.

Lemma start_returning_idle r w :
  _current_action r = None -> action_history r <> [] ->
  start_returning r w
  = inr (true,
         set_return_action_index (Z.of_nat (length (action_history r)) - 1)
           (set_is_returning true r),
         w).
Proof.
  intros Hc Hh. unfold start_returning, stop_action, has_actions, mbind, M_bind, self.
  rewrite Hc. cbn.
  destruct (action_history r) as [|a h] eqn:E; [done|]. cbn [length].
  destruct (Z.gtb_spec (Z.of_nat (S (length h))) 0); [|lia].
  cbn. by rewrite E.
Qed.

Lemma start_returning_empty r w :
  _current_action r = None -> action_history r = [] ->
  start_returning r w = inr (false, r, w).
Proof.
  intros Hc Hh. unfold start_returning, stop_action, has_actions, mbind, M_bind, self.
  rewrite Hc. cbn. by rewrite Hh.
Qed.

Lemma get_reverse_direction_cases d :
  get_reverse_direction d
  = if bool_decide (d = "left") then "right"
    else if bool_decide (d = "right") then "left"
    else if bool_decide (d = "forward") then "backward"
    else if bool_decide (d = "backward") then "forward"
    else d.
Proof.
  unfold get_reverse_direction, reverse_map.
  rewrite !lookup_insert, lookup_empty.
  repeat case_bool_decide; repeat case_decide; subst; try done; congruence.
Qed.

(** *** The code on concrete inputs *)

Example get_reverse_direction_examples :
  get_reverse_direction "left" = "right"
  /\ get_reverse_direction "right" = "left"
  /\ get_reverse_direction "forward" = "backward"
  /\ get_reverse_direction "backward" = "forward"
  /\ get_reverse_direction "up" = "up".
Proof. repeat split; reflexivity. Qed.

Example int_examples :
  Py.int (0.2 / 0.15) = 1 /\ Py.int (0.1 / 0.15) = 0 /\ Py.int (-1.5) = -1.
Proof. repeat split; reflexivity. Qed.

(** A move started at clock reading 0 and stopped at reading 1 is kept
    with duration 1 and timestamp 2. *)
Example start_then_stop :
  (start_action "move" "forward";; stop_action) init still
  = inr (tt,
         mk [mk_action "move" "forward" (1 - 0) 2] false 0 None 0,
         Env.mk (Env.clock still) 3 (Env.camera still) 0 []).
Proof. reflexivity. Qed.

(** A recorded move replayed on an enabled motor. *)
Example move_replayed :
  exists r',
    (record "move" "forward" 2;; start_returning;;
     execute_return_action (Some live_motor)) init still
    = inr (false, r',
           Env.mk (Env.clock still) 1 (Env.camera still) 0
                  [Env.Backward 60; Env.Sleep 2; Env.Stop; Env.Sleep 0.1]).
Proof. eexists. reflexivity. Qed.

Lemma fmap_rev {A B : Type} (f : A -> B) (l : list A) :
  f <$> rev l = rev (f <$> l).
Proof.
  induction l as [|x l IH]; [done|].
  cbn [rev]. rewrite fmap_app, IH. done.
Qed.

Lemma flat_map_fmap {A B C : Type} (f : B -> list C) (g : A -> B) (l : list A) :
  flat_map f (g <$> l) = flat_map (fun x => f (g x)) l.
Proof. induction l as [|x l IH]; [done|]. simpl. f_equal. exact IH. Qed.

(** C1, as stated, fails when nothing was recorded: on a fresh recorder
    [start_returning] returns False and leaves the cursor at 0, and the
    first [execute_return_action] raises IndexError instead of reporting
    completion. *)
Lemma replay_of_nothing_raises :
  (record_all [];; start_returning) init still = inr (false, init, still) /\
  (record_all [];; start_returning;; execute_return_action None) init still
  = inl IndexError /\
  (forall fuel,
     (record_all [];; start_returning;; replay (S fuel) None) init still
     = inl IndexError).
Proof. split; [reflexivity|]. split; [reflexivity|]. intros fuel. reflexivity. Qed.

(** C1, amended.  For every sequence of N >= 1 recorded actions, each of
    at least 0.05 s, [start_returning()] followed by N + 1 calls of
    [execute_return_action] ends the return: the first N calls replay the
    N actions, last recorded first, each with its duration and with the
    reverse of its direction (left and right exchanged, forward and
    backward exchanged, any other value unchanged), and the last call
    reports completion; afterwards the history is empty and
    [is_returning] is false. *)
Theorem return_replays_in_reverse
    (acts : list (string * string * Q)) (motor : option MotorController.t) (w : Env.t) :
  acts <> [] ->
  Forall (fun x => (0.05 <= x.2)%Q) acts ->
  (forall d,
     get_reverse_direction d
     = if bool_decide (d = "left") then "right"
       else if bool_decide (d = "right") then "left"
       else if bool_decide (d = "forward") then "backward"
       else if bool_decide (d = "backward") then "forward"
       else d) /\
  exists infos r' w',
    (record_all acts;; start_returning;; replay (S (length acts)) motor) init w
    = inr (Some infos, r', w')
    /\ length infos = length acts
    /\ replayed <$> infos = rev acts
    /\ return_direction <$> infos = (fun x => get_reverse_direction x.1.2) <$> rev acts
    /\ Env.log w' = Env.log w ++ flat_map (undo_events motor) (rev acts)
    /\ action_history r' = []
    /\ is_returning r' = false.
Proof.
  intros Hne Hall. split; [apply get_reverse_direction_cases|].
  destruct (record_all_kept acts init w eq_refl Hall) as (h & w1 & Hrec & Hplain & Hlog).
  cbn [action_history init app] in Hrec.
  set (r1 := set_action_history h init) in *.
  assert (Hlen : length h = length acts) by (by rewrite <- Hplain, length_fmap).
  assert (Hh : action_history r1 <> []).
  { simpl. intros ->. by apply Hne. }
  set (r2 := set_return_action_index (Z.of_nat (length (action_history r1)) - 1)
               (set_is_returning true r1)).
  eexists _, _, _. split.
  { rewrite (bind_run _ _ _ _ _ _ _ Hrec).
    rewrite (bind_run _ _ _ _ _ _ _ (start_returning_idle r1 w1 eq_refl Hh)).
    fold r2. rewrite <- Hlen.
    apply (replay_from motor (length h) r2 w1); [done|done]. }
  cbn [action_history r2 r1 set_return_action_index set_is_returning set_action_history].
  rewrite firstn_all.
  split; [by rewrite length_rev, length_imap|].
  split.
  { rewrite fmap_rev, <- Hplain. f_equal.
    rewrite fmap_imap. exact (imap_const plain h). }
  split.
  { rewrite !fmap_rev, <- Hplain. f_equal.
    rewrite fmap_imap, <- list_fmap_compose.
    exact (imap_const (fun a => get_reverse_direction (direction a)) h). }
  split; [|done].
  cbn [Env.log logged]. rewrite Hlog. f_equal.
  by rewrite <- Hplain, <- fmap_rev, flat_map_fmap.
Qed.

Lemma return_replays_in_reverse_witness :
  exists infos r' w',
    (record_all [("move", "forward", 1.2%Q); ("rotate", "left", 0.3%Q)];;
     start_returning;; replay 3 None) init still
    = inr (Some infos, r', w')
    /\ length infos = 2%nat
    /\ replayed <$> infos = [("rotate", "left", 0.3%Q); ("move", "forward", 1.2%Q)]
    /\ return_direction <$> infos = ["right"; "backward"]
    /\ Env.log w' = [Env.Sleep 0.3; Env.Sleep 0.1; Env.Sleep 1.2; Env.Sleep 0.1]
    /\ action_history r' = []
    /\ is_returning r' = false.
Proof.
  apply (return_replays_in_reverse
           [("move", "forward", 1.2%Q); ("rotate", "left", 0.3%Q)] None still).
  - discriminate.
  - repeat constructor; simpl; unfold Qle; simpl; lia.
Defined.

(** *** Finalising the resident action *)

Lemma _finish_current_action_kept c r w :
  _current_action r = Some c -> (0.05 <= elapsed r w)%Q ->
  _finish_current_action r w
  = inr (tt,
         mk (action_history r ++ [finished c r w]) (is_returning r)
            (return_action_index r) None 0,
         Env.tick (Env.tick w)).
Proof.
  intros Hc Hd. unfold _finish_current_action, mbind, M_bind, self. rewrite Hc.
  unfold time_time at 1. cbv beta iota.
  fold (elapsed r w). unfold Py.ge. apply Qle_bool_iff in Hd. by rewrite Hd.
Qed.

Lemma _finish_current_action_dropped c r w :
  _current_action r = Some c -> (elapsed r w < 0.05)%Q ->
  _finish_current_action r w
  = inr (tt,
         mk (action_history r) (is_returning r) (return_action_index r) None 0,
         Env.tick w).
Proof.
  intros Hc Hd. unfold _finish_current_action, mbind, M_bind, self. rewrite Hc.
  unfold time_time at 1. cbv beta iota.
  fold (elapsed r w). unfold Py.ge.
  destruct (Qle_bool 0.05 (elapsed r w)) eqn:E; [|done].
  apply Qle_bool_iff in E. exfalso. apply (Qlt_not_le _ _ Hd E).
Qed.

Lemma _finish_current_action_none r w :
  _current_action r = None -> _finish_current_action r w = inr (tt, r, w).
Proof.
  intros Hc. unfold _finish_current_action, mbind, M_bind, self. by rewrite Hc.
Qed.

Lemma stop_action_some c r w :
  _current_action r = Some c -> stop_action r w = _finish_current_action r w.
Proof. intros Hc. unfold stop_action, mbind, M_bind, self. by rewrite Hc. Qed.

Lemma stop_action_none r w :
  _current_action r = None -> stop_action r w = inr (tt, r, w).
Proof. intros Hc. unfold stop_action, mbind, M_bind, self. by rewrite Hc. Qed.

Lemma start_action_some c action_type direction r w x r1 w1 :
  is_returning r = false -> _current_action r = Some c ->
  _finish_current_action r w = inr (x, r1, w1) ->
  start_action action_type direction r w
  = inr (tt,
         set_action_start_time (Env.clock w1 (Env.reads w1))
           (set_current_action (Some (mk_current action_type direction)) r1),
         Env.tick w1).
Proof.
  intros Hr Hc Hfin. unfold start_action, mbind, M_bind, self. rewrite Hr, Hc.
  cbv beta iota. by rewrite Hfin.
Qed.

Lemma start_action_none action_type direction r w :
  is_returning r = false -> _current_action r = None ->
  start_action action_type direction r w
  = inr (tt,
         set_action_start_time (Env.clock w (Env.reads w))
           (set_current_action (Some (mk_current action_type direction)) r),
         Env.tick w).
Proof.
  intros Hr Hc. unfold start_action, mbind, M_bind, self. by rewrite Hr, Hc.
Qed.

Lemma start_action_while_returning action_type direction r w :
  is_returning r = true -> start_action action_type direction r w = inr (tt, r, w).
Proof. intros Hr. unfold start_action, mbind, M_bind, self. by rewrite Hr. Qed.

(** C2.  In a recorder that is not returning and holds a resident
    unfinished action, [start_action(kind, direction)] returns after
    finalising the resident action first: its entry, with the elapsed
    time as duration, is appended to the history when the elapsed time is
    at least 0.05 s, and the history is left as it was otherwise; only
    then is the new action installed as the current one, with the next
    clock reading as its start time. *)
Theorem start_action_flushes_resident
    (action_type direction : string) (c : current) (r : t) (w : Env.t) :
  is_returning r = false ->
  _current_action r = Some c ->
  exists r' w',
    start_action action_type direction r w = inr (tt, r', w')
    /\ ((0.05 <= elapsed r w)%Q ->
        action_history r' = action_history r ++ [finished c r w]
        /\ _action_start_time r' = Env.clock w (S (S (Env.reads w))))
    /\ ((elapsed r w < 0.05)%Q ->
        action_history r' = action_history r
        /\ _action_start_time r' = Env.clock w (S (Env.reads w)))
    /\ _current_action r' = Some (mk_current action_type direction)
    /\ is_returning r' = false
    /\ return_action_index r' = return_action_index r
    /\ Env.log w' = Env.log w.
Proof.
  intros Hr Hc.
  destruct (Qlt_le_dec (elapsed r w) 0.05) as [Hd | Hd].
  - eexists _, _. split.
    { exact (start_action_some c _ _ r w _ _ _ Hr Hc
               (_finish_current_action_dropped c r w Hc Hd)). }
    cbn [action_history is_returning return_action_index _current_action
         _action_start_time set_action_start_time set_current_action
         Env.log Env.tick Env.reads Env.clock].
    rewrite Hr.
    split; [intros Hge; exfalso; apply (Qlt_not_le _ _ Hd Hge)|].
    split; [by intros _|]. done.
  - eexists _, _. split.
    { exact (start_action_some c _ _ r w _ _ _ Hr Hc
               (_finish_current_action_kept c r w Hc Hd)). }
    cbn [action_history is_returning return_action_index _current_action
         _action_start_time set_action_start_time set_current_action
         Env.log Env.tick Env.reads Env.clock].
    rewrite Hr.
    split; [by intros _|].
    split; [intros Hlt; exfalso; apply (Qlt_not_le _ _ Hlt Hd)|]. done.
Qed.

Lemma start_action_flushes_resident_witness :
  exists r' w',
    (start_action "move" "forward";; start_action "rotate" "left") init still
    = inr (tt, r', w')
    /\ action_history r' = [mk_action "move" "forward" 1 2]
    /\ _current_action r' = Some (mk_current "rotate" "left")
    /\ _action_start_time r' = 3%Q
    /\ is_returning r' = false.
Proof.
  destruct (start_action_flushes_resident "rotate" "left" (mk_current "move" "forward")
              (mk [] false 0 (Some (mk_current "move" "forward")) 0) (Env.tick still)
              eq_refl eq_refl)
    as (r' & w' & Hrun & Hkept & _ & Hcur & Hret & _).
  destruct Hkept as [Hhist Hstart]; [by vm_compute|].
  exists r', w'. split; [exact Hrun|]. split; [exact Hhist|].
  split; [exact Hcur|]. split; [exact Hstart|exact Hret].
Defined.

(** *** The 0.05 s floor of the history *)

Lemma keeps_ret {A : Type} (x : A) : keeps_meaningful (mret x).
Proof. intros r w y r' w' [= _ <- _]. done. Qed.

Lemma keeps_bind {A B : Type} (c : M A) (f : A -> M B) :
  keeps_meaningful c -> (forall x, keeps_meaningful (f x)) -> keeps_meaningful (c ≫= f).
Proof.
  intros Hc Hf r w y r' w' Hrun Hall. unfold mbind, M_bind in Hrun.
  destruct (c r w) as [e | [[x r1] w1]] eqn:E; [discriminate|].
  exact (Hf x r1 w1 y r' w' Hrun (Hc r w x r1 w1 E Hall)).
Qed.

Lemma keeps_self : keeps_meaningful self.
Proof. intros r w y r' w' [= _ <- _]. done. Qed.

Lemma keeps_time_time : keeps_meaningful time_time.
Proof. intros r w y r' w' [= _ <- _]. done. Qed.

Lemma keeps_emit e : keeps_meaningful (emit e).
Proof. intros r w y r' w' [= _ <- _]. done. Qed.

Lemma keeps_raise {A : Type} e : keeps_meaningful (raise (A := A) e).
Proof. intros r w y r' w' [=]. Qed.

Lemma keeps_update f :
  (forall r, all_meaningful r -> all_meaningful (f r)) -> keeps_meaningful (update f).
Proof. intros Hf r w y r' w' [= _ <- _]. apply Hf. Qed.

Lemma keeps_emits c es : emits c es -> keeps_meaningful c.
Proof. intros Hc r w y r' w'. rewrite Hc. by intros [= _ <- _]. Qed.

Create HintDb keeps.

#[local] Hint Resolve keeps_ret keeps_self keeps_time_time keeps_emit keeps_raise : keeps.

Lemma keeps_append action_type direction d stamp :
  (0.05 <= d)%Q ->
  keeps_meaningful
    (update (fun r =>
       set_action_history
         (action_history r ++ [mk_action action_type direction d stamp]) r)).
Proof.
  intros Hd. apply keeps_update. intros r Hall. unfold all_meaningful in *. simpl.
  apply Forall_app. split; [done|]. by constructor.
Qed.

Lemma keeps__finish_current_action : keeps_meaningful _finish_current_action.
Proof.
  unfold _finish_current_action. apply keeps_bind; [auto with keeps|]. intros r.
  destruct (_current_action r) as [c|]; [|auto with keeps].
  apply keeps_bind; [auto with keeps|]. intros now.
  apply keeps_bind; [|intros _; apply keeps_bind; intros; by apply keeps_update].
  unfold Py.ge. destruct (Qle_bool 0.05 _) eqn:E; [|auto with keeps].
  apply Qle_bool_iff in E.
  apply keeps_bind; [auto with keeps|]. intros stamp. by apply keeps_append.
Qed.

Lemma keeps_stop_action : keeps_meaningful stop_action.
Proof.
  unfold stop_action. apply keeps_bind; [auto with keeps|]. intros r.
  destruct (_current_action r); [apply keeps__finish_current_action | auto with keeps].
Qed.

Lemma keeps_start_action action_type direction :
  keeps_meaningful (start_action action_type direction).
Proof.
  unfold start_action. apply keeps_bind; [auto with keeps|]. intros r.
  destruct (is_returning r); [auto with keeps|].
  apply keeps_bind.
  { destruct (_current_action r); [apply keeps__finish_current_action | auto with keeps]. }
  intros _. apply keeps_bind; [by apply keeps_update|].
  intros _. apply keeps_bind; [auto with keeps|]. intros now. by apply keeps_update.
Qed.

Lemma keeps_record action_type direction d :
  keeps_meaningful (record action_type direction d).
Proof.
  unfold record. apply keeps_bind; [auto with keeps|]. intros r.
  destruct (is_returning r); [auto with keeps|].
  unfold Py.lt. destruct (Qle_bool 0.05 d) eqn:E; cbn [negb]; [|auto with keeps].
  apply Qle_bool_iff in E.
  apply keeps_bind; [auto with keeps|]. intros stamp. by apply keeps_append.
Qed.

Lemma keeps_clear : keeps_meaningful clear.
Proof.
  unfold clear. apply keeps_bind.
  { apply keeps_update. intros r _. constructor. }
  intros _. apply keeps_bind; intros; by apply keeps_update.
Qed.

Lemma keeps_start_returning : keeps_meaningful start_returning.
Proof.
  unfold start_returning, has_actions.
  apply keeps_bind; [apply keeps_stop_action|]. intros _.
  apply keeps_bind; [apply keeps_bind; auto with keeps|]. intros some.
  destruct some; cbn [negb]; [|auto with keeps].
  apply keeps_bind; [auto with keeps|]. intros r.
  apply keeps_bind; [by apply keeps_update|]. intros _.
  apply keeps_bind; [by apply keeps_update|]. auto with keeps.
Qed.

Lemma keeps_advance_return_index : keeps_meaningful advance_return_index.
Proof. by apply keeps_update. Qed.

Lemma keeps_finish_returning : keeps_meaningful finish_returning.
Proof.
  unfold finish_returning. apply keeps_bind; [by apply keeps_update|].
  intros _. apply keeps_clear.
Qed.

Lemma keeps_get_next_return_action : keeps_meaningful get_next_return_action.
Proof.
  unfold get_next_return_action. apply keeps_bind; [auto with keeps|]. intros r.
  destruct (_ <? 0); [auto with keeps|].
  destruct (_ !! _); auto with keeps.
Qed.

Lemma keeps_execute_return_action motor : keeps_meaningful (execute_return_action motor).
Proof.
  unfold execute_return_action.
  apply keeps_bind; [apply keeps_get_next_return_action|]. intros [info|].
  - apply keeps_bind.
    { destruct motor as [m|]; [|apply keeps_emit].
      destruct (negb _); [apply keeps_emit|].
      case_bool_decide; [apply (keeps_emits _ _ (emits_replay_rotate m info))|].
      case_bool_decide; [apply (keeps_emits _ _ (emits_replay_move m info))|].
      auto with keeps. }
    intros _. apply keeps_bind; [apply keeps_emit|].
    intros _. apply keeps_bind; [apply keeps_advance_return_index | auto with keeps].
  - apply keeps_bind; [apply keeps_finish_returning | auto with keeps].
Qed.

Lemma keeps_perform c : keeps_meaningful (perform c).
Proof.
  destruct c; cbn [perform];
    auto using keeps_start_action, keeps_stop_action, keeps_record, keeps_clear,
               keeps_advance_return_index, keeps_finish_returning.
  - apply keeps_bind; [apply keeps_start_returning | auto with keeps].
  - apply keeps_bind; [apply keeps_execute_return_action | auto with keeps].
Qed.

Lemma reachable_all_meaningful r w : reachable r w -> all_meaningful r.
Proof.
  induction 1 as [w | c r w x r' w' _ IH Hrun]; [constructor|].
  exact (keeps_perform c r w x r' w' Hrun IH).
Qed.

(** C3.  An action shorter than 0.05 s leaves the history as it was, and
    so its length, on the direct path ([record]) and on the finalising
    path ([stop_action], and the finalisation inside [start_action]);
    and in every state a recorder can be in, no entry of the history has
    a duration below 0.05 s. *)
Theorem short_actions_never_recorded :
  (forall action_type direction d r w,
     (d < 0.05)%Q ->
     record action_type direction d r w = inr (tt, r, w)) /\
  (forall c r w,
     _current_action r = Some c -> (elapsed r w < 0.05)%Q ->
     exists r' w',
       stop_action r w = inr (tt, r', w')
       /\ action_history r' = action_history r
       /\ length (action_history r') = length (action_history r)
       /\ _current_action r' = None) /\
  (forall action_type direction c r w,
     is_returning r = false ->
     _current_action r = Some c -> (elapsed r w < 0.05)%Q ->
     exists r' w',
       start_action action_type direction r w = inr (tt, r', w')
       /\ action_history r' = action_history r
       /\ length (action_history r') = length (action_history r)) /\
  (forall r w,
     reachable r w ->
     Forall (fun a => (0.05 <= duration a)%Q) (action_history r)
     /\ ~ Exists (fun a => (duration a < 0.05)%Q) (action_history r)).
Proof.
  split; [intros; by apply record_dropped|].
  split; [|split].
  - intros c r w Hc Hd. eexists _, _. split.
    { rewrite (stop_action_some c r w Hc).
      apply (_finish_current_action_dropped c r w Hc Hd). }
    done.
  - intros action_type direction c r w Hr Hc Hd. eexists _, _. split.
    { exact (start_action_some c _ _ r w _ _ _ Hr Hc
               (_finish_current_action_dropped c r w Hc Hd)). }
    done.
  - intros r w Hreach. pose proof (reachable_all_meaningful r w Hreach) as Hall.
    split; [exact Hall|].
    intros Hex. apply Exists_exists in Hex as (a & Hin & Hlt).
    unfold all_meaningful in Hall. rewrite Forall_forall in Hall.
    exact (Qlt_not_le _ _ Hlt (Hall a Hin)).
Qed.

Lemma short_actions_never_recorded_witness :
  record "rotate" "left" 0.04 init still = inr (tt, init, still)
  /\ exists r' w',
       stop_action (mk [] false 0 (Some (mk_current "move" "forward")) (-0.01)) still
       = inr (tt, r', w')
       /\ action_history r' = [].
Proof.
  destruct short_actions_never_recorded as (Hrecord & Hstop & _ & _).
  split.
  - apply Hrecord. unfold Qlt. simpl. lia.
  - destruct (Hstop (mk_current "move" "forward")
                (mk [] false 0 (Some (mk_current "move" "forward")) (-0.01)) still)
      as (r' & w' & Hrun & Hh & _); [reflexivity | unfold Qlt; simpl; lia |].
    by exists r', w'.
Defined.

(** *** The physical shape of a replay *)

(** [int] of a non-negative float is its floor. *)
Lemma int_floor (x : Q) : (0 <= x)%Q -> Py.int x = Qfloor x.
Proof.
  destruct x as [n d]. unfold Qle, Py.int, Qfloor. simpl. intros Hn.
  apply Z.quot_div_nonneg; lia.
Qed.

(** The whole steps in a duration: their pulses fit in the duration and
    one more would not. *)
Lemma whole_steps (d : Q) :
  (0 <= d)%Q ->
  let steps := Z.to_nat (Py.int (d / ROTATE_STEP_DURATION)) in
  (inject_Z (Z.of_nat steps) * ROTATE_STEP_DURATION <= d)%Q
  /\ (d < (inject_Z (Z.of_nat steps) + 1) * ROTATE_STEP_DURATION)%Q.
Proof.
  intros Hd steps. unfold ROTATE_STEP_DURATION in *.
  set (q := (d / 0.15)%Q) in *.
  assert (Hq : (0 <= q)%Q).
  { subst q. unfold Qdiv. apply Qmult_le_0_compat; [done|]. by unfold Qle. }
  assert (Hdq : (d == q * 0.15)%Q) by (subst q; field).
  assert (Hsteps : Z.of_nat steps = Qfloor q).
  { subst steps. rewrite int_floor by done.
    apply Z2Nat.id. change 0 with (Qfloor 0). by apply Qfloor_resp_le. }
  rewrite Hsteps.
  pose proof (Qfloor_le q) as Hlo. pose proof (Qlt_floor q) as Hhi.
  rewrite inject_Z_plus in Hhi. change (inject_Z 1) with 1%Q in Hhi.
  clear Hsteps. clearbody q. split; lra.
Qed.

Lemma motor_on_time_step_pulse turn rest :
  (turn = Env.TurnLeft SEARCH_ROTATE_SPEED \/ turn = Env.TurnRight SEARCH_ROTATE_SPEED) ->
  (motor_on_time false (step_pulse turn ++ rest)
   == ROTATE_STEP_DURATION + motor_on_time false rest)%Q.
Proof. intros [-> | ->]; simpl; lra. Qed.

Lemma motor_on_time_step_pulses turn n :
  (turn = Env.TurnLeft SEARCH_ROTATE_SPEED \/ turn = Env.TurnRight SEARCH_ROTATE_SPEED) ->
  (motor_on_time false (concat (replicate n (step_pulse turn)) ++ [Env.Sleep 0.1])
   == inject_Z (Z.of_nat n) * ROTATE_STEP_DURATION)%Q.
Proof.
  intros Hturn. induction n as [|n IH].
  - by vm_compute.
  - cbn [replicate concat]. rewrite <- app_assoc.
    rewrite (motor_on_time_step_pulse turn _ Hturn), IH.
    rewrite Nat2Z.inj_succ. unfold Z.succ. rewrite inject_Z_plus.
    change (inject_Z 1) with 1%Q. lra.
Qed.

(** C9, as stated, fails: a recorded rotation of 0.2 s is replayed as a
    single step pulse, so the motor turns for 0.15 s, not for 0.2 s. *)
Lemma rotation_replay_falls_short :
  exists r' w',
    (record "rotate" "left" 0.2;; start_returning;;
     execute_return_action (Some live_motor)) init still
    = inr (false, r', w')
    /\ Env.log w'
       = [Env.TurnRight 36; Env.Sleep 0.15; Env.Stop; Env.Sleep 0.08; Env.Sleep 0.1]
    /\ (motor_on_time false (Env.log w') == 0.15)%Q
    /\ ~ (motor_on_time false (Env.log w') == 0.2)%Q.
Proof.
  eexists _, _. split; [reflexivity|]. split; [reflexivity|].
  split; [reflexivity|]. discriminate.
Qed.

(** C9, amended.  On an enabled motor [execute_return_action] replays a
    recorded rotate action of duration d as [int(d / step_duration)] step
    pulses, each a rotation command, [step_duration] of sleep, a stop and
    [pause_duration] of sleep; the rotation pulses total [step_duration]
    times that number, which is at most d and falls short of d by less
    than one [step_duration].  It replays a recorded move action as one
    motion command, a sleep of exactly d and a stop. *)
Theorem replay_pulses_and_moves
    (m : MotorController.t) (a : action) (r : t) (w : Env.t) :
  MotorController.enabled m = true ->
  0 <= return_action_index r ->
  action_history r !! Z.to_nat (return_action_index r) = Some a ->
  (0.05 <= duration a)%Q ->
  let back := get_reverse_direction (direction a) in
  let steps := Z.to_nat (Py.int (duration a / ROTATE_STEP_DURATION)) in
  let turn := if bool_decide (back = "left")
              then Env.TurnLeft SEARCH_ROTATE_SPEED
              else Env.TurnRight SEARCH_ROTATE_SPEED in
  let go := if bool_decide (back = "forward")
            then Env.Forward (MotorController.default_speed m)
            else Env.Backward (MotorController.default_speed m) in
  let r' := set_return_action_index (return_action_index r - 1) r in
  (type a = "rotate" ->
     let events := concat (replicate steps (step_pulse turn)) ++ [Env.Sleep 0.1] in
     execute_return_action (Some m) r w = inr (false, r', logged events w)
     /\ (motor_on_time false events
         == inject_Z (Z.of_nat steps) * ROTATE_STEP_DURATION)%Q
     /\ (inject_Z (Z.of_nat steps) * ROTATE_STEP_DURATION <= duration a)%Q
     /\ (duration a < (inject_Z (Z.of_nat steps) + 1) * ROTATE_STEP_DURATION)%Q) /\
  (type a = "move" ->
     let events := [go; Env.Sleep (duration a); Env.Stop; Env.Sleep 0.1] in
     execute_return_action (Some m) r w = inr (false, r', logged events w)
     /\ (motor_on_time false events == duration a)%Q).
Proof.
  intros Hm Hi Ha Hd back steps turn go r'.
  pose proof (execute_return_action_at (Some m) r w a Hi Ha) as Hrun.
  fold back r' in Hrun. unfold replay_events in Hrun. rewrite Hm in Hrun.
  cbn [negb] in Hrun.
  assert (Hturn : turn = Env.TurnLeft SEARCH_ROTATE_SPEED
                  \/ turn = Env.TurnRight SEARCH_ROTATE_SPEED).
  { unfold turn. destruct (bool_decide (back = "left")); [by left | by right]. }
  assert (Hpulse : pulse m back = step_pulse turn).
  { unfold pulse, step_pulse, turn, MotorController.turn_left,
      MotorController.turn_right, MotorController.stop.
    rewrite Hm. by destruct (bool_decide (back = "left")). }
  assert (Hgo : (if bool_decide (back = "forward")
                 then MotorController.forward None m
                 else MotorController.backward None m)
                ++ [Env.Sleep (duration a)] ++ MotorController.stop m
                = [go; Env.Sleep (duration a); Env.Stop]).
  { unfold go, MotorController.forward, MotorController.backward, MotorController.stop.
    rewrite Hm. by destruct (bool_decide (back = "forward")). }
  rewrite Hpulse, Hgo in Hrun.
  split.
  - intros Hty events. rewrite Hty in Hrun.
    rewrite bool_decide_eq_true_2 in Hrun by done.
    split; [exact Hrun|].
    split; [apply (motor_on_time_step_pulses turn steps Hturn)|].
    apply whole_steps. apply (Qle_trans _ 0.05); [by unfold Qle | done].
  - intros Hty events. rewrite Hty in Hrun.
    rewrite (bool_decide_eq_false_2 ("move" = "rotate")) in Hrun by done.
    rewrite bool_decide_eq_true_2 in Hrun by done.
    split; [exact Hrun|].
    unfold events, go. destruct (bool_decide (back = "forward")); simpl; lra.
Qed.

Lemma replay_pulses_and_moves_witness :
  execute_return_action (Some live_motor)
    (mk [mk_action "rotate" "left" 0.5 7] true 0 None 0) still
  = inr (false,
         mk [mk_action "rotate" "left" 0.5 7] true (-1) None 0,
         logged [Env.TurnRight 36; Env.Sleep 0.15; Env.Stop; Env.Sleep 0.08;
                 Env.TurnRight 36; Env.Sleep 0.15; Env.Stop; Env.Sleep 0.08;
                 Env.TurnRight 36; Env.Sleep 0.15; Env.Stop; Env.Sleep 0.08;
                 Env.Sleep 0.1] still).
Proof.
  destruct (replay_pulses_and_moves live_motor (mk_action "rotate" "left" 0.5 7)
              (mk [mk_action "rotate" "left" 0.5 7] true 0 None 0) still)
    as ((Hrun & _) & _);
    [reflexivity | simpl; lia | reflexivity | unfold Qle; simpl; lia | reflexivity |].
  exact Hrun.
Defined.

End ActionRecorderFacts.


(** ** ActionRecorder: further properties of the code *)

Module ActionRecorderExtra.
Import Config ActionRecorder ActionRecorderNotions ActionRecorderFacts.

(** Running a method other than [execute_return_action] on a recorder
    given by its fields. *)
Ltac run_call :=
  unfold perform, start_returning, finish_returning, start_action, stop_action,
    _finish_current_action, record, clear, has_actions, advance_return_index,
    mbind, M_bind, mret, M_ret, self, update, time_time;
  cbn -[Py.ge Py.lt Qminus Z.gtb Z.of_nat Z.sub].

Ltac split_ifs :=
  repeat match goal with
         | |- context [if ?b then _ else _] => destruct b eqn:?
         end.

(** The three ways a call of [execute_return_action] can go. *)
Lemma execute_return_action_cases motor r w :
  (return_action_index r < 0
   /\ execute_return_action motor r w
      = inr (true, mk [] false (return_action_index r) None 0, w))
  \/ (exists a,
        0 <= return_action_index r
        /\ action_history r !! Z.to_nat (return_action_index r) = Some a
        /\ execute_return_action motor r w
           = inr (false,
                  set_return_action_index (return_action_index r - 1) r,
                  logged (replay_events motor (type a)
                            (get_reverse_direction (direction a)) (duration a)
                          ++ [Env.Sleep 0.1]) w))
  \/ (0 <= return_action_index r
      /\ action_history r !! Z.to_nat (return_action_index r) = None
      /\ execute_return_action motor r w = inl IndexError).
Proof.
  destruct (Z.lt_ge_cases (return_action_index r) 0) as [Hneg | Hpos].
  - left. split; [done|]. by apply execute_return_action_done.
  - right.
    destruct (action_history r !! Z.to_nat (return_action_index r)) as [a|] eqn:Ha.
    + left. exists a. split; [done|]. split; [done|].
      by apply execute_return_action_at.
    + right. split; [done|]. split; [done|]. by apply execute_return_action_raises.
Qed.

(** X1.  Reversing a direction twice gives the direction back. *)
Theorem get_reverse_direction_involutive (d : string) :
  get_reverse_direction (get_reverse_direction d) = d.
Proof.
  rewrite (get_reverse_direction_cases d).
  repeat case_bool_decide; subst; try reflexivity.
  rewrite get_reverse_direction_cases.
  by rewrite !bool_decide_eq_false_2.
Qed.

(** *** While returning *)






(** X5.  The history is append-only: a call of any method, in any state,
    leaves the history as it was, or appends one entry of at least
    0.05 s to it, or empties it. *)
Theorem history_append_only
    (c : call) (r : t) (w : Env.t) (x : unit) (r' : t) (w' : Env.t) :
  perform c r w = inr (x, r', w') ->
  action_history r' = action_history r
  \/ (exists a, action_history r' = action_history r ++ [a]
                /\ (0.05 <= duration a)%Q)
  \/ action_history r' = [].
Proof.
  destruct c.
  1-7: destruct r as [h b i [cur|] st]; destruct b; run_call; split_ifs;
       intros [= _ <- _]; cbn -[Qminus]; auto;
       right; left; eexists; (split; [reflexivity|]); cbn -[Qminus];
       by apply Qle_bool_iff;
       match goal with
       | H : Py.ge _ _ = true |- _ => exact H
       | H : Py.lt ?d _ = false |- _ =>
           unfold Py.lt in H; by destruct (Qle_bool 0.05 d)
       end.
  cbn [perform].
  destruct (execute_return_action_cases motor r w)
    as [[_ Hrun] | [(a & _ & _ & Hrun) | (_ & _ & Hrun)]];
    unfold mbind, M_bind; rewrite Hrun; intros [= _ <- _]; cbn; auto.
Qed.

Lemma history_append_only_witness :
  let r' := mk [mk_action "rotate" "left" 1 0] false 0 None 0 in
  action_history r' = action_history init
  \/ (exists a, action_history r' = action_history init ++ [a]
                /\ (0.05 <= duration a)%Q)
  \/ action_history r' = [].
Proof.
  intros r'.
  apply (history_append_only (Record_ "rotate" "left" 1) init still tt r' (Env.tick still)).
  reflexivity.
Defined.

(** *** Recording an action from start to stop *)

(** X6.  On an idle recorder that is not returning, [start_action]
    followed by [stop_action] appends one entry with the given kind and
    direction and the time between the two clock readings as duration
    when that time is at least 0.05 s, appends nothing otherwise, and
    leaves no resident action either way. *)
Theorem start_then_stop_records
    (action_type direction : string) (r : t) (w : Env.t) :
  is_returning r = false ->
  _current_action r = None ->
  let t0 := Env.clock w (Env.reads w) in
  let t1 := Env.clock w (S (Env.reads w)) in
  let t2 := Env.clock w (S (S (Env.reads w))) in
  exists r' w',
    (start_action action_type direction;; stop_action) r w = inr (tt, r', w')
    /\ _current_action r' = None
    /\ is_returning r' = false
    /\ ((0.05 <= t1 - t0)%Q ->
        action_history r'
        = action_history r ++ [mk_action action_type direction (t1 - t0) t2])
    /\ ((t1 - t0 < 0.05)%Q -> action_history r' = action_history r).
Proof.
  intros Hret Hcur t0 t1 t2.
  pose proof (start_action_none action_type direction r w Hret Hcur) as Hstart.
  set (r1 := set_action_start_time _ _) in Hstart.
  set (c := mk_current action_type direction).
  assert (Hc1 : _current_action r1 = Some c) by done.
  assert (Hel : elapsed r1 (Env.tick w) = (t1 - t0)%Q) by done.
  destruct (Qlt_le_dec (t1 - t0) 0.05) as [Hd | Hd].
  - eexists _, _. split.
    { rewrite (bind_run _ _ _ _ _ _ _ Hstart), (stop_action_some c r1 _ Hc1).
      apply (_finish_current_action_dropped c r1 _ Hc1). by rewrite Hel. }
    cbn [action_history is_returning _current_action r1 set_action_start_time
           set_current_action].
    split; [done|]. split; [done|]. split; [|done].
    intros Hge. exfalso. apply (Qlt_not_le _ _ Hd Hge).
  - eexists _, _. split.
    { rewrite (bind_run _ _ _ _ _ _ _ Hstart), (stop_action_some c r1 _ Hc1).
      apply (_finish_current_action_kept c r1 _ Hc1). by rewrite Hel. }
    cbn [action_history is_returning _current_action r1 set_action_start_time
           set_current_action].
    split; [done|]. split; [done|]. split; [done|].
    intros Hlt. exfalso. apply (Qlt_not_le _ _ Hlt Hd).
Qed.

Lemma start_then_stop_records_witness :
  exists r' w',
    (start_action "move" "forward";; stop_action) init still = inr (tt, r', w')
    /\ _current_action r' = None
    /\ is_returning r' = false.
Proof.
  destruct (start_then_stop_records "move" "forward" init still eq_refl eq_refl)
    as (r' & w' & Hrun & Hcur & Hret & _).
  by exists r', w'.
Defined.

(** X7.  [start_returning] finalises a resident action before it looks
    at the history.  If the resident action has lasted at least 0.05 s
    it becomes the last entry, the call returns True and the cursor is
    placed on that entry, even when the history was empty.  If it has
    lasted less and the history is empty, the action is dropped and the
    call returns False without entering the return. *)
Theorem start_returning_finalises_resident (c : current) (r : t) (w : Env.t) :
  _current_action r = Some c ->
  ((0.05 <= elapsed r w)%Q ->
   start_returning r w
   = inr (true,
          mk (action_history r ++ [finished c r w]) true
             (Z.of_nat (length (action_history r))) None 0,
          Env.tick (Env.tick w)))
  /\ ((elapsed r w < 0.05)%Q -> action_history r = [] ->
      start_returning r w
      = inr (false, mk [] (is_returning r) (return_action_index r) None 0, Env.tick w)).
Proof.
  intros Hc. split.
  - intros Hd. unfold start_returning.
    rewrite (bind_run _ _ _ _ _ _ _
               (eq_trans (stop_action_some c r w Hc)
                         (_finish_current_action_kept c r w Hc Hd))).
    unfold has_actions, mbind, M_bind, self, mret, M_ret, update.
    cbn -[Z.gtb Z.of_nat Z.sub]. rewrite length_app. cbn [length].
    destruct (Z.gtb_spec (Z.of_nat (length (action_history r) + 1)) 0); [|lia].
    cbn [negb]. unfold set_return_action_index, set_is_returning.
    cbn -[Z.of_nat Z.sub]. rewrite ?length_app. cbn [length].
    replace (Z.of_nat (length (action_history r) + 1) - 1)
      with (Z.of_nat (length (action_history r))) by lia.
    done.
  - intros Hd Hh. unfold start_returning.
    rewrite (bind_run _ _ _ _ _ _ _
               (eq_trans (stop_action_some c r w Hc)
                         (_finish_current_action_dropped c r w Hc Hd))).
    unfold has_actions, mbind, M_bind, self, mret, M_ret.
    cbn. by rewrite Hh.
Qed.

Lemma start_returning_finalises_resident_witness :
  start_returning (mk [] false 0 (Some (mk_current "move" "forward")) (-2)) still
  = inr (true,
         mk [mk_action "move" "forward" (0 - -2) 1] true 0 None 0,
         Env.tick (Env.tick still)).
Proof.
  destruct (start_returning_finalises_resident (mk_current "move" "forward")
              (mk [] false 0 (Some (mk_current "move" "forward")) (-2)) still eq_refl)
    as [Hkept _].
  apply Hkept. unfold Qle. simpl. lia.
Defined.

(** *** What a replay sends to the motor *)

(** Where nothing is sent to the motor, a replay is at most one sleep. *)
Lemma replay_events_idle motor a :
  (motor = None
   \/ (exists m, motor = Some m /\ MotorController.enabled m = false)
   \/ (type a <> "rotate" /\ type a <> "move")) ->
  replay_events motor (type a) (get_reverse_direction (direction a)) (duration a)
  = match motor with
    | Some m => if MotorController.enabled m then [] else [Env.Sleep (duration a)]
    | None => [Env.Sleep (duration a)]
    end.
Proof.
  unfold replay_events. intros [-> | [(m & -> & ->) | [Hr Hm]]]; [done|done|].
  destruct motor as [m|]; [|done]. destruct (MotorController.enabled m); [|done].
  cbn [negb]. by rewrite !bool_decide_eq_false_2.
Qed.

(** X8.  A replayed entry reaches the motor only when a motor is present
    and enabled and the entry is a rotate or a move.  Without a motor, or
    with a disabled one, [execute_return_action] only sleeps for the
    recorded duration and for the 0.1 s of stabilisation; an entry of
    any other kind on an enabled motor only costs the 0.1 s.  The cursor
    moves down by one in every case. *)
Theorem replay_without_motion
    (motor : option MotorController.t) (a : action) (r : t) (w : Env.t) :
  0 <= return_action_index r ->
  action_history r !! Z.to_nat (return_action_index r) = Some a ->
  ((motor = None \/ exists m, motor = Some m /\ MotorController.enabled m = false) ->
   execute_return_action motor r w
   = inr (false,
          set_return_action_index (return_action_index r - 1) r,
          logged [Env.Sleep (duration a); Env.Sleep 0.1] w))
  /\ (forall m,
        motor = Some m -> MotorController.enabled m = true ->
        type a <> "rotate" -> type a <> "move" ->
        execute_return_action motor r w
        = inr (false,
               set_return_action_index (return_action_index r - 1) r,
               logged [Env.Sleep 0.1] w)).
Proof.
  intros Hi Ha. rewrite (execute_return_action_at motor r w a Hi Ha). split.
  - intros Hno. rewrite replay_events_idle by tauto.
    by destruct Hno as [-> | (m & -> & ->)].
  - intros m -> Hm Hr Hv. rewrite replay_events_idle by tauto. by rewrite Hm.
Qed.

Lemma replay_without_motion_witness :
  execute_return_action None (mk [mk_action "move" "forward" 2 5] true 0 None 0) still
  = inr (false,
         mk [mk_action "move" "forward" 2 5] true (-1) None 0,
         logged [Env.Sleep 2; Env.Sleep 0.1] still).
Proof.
  destruct (replay_without_motion None (mk_action "move" "forward" 2 5)
              (mk [mk_action "move" "forward" 2 5] true 0 None 0) still)
    as [Hno _]; [simpl; lia | reflexivity |].
  apply Hno. by left.
Defined.

(** X9.  The return is not over before every entry under the cursor has
    been replayed: with the cursor on entry [k - 1], any number of calls
    up to [k] all report that the return is not complete, and leave the
    history and [is_returning] as they were. *)
Theorem replay_needs_every_entry (motor : option MotorController.t) (fuel : nat) :
  forall (k : nat) (r : t) (w : Env.t),
    (fuel <= k)%nat ->
    (k <= length (action_history r))%nat ->
    return_action_index r = Z.of_nat k - 1 ->
    exists r' w',
      replay fuel motor r w = inr (None, r', w')
      /\ action_history r' = action_history r
      /\ is_returning r' = is_returning r
      /\ return_action_index r' = return_action_index r - Z.of_nat fuel.
Proof.
  induction fuel as [|fuel IH]; intros k r w Hfuel Hk Hi.
  - exists r, w. split; [done|]. split; [done|]. split; [done|]. simpl. lia.
  - destruct k as [|k]; [lia|].
    assert (Hpos : 0 <= return_action_index r) by lia.
    destruct (lookup_lt_is_Some_2 (action_history r) (Z.to_nat (return_action_index r)))
      as [a Ha]; [lia|].
    set (r1 := set_return_action_index (return_action_index r - 1) r).
    destruct (IH k r1 (logged (replay_events motor (type a)
                                 (get_reverse_direction (direction a)) (duration a)
                               ++ [Env.Sleep 0.1]) w))
      as (r' & w' & Hrun & Hh & Hret & Hidx);
      [lia | simpl; lia | simpl; lia |].
    exists r', w'. split.
    { change (replay (S fuel) motor)
        with (shown ← get_next_return_action;
              done ← execute_return_action motor;
              if done : bool then mret (Some [])
              else
                rest ← replay fuel motor;
                mret (match shown with
                      | Some info => cons info <$> rest
                      | None => rest
                      end)).
      rewrite (bind_run _ _ _ _ _ _ _ (get_next_return_action_at r w a Hpos Ha)).
      rewrite (bind_run _ _ _ _ _ _ _ (execute_return_action_at motor r w a Hpos Ha)).
      cbv beta iota. fold r1. by rewrite (bind_run _ _ _ _ _ _ _ Hrun). }
    rewrite Hh, Hret, Hidx. simpl. repeat split; lia.
Qed.

Lemma replay_needs_every_entry_witness :
  exists r' w',
    replay 1 None
      (mk [mk_action "move" "forward" 2 5; mk_action "rotate" "left" 1 9]
          true 1 None 0) still
    = inr (None, r', w')
    /\ action_history r'
       = [mk_action "move" "forward" 2 5; mk_action "rotate" "left" 1 9]
    /\ is_returning r' = true
    /\ return_action_index r' = 1 - 1.
Proof.
  apply (replay_needs_every_entry None 1 2
           (mk [mk_action "move" "forward" 2 5; mk_action "rotate" "left" 1 9]
               true 1 None 0) still); simpl; lia.
Defined.

End ActionRecorderExtra.


(** ** RecognitionHandler: further properties of the code *)

Module RecognitionHandlerExtra.
Import Config RecognitionHandler RecognitionHandlerNotions RecognitionHandlerFacts.

Lemma iter_update_entry_same label n v :
  0 <= v <= EMOTION_CONFIRM_COUNT ->
  Nat.iter n (update_entry label label) v = Z.min EMOTION_CONFIRM_COUNT (v + Z.of_nat n).
Proof.
  intros Hv. induction n as [|n IH].
  - cbv [Nat.iter nat_rect]. lia.
  - rewrite Nat.iter_succ, IH, update_entry_same. lia.
Qed.

Lemma iter_update_entry_other label key n v :
  key <> label -> 0 <= v ->
  Nat.iter n (update_entry label key) v = Z.max 0 (v - Z.of_nat n).
Proof.
  intros Hne Hv. induction n as [|n IH].
  - cbv [Nat.iter nat_rect]. lia.
  - rewrite Nat.iter_succ, IH, update_entry_other by done.
    rewrite decay_entry_floor by lia. lia.
Qed.

(** X10.  After [n] successive calls of [update_counter(label)] from a
    state whose counters lie in [0, EMOTION_CONFIRM_COUNT], the counter
    of [label] is [min(EMOTION_CONFIRM_COUNT, v + n)] and every other
    counter is [max(0, v - n)], [v] being its value before; so [label]
    is confirmed after the calls exactly when
    [v + n >= EMOTION_CONFIRM_COUNT]. *)
Theorem counts_after_updates (label key : string) (n : nat) (v : Z) (h : t) :
  recognition_counters h !! key = Some v ->
  0 <= v <= EMOTION_CONFIRM_COUNT ->
  let h' := Nat.iter n (update_counter label) h in
  get_count key h'
  = (if bool_decide (key = label)
     then Z.min EMOTION_CONFIRM_COUNT (v + Z.of_nat n)
     else Z.max 0 (v - Z.of_nat n))
  /\ (key = label ->
      (is_confirmed label h' = true <-> EMOTION_CONFIRM_COUNT <= v + Z.of_nat n)).
Proof.
  intros Hv Hr h'.
  assert (Hcount : get_count key h'
                   = if bool_decide (key = label)
                     then Z.min EMOTION_CONFIRM_COUNT (v + Z.of_nat n)
                     else Z.max 0 (v - Z.of_nat n)).
  { unfold get_count, h'. rewrite lookup_update_counter_iter, Hv. simpl.
    case_bool_decide as Hk.
    - subst key. by apply iter_update_entry_same.
    - apply iter_update_entry_other; [done|lia]. }
  split; [exact Hcount|].
  intros ->. rewrite is_confirmed_get_count, Hcount, bool_decide_eq_true_2 by done.
  rewrite Z.geb_le. lia.
Qed.

Lemma counts_after_updates_witness :
  let h' := Nat.iter 2 (update_counter "familiar") init in
  get_count "familiar" h' = Z.min EMOTION_CONFIRM_COUNT (0 + 2).
Proof.
  intros h'.
  destruct (counts_after_updates "familiar" "familiar" 2 0 init) as [Hcount _];
    [reflexivity | unfold EMOTION_CONFIRM_COUNT; lia |].
  exact Hcount.
Defined.

Lemma not_confirmed_below label h :
  counters_at_most (EMOTION_CONFIRM_COUNT - 1) h -> is_confirmed label h = false.
Proof.
  intros Hb. unfold is_confirmed.
  destruct (recognition_counters h !! label) as [v|] eqn:E; simpl.
  - pose proof (Hb _ _ E) as Hv0; simpl in Hv0. rewrite Z.geb_leb. apply Z.leb_gt. unfold EMOTION_CONFIRM_COUNT in *. lia.
  - done.
Qed.

Lemma counters_at_most_update_counter other h k :
  0 <= k -> counters_at_most k h ->
  map_Forall (fun key v => key <> other -> 0 <= v <= Z.max 0 (k - 1))
             (recognition_counters (update_counter other h)).
Proof.
  intros Hk Hb key v. rewrite lookup_update_counter.
  destruct (recognition_counters h !! key) as [v0|] eqn:E; [|done].
  intros [= <-] Hne. pose proof (Hb _ _ E) as Hv0; simpl in Hv0.
  rewrite update_entry_other, decay_entry_floor by (done || lia). lia.
Qed.

Lemma counters_at_most_decay_counters h k :
  0 <= k -> counters_at_most k h -> counters_at_most (Z.max 0 (k - 1)) (decay_counters h).
Proof.
  intros Hk Hb key v. rewrite lookup_decay_counters.
  destruct (recognition_counters h !! key) as [v0|] eqn:E; [|done].
  intros [= <-]. pose proof (Hb _ _ E) as Hv0; simpl in Hv0. rewrite decay_entry_floor by lia. lia.
Qed.

Lemma counters_at_most_reset_counters h k :
  0 <= k -> counters_at_most k (reset_counters h).
Proof.
  intros Hk key v. rewrite lookup_reset_counters.
  destruct (recognition_counters h !! key); [|done]. intros [= <-]. lia.
Qed.

Lemma counters_at_most_on_face_lost h k :
  0 <= k -> counters_at_most k h ->
  counters_at_most (Z.max 0 (k - 1)) (on_face_lost h).2.
Proof.
  intros Hk Hb. unfold counters_at_most.
  destruct (counters_on_face_lost h) as [-> | ->].
  - by apply counters_at_most_decay_counters.
  - apply counters_at_most_reset_counters. lia.
Qed.

(** X11.  Confirmation has no inertia: in a state whose counters lie in
    [0, EMOTION_CONFIRM_COUNT], one frame classified with another label,
    one call of [decay_counters] or one frame without a face
    ([on_face_lost]) leaves a label not confirmed, whatever its counter
    was. *)
Theorem confirmation_lost_in_one_frame (label other : string) (h : t) :
  counters_at_most EMOTION_CONFIRM_COUNT h ->
  (label <> other -> is_confirmed label (update_counter other h) = false)
  /\ is_confirmed label (decay_counters h) = false
  /\ is_confirmed label (on_face_lost h).2 = false.
Proof.
  intros Hb. assert (H0 : 0 <= EMOTION_CONFIRM_COUNT) by (by unfold EMOTION_CONFIRM_COUNT).
  split; [|split].
  - intros Hne. unfold is_confirmed.
    destruct (recognition_counters (update_counter other h) !! label) as [v|] eqn:E;
      [|done].
    pose proof (counters_at_most_update_counter other h _ H0 Hb _ _ E Hne) as Hv0.
    simpl in Hv0. simpl. rewrite Z.geb_leb. apply Z.leb_gt. unfold EMOTION_CONFIRM_COUNT in *. lia.
  - apply not_confirmed_below.
    by apply (counters_at_most_decay_counters h EMOTION_CONFIRM_COUNT).
  - apply not_confirmed_below.
    by apply (counters_at_most_on_face_lost h EMOTION_CONFIRM_COUNT).
Qed.

Lemma confirmation_lost_in_one_frame_witness :
  let h := Nat.iter 3 (update_counter "familiar") init in
  is_confirmed "familiar" h = true
  /\ is_confirmed "familiar" (update_counter "stranger" h) = false.
Proof.
  intros h. split; [reflexivity|].
  destruct (confirmation_lost_in_one_frame "familiar" "stranger" h) as [Hlost _].
  - intros key v Hv. revert Hv. unfold h. rewrite lookup_update_counter_iter.
    unfold init. cbn [recognition_counters]. rewrite !lookup_insert.
    unfold EMOTION_CONFIRM_COUNT.
    repeat case_decide; rewrite ?lookup_empty; intros [= <-]; subst; by vm_compute.
  - apply Hlost. discriminate.
Defined.




(** *** Registration *)

Lemma handle_registration_failure cb h : handle_registration false cb h = (false, h).
Proof. done. Qed.

Lemma handle_registration_success_below cb h :
  register_count h + 1 < SAMPLES_PER_PERSON ->
  handle_registration true cb h
  = (false, set_registration (is_registering h) (register_name h) (register_count h + 1) h).
Proof.
  intros Hlt. unfold handle_registration. cbn [register_count set_registration].
  by destruct (Z.geb_spec (register_count h + 1) SAMPLES_PER_PERSON); [lia|].
Qed.

Lemma handle_registration_success_reaching cb h :
  SAMPLES_PER_PERSON <= register_count h + 1 ->
  handle_registration true cb h
  = (true,
     let disarmed := mk (recognition_counters h) (recognition_active_label h)
                        (no_face_count h) false "" 0 in
     match cb with
     | Some callback => callback disarmed
     | None => disarmed
     end).
Proof.
  intros Hge. unfold handle_registration. cbn [register_count set_registration].
  by destruct (Z.geb_spec (register_count h + 1) SAMPLES_PER_PERSON); [|lia].
Qed.

Lemma successes_cons b bs :
  successes (b :: bs) = (if b then 1 else 0) + successes bs.
Proof. unfold successes. destruct b; simpl; lia. Qed.

Lemma successes_nonneg bs : 0 <= successes bs.
Proof. unfold successes. lia. Qed.

Lemma handle_all_below cb bs : forall h,
  register_count h + successes bs < SAMPLES_PER_PERSON ->
  (handle_all cb bs h).1 = repeat false (length bs)
  /\ (handle_all cb bs h).2
     = set_registration (is_registering h) (register_name h)
                        (register_count h + successes bs) h.
Proof.
  induction bs as [|b bs IH]; intros h Hlt.
  - simpl. split; [done|]. destruct h. unfold set_registration, successes. simpl.
    f_equal. lia.
  - rewrite successes_cons in Hlt. pose proof (successes_nonneg bs).
    cbn [handle_all]. destruct b.
    + rewrite handle_registration_success_below by lia.
      set (h1 := set_registration _ _ _ h).
      destruct (IH h1) as [Hrs Hh]; [subst h1; simpl; lia|].
      destruct (handle_all cb bs h1) as [rs h2]. simpl in *. subst rs h2.
      split; [done|]. unfold set_registration, h1. simpl. f_equal.
      rewrite successes_cons. lia.
    + rewrite handle_registration_failure.
      destruct (IH h) as [Hrs Hh]; [lia|].
      destruct (handle_all cb bs h) as [rs h2]. simpl in *. subst rs h2.
      split; [done|]. rewrite successes_cons. f_equal; lia.
Qed.

(** X13.  After [start_registration], registration completes on the
    SAMPLES_PER_PERSON-th successful sample and not before: as long as
    fewer samples have succeeded every [handle_registration] call
    returns False, failed samples change nothing, the callback is not
    called, the recognition counters are as they were and the handler
    stays armed under the chosen name with the number of successes as
    count.  The success that reaches SAMPLES_PER_PERSON returns True
    after disarming the handler (name emptied, count reset) and then
    calling the callback, once, on the disarmed handler: without a
    callback the recognition counters are still untouched, with the
    dispatcher's callback they are all reset to 0. *)
Theorem registration_completes_on_last_sample
    (name : option string) (now : Q) (results : list bool)
    (on_complete : option (t -> t)) (h : t) :
  successes results < SAMPLES_PER_PERSON ->
  let h0 := (start_registration name now h).2 in
  let h1 := (handle_all on_complete results h0).2 in
  let disarmed := mk (recognition_counters h) (recognition_active_label h)
                     (no_face_count h) false "" 0 in
  (handle_all on_complete results h0).1 = repeat false (length results)
  /\ is_registering h1 = true
  /\ register_name h1 = register_name h0
  /\ register_count h1 = successes results
  /\ recognition_counters h1 = recognition_counters h
  /\ handle_registration false on_complete h1 = (false, h1)
  /\ (successes results = SAMPLES_PER_PERSON - 1 ->
      handle_registration true on_complete h1
      = (true, match on_complete with
               | Some callback => callback disarmed
               | None => disarmed
               end)
      /\ handle_registration true None h1 = (true, disarmed)
      /\ handle_registration true (Some on_registration_complete) h1
         = (true, mk ((fun _ => 0) <$> recognition_counters h)
                     (recognition_active_label h) (no_face_count h) false "" 0)).
Proof.
  intros Hlt h0 h1 disarmed.
  destruct (handle_all_below on_complete results h0) as [Hrs Hh];
    [subst h0; simpl; lia|].
  fold h1 in Hh.
  assert (Hc : register_count h1 = successes results)
    by (rewrite Hh; subst h0; simpl; lia).
  assert (Hk : recognition_counters h1 = recognition_counters h
               /\ recognition_active_label h1 = recognition_active_label h
               /\ no_face_count h1 = no_face_count h)
    by (rewrite Hh; by subst h0).
  split; [exact Hrs|]. split; [by rewrite Hh|]. split; [by rewrite Hh|].
  split; [exact Hc|]. split; [apply Hk|]. split; [done|].
  intros Heq.
  rewrite !handle_registration_success_reaching by (rewrite Hc; lia).
  destruct Hk as (-> & -> & ->). done.
Qed.

Lemma registration_completes_on_last_sample_witness :
  let h := update_counter "familiar" (update_counter "familiar" init) in
  let h0 := (start_registration (Some "ada") 0 h).2 in
  let h1 := (handle_all (Some on_registration_complete)
               [true; false; true; true; true] h0).2 in
  get_count "familiar" h1 = 2
  /\ handle_registration true (Some on_registration_complete) h1
     = (true, mk ((fun _ => 0) <$> recognition_counters h) None 0 false "" 0).
Proof.
  intros h h0 h1.
  destruct (registration_completes_on_last_sample (Some "ada") 0
              [true; false; true; true; true] (Some on_registration_complete) h)
    as (_ & _ & _ & _ & Hcounters & _ & Hlast); [by vm_compute|].
  split.
  - unfold get_count. fold h0 h1 in Hcounters. rewrite Hcounters. reflexivity.
  - destruct Hlast as (_ & _ & Hcb); [by vm_compute|]. exact Hcb.
Defined.

End RecognitionHandlerExtra.


(** ** SearchController: further properties of the code *)

Module SearchControllerExtra.
Import Config SearchController SearchControllerNotions SearchControllerFacts.

(** *** The largest face *)

Lemma keep_larger_scan rest : forall best,
  let out := fold_left keep_larger rest (best, face_area best) in
  out.2 = face_area out.1
  /\ (out.1 = best \/ out.1 ∈ rest)
  /\ (face_area best <= face_area out.1)%Q
  /\ (forall y, y ∈ rest -> (face_area y <= face_area out.1)%Q).
Proof.
  induction rest as [|x rest IH]; intros best; cbn [fold_left].
  - split; [done|]. split; [by left|]. split; [apply Qle_refl|].
    intros y Hy. by apply elem_of_nil in Hy.
  - cbn [keep_larger]. unfold Py.gt.
    destruct (Qle_bool (face_area x) (face_area best)) eqn:E; cbn [negb].
    + apply Qle_bool_iff in E.
      destruct (IH best) as (Harea & Hin & Hbest & Hall).
      split; [exact Harea|]. split.
      { destruct Hin as [-> | Hin]; [by left | right; by apply list_elem_of_further]. }
      split; [exact Hbest|].
      intros y Hy. apply elem_of_cons in Hy as [-> | Hy]; [|by apply Hall].
      by apply (Qle_trans _ (face_area best)).
    + assert (Hlt : (face_area best < face_area x)%Q).
      { apply Qnot_le_lt. intros Hle. apply Qle_bool_iff in Hle. congruence. }
      destruct (IH x) as (Harea & Hin & Hbest & Hall).
      split; [exact Harea|]. split.
      { right. destruct Hin as [-> | Hin];
          [apply list_elem_of_here | by apply list_elem_of_further]. }
      split; [apply (Qle_trans _ (face_area x)); [by apply Qlt_le_weak | done]|].
      intros y Hy. apply elem_of_cons in Hy as [-> | Hy]; [done | by apply Hall].
Qed.

(** X14.  [_get_largest_face] returns None exactly on the empty list;
    otherwise it returns an element of the list whose box area is at
    least the area of every element. *)
Theorem _get_largest_face_is_largest (results : list Face.result) :
  (_get_largest_face results = None <-> results = [])
  /\ (forall x,
        _get_largest_face results = Some x ->
        x ∈ results
        /\ forall y, y ∈ results -> (face_area y <= face_area x)%Q).
Proof.
  destruct results as [|first [|second rest]].
  - split; [done|]. intros x [=].
  - split; [done|]. intros x [= <-]. split; [apply list_elem_of_here|].
    intros y Hy. apply list_elem_of_singleton in Hy as ->. apply Qle_refl.
  - split; [done|]. intros x Hx.
    pose proof (keep_larger_scan (second :: rest) first) as Hscan. cbv zeta in Hscan.
    set (out := fold_left keep_larger (second :: rest) (first, face_area first)) in Hscan.
    assert (Hout : x = out.1) by (injection Hx as <-; reflexivity).
    rewrite Hout. destruct Hscan as (_ & Hin & Hbest & Hall).
    split.
    + destruct Hin as [-> | Hin];
        [apply list_elem_of_here | by apply list_elem_of_further].
    + intros y Hy. apply elem_of_cons in Hy as [-> | Hy]; [exact Hbest | by apply Hall].
Qed.

Lemma _get_largest_face_is_largest_witness :
  let small : Face.result := (Face.mk_face_rect (0, 0, 60, 60)%Q, None, 0%Q) in
  let large : Face.result := (Face.mk_face_rect (100, 0, 90, 80)%Q, Some "ada", 0.7%Q) in
  large ∈ [small; large]
  /\ forall y, y ∈ [small; large] -> (face_area y <= face_area large)%Q.
Proof.
  intros small large.
  apply (proj2 (_get_largest_face_is_largest [small; large]) large).
  reflexivity.
Defined.

(** *** The sweep *)

Lemma in_script_init : in_script init.
Proof. by left. Qed.

Lemma in_script_perform c s : in_script s -> in_script (perform c s).
Proof.
  unfold in_script, SEARCH_CYCLES.
  destruct c; cbn [perform]; [by left | | done | done].
  unfold advance_step, SEARCH_CYCLES.
  intros [[Hs Hc] | [[[Hs | Hs] Hc] | [[Hs | Hs] Hc]]]; rewrite Hs; cbn.
  - right. left. lia.
  - right. left. lia.
  - destruct (Z.geb_spec (search_cycle s + 1) 4); cbn; [right; right | right; left]; lia.
  - right. right. lia.
  - right. right. lia.
Qed.

Lemma reachable_in_script s : reachable s -> in_script s.
Proof. induction 1; auto using in_script_init, in_script_perform. Qed.

(** X15.  In every state a search controller can be in, the step is one
    of 0..4 and goes with the cycle counter: cycle 0 at step 0, a cycle
    of 0..SEARCH_CYCLES-1 at steps 1 and 2 (so the scan messages number
    the sweeps 1..SEARCH_CYCLES), cycle SEARCH_CYCLES at steps 3 and 4;
    and [get_next_search_action] answers 'complete' exactly when
    [is_search_complete()] holds. *)
Theorem search_state_in_script (s : t) :
  reachable s ->
  in_script s
  /\ 0 <= search_step s <= 4
  /\ 0 <= search_cycle s <= SEARCH_CYCLES
  /\ (action (get_next_search_action s) = "complete" <-> is_search_complete s = true).
Proof.
  intros Hr. pose proof (reachable_in_script s Hr) as Hs.
  split; [exact Hs|].
  unfold in_script, SEARCH_CYCLES in *.
  split; [lia|]. split; [lia|].
  unfold get_next_search_action, is_search_complete.
  destruct Hs as [[Hs Hc] | [[[Hs | Hs] Hc] | [[Hs | Hs] Hc]]]; by rewrite Hs.
Qed.

Lemma search_state_in_script_witness :
  0 <= search_step (advance_step (advance_step init)) <= 4.
Proof.
  destruct (search_state_in_script (advance_step (advance_step init)))
    as (_ & Hstep & _); [|exact Hstep].
  apply (reachable_call AdvanceStep), (reachable_call AdvanceStep), reachable_init.
Defined.

(** X16.  The search always ends: from every state a search controller
    can be in, ten calls of [advance_step] reach the complete state, and
    further calls stay there. *)
Theorem search_completes_from_anywhere (s : t) (n : nat) :
  reachable s ->
  (10 <= n)%nat ->
  is_search_complete (Nat.iter n advance_step s) = true.
Proof.
  intros Hr Hn. replace n with (n - 10 + 10)%nat by lia.
  rewrite Nat.iter_add.
  assert (Hten : is_search_complete (Nat.iter 10 advance_step s) = true).
  { pose proof (reachable_in_script s Hr) as Hs.
    destruct s as [step cycle last found].
    unfold in_script, SEARCH_CYCLES in Hs. cbn in Hs.
    destruct Hs as [[-> ->] | [[[-> | ->] Hc] | [[-> | ->] ->]]];
      try reflexivity;
      assert (Hcases : cycle = 0 \/ cycle = 1 \/ cycle = 2 \/ cycle = 3) by lia;
      destruct Hcases as [-> | [-> | [-> | ->]]]; reflexivity. }
  by rewrite advance_steps_complete.
Qed.

Lemma search_completes_from_anywhere_witness :
  is_search_complete (Nat.iter 10 advance_step (advance_step init)) = true.
Proof.
  apply search_completes_from_anywhere; [|lia].
  apply (reachable_call AdvanceStep), reachable_init.
Defined.

(** X17.  The sweep ends on the heading it started from: in the ten
    rotations scripted after [reset()], the seconds of rotate_left and
    the seconds of rotate_right are equal, nine times
    SEARCH_45DEG_DURATION each. *)
Theorem sweep_is_balanced (s : t) :
  (rotation_time "rotate_left" (scan 10 (reset s)) == 9 * SEARCH_45DEG_DURATION)%Q
  /\ (rotation_time "rotate_right" (scan 10 (reset s)) == 9 * SEARCH_45DEG_DURATION)%Q.
Proof. split; by vm_compute. Qed.

End SearchControllerExtra.


(** ** SearchController: the centering check *)

Module CenterFaceFacts.
Import Config SearchController SearchControllerNotions SearchControllerFacts.
Import ActionRecorder ActionRecorderNotions ActionRecorderFacts.

Lemma turns_app es1 es2 : turns (es1 ++ es2) = (turns es1 + turns es2)%nat.
Proof.
  induction es1 as [|e es1 IH]; [done|].
  destruct e; cbn [app turns]; by rewrite IH.
Qed.

Lemma steps_time_succ k actual :
  steps_time k (actual + FACE_CENTER_STEP_DURATION) = steps_time (S k) actual.
Proof.
  unfold steps_time. induction k as [|k IH]; [done|].
  by rewrite (Nat.iter_succ (S k)), <- IH, Nat.iter_succ.
Qed.

Lemma after_frames_step k es1 es2 w :
  after_frames k es2 (Env.grab (logged es1 w)) = after_frames (S k) (es1 ++ es2) w.
Proof.
  unfold after_frames, Env.grab, logged. cbn.
  by rewrite Nat.add_succ_r, app_assoc.
Qed.

Lemma after_frames_step_update k d es1 es2 w :
  after_frames k es2 (logged [Env.DisplayUpdate d] (Env.grab (logged es1 w)))
  = after_frames (S k) (es1 ++ Env.DisplayUpdate d :: es2) w.
Proof.
  unfold after_frames, Env.grab, logged. cbn.
  by rewrite Nat.add_succ_r, <- !app_assoc.
Qed.

Lemma after_frames_none w : after_frames 0 [] w = w.
Proof. destruct w. unfold after_frames. cbn. by rewrite app_nil_r. Qed.

(** The rotation command of a centering step toward [direction]. *)
Lemma turn_events direction m :
  MotorController.enabled m = true ->
  exists turn,
    turns [turn] = 1%nat
    /\ emits
         (if bool_decide (direction = "right")
          then emit_all (MotorController.turn_right (Some FACE_CENTER_SPEED) m)
          else emit_all (MotorController.turn_left (Some FACE_CENTER_SPEED) m))
         [turn].
Proof.
  intros Hm. unfold MotorController.turn_right, MotorController.turn_left. rewrite Hm.
  destruct (bool_decide (direction = "right")); eexists; (split; [|apply emits_emit_all]);
    reflexivity.
Qed.

Lemma stop_events m :
  MotorController.enabled m = true -> emits (emit_all (MotorController.stop m)) [Env.Stop].
Proof. intros Hm. unfold MotorController.stop. rewrite Hm. apply emits_emit_all. Qed.

(** The loop of a centering pass: it ends after some number [k] of its
    [n] steps, at least one when there is one, having read [k] frames
    and sent [k] rotation commands, and leaves the recorder alone. *)
Lemma center_steps_run direction m cx tol n : forall last actual r w,
  MotorController.enabled m = true ->
  exists res k es,
    center_steps n direction m cx tol last actual r w
    = inr ((res, steps_time k actual), r, after_frames k es w)
    /\ (k <= n)%nat /\ (n <> 0%nat -> k <> 0%nat) /\ turns es = k.
Proof.
  induction n as [|n IH]; intros last actual r w Hm.
  - exists (mk_rotation_result false last false), 0%nat, [].
    rewrite after_frames_none. by repeat split.
  - destruct (turn_events direction m Hm) as (turn & Hone & Hturn).
    cbn [center_steps].
    rewrite (bind_run _ _ _ _ _ _ _ (Hturn r w)).
    rewrite (bind_run _ _ _ _ _ _ _ (emits_sleep _ r _)).
    rewrite (bind_run _ _ _ _ _ _ _ (stop_events m Hm r _)).
    cbv zeta.
    rewrite (bind_run _ _ _ _ _ _ _ (emits_sleep _ r _)).
    rewrite !logged_logged. cbn [app].
    set (es1 := [turn; Env.Sleep FACE_CENTER_STEP_DURATION; Env.Stop;
                 Env.Sleep FACE_CENTER_STEP_PAUSE]).
    assert (Hes1 : turns es1 = 1%nat).
    { unfold es1. destruct turn; try discriminate Hone; reflexivity. }
    rewrite (bind_run camera_detect _ r (logged es1 w) _ r (Env.grab (logged es1 w)) eq_refl).
    assert (Hgo : forall last',
               exists res k es,
                 center_steps n direction m cx tol last'
                   (actual + FACE_CENTER_STEP_DURATION) r (Env.grab (logged es1 w))
                 = inr ((res, steps_time k actual), r, after_frames k es w)
                 /\ (k <= S n)%nat /\ (S n <> 0%nat -> k <> 0%nat) /\ turns es = k).
    { intros last'.
      destruct (IH last' (actual + FACE_CENTER_STEP_DURATION)%Q r
                  (Env.grab (logged es1 w)) Hm)
        as (res & k & es & Hrun & Hk & _ & Hes).
      exists res, (S k), (es1 ++ es).
      rewrite Hrun, steps_time_succ, after_frames_step, turns_app, Hes1, Hes.
      repeat split; lia. }
    destruct (Env.camera (logged es1 w) (Env.frames (logged es1 w))) as [results|];
      [|apply Hgo].
    destruct (_get_largest_face results) as [largest|]; [|apply Hgo].
    destruct (within cx tol largest.1.1).
    { eexists _, 1%nat, es1. split; [reflexivity|]. repeat split; (lia || done). }
    destruct (negb _).
    { eexists _, 1%nat, es1. split; [reflexivity|]. repeat split; (lia || done). }
    rewrite (bind_run _ _ _ _ _ _ _ (emits_emit _ r _)).
    destruct (IH (Some largest.1.1) (actual + FACE_CENTER_STEP_DURATION)%Q r
                (logged [Env.DisplayUpdate
                           (FACE_CENTER_STEP_DURATION + FACE_CENTER_STEP_PAUSE)]
                        (Env.grab (logged es1 w))) Hm)
      as (res & k & es & Hrun & Hk & _ & Hes).
    exists res, (S k),
      (es1 ++ Env.DisplayUpdate (FACE_CENTER_STEP_DURATION + FACE_CENTER_STEP_PAUSE) :: es).
    rewrite Hrun, steps_time_succ, after_frames_step_update, turns_app, Hes1.
    cbn [turns]. rewrite Hes. repeat split; lia.
Qed.

(** [record] returns and sends nothing to the outside. *)
Lemma record_log action_type direction d r w :
  exists r' w',
    record action_type direction d r w = inr (tt, r', w') /\ Env.log w' = Env.log w.
Proof.
  unfold record, mbind, M_bind, self.
  destruct (is_returning r); [by eexists _, _|].
  destruct (Py.lt d 0.05); by eexists _, _.
Qed.

(** A centering pass returns after sending at least one rotation
    command. *)
Lemma _do_center_rotation_log direction m cx tol r w :
  MotorController.enabled m = true ->
  exists res r' w' es,
    _do_center_rotation direction m cx tol r w = inr (res, r', w')
    /\ Env.log w' = Env.log w ++ es
    /\ turns es <> 0%nat.
Proof.
  intros Hm. unfold _do_center_rotation.
  change (Z.to_nat (Py.int (FACE_CENTER_TIMEOUT
                            / (FACE_CENTER_STEP_DURATION + FACE_CENTER_STEP_PAUSE))))
    with 4%nat.
  destruct (center_steps_run direction m cx tol 4 None 0%Q r w Hm)
    as (res & k & es & Hrun & Hk4 & Hk1 & Hes).
  rewrite (bind_run _ _ _ _ _ _ _ Hrun). cbv beta iota zeta.
  destruct (Py.gt (steps_time k 0) 0.1).
  - destruct (record_log "rotate" direction (steps_time k 0) r (after_frames k es w))
      as (r' & w' & Hrec & Hlog).
    rewrite (bind_run _ _ _ _ _ _ _ Hrec).
    exists res, r', w', es. split; [reflexivity|]. split; [by rewrite Hlog|lia].
  - exists res, r, (after_frames k es w), es.
    split; [reflexivity|]. split; [reflexivity|lia].
Qed.

(** The passes of [center_face] return; they send a rotation command
    unless the first check finds the face centered. *)
Lemma center_passes_log m n : forall face_rect r w,
  MotorController.enabled m = true ->
  exists b r' w' es,
    center_passes n face_rect m r w = inr (b, r', w')
    /\ Env.log w' = Env.log w ++ es
    /\ (n <> 0%nat -> within center_x tolerance face_rect = false -> turns es <> 0%nat).
Proof.
  induction n as [|n IH]; intros face_rect r w Hm.
  - exists true, r, w, []. rewrite app_nil_r. by repeat split.
  - cbn [center_passes].
    destruct (within center_x tolerance face_rect).
    { exists true, r, w, []. rewrite app_nil_r. by repeat split. }
    set (direction := if Py.gt (offset_from center_x face_rect) 0
                      then "right" else "left").
    destruct (_do_center_rotation_log direction m center_x tolerance r w Hm)
      as (res & r1 & w1 & es1 & Hrun & Hlog1 & Hturn).
    rewrite (bind_run _ _ _ _ _ _ _ Hrun).
    destruct (centered res).
    { exists true, r1, w1, es1. by repeat split. }
    destruct (last_face_rect res) as [face_rect'|].
    2: { exists false, r1, w1, es1. by repeat split. }
    rewrite (bind_run _ _ _ _ _ _ _ (emits_sleep 0.1 r1 w1)).
    destruct (IH face_rect' r1 (logged [Env.Sleep 0.1] w1) Hm)
      as (b & r' & w' & es & Hrest & Hlog & _).
    exists b, r', w', (es1 ++ Env.Sleep 0.1 :: es).
    split; [exact Hrest|]. split.
    { rewrite Hlog. cbn [Env.log logged]. by rewrite Hlog1, <- !app_assoc. }
    intros _ _. rewrite turns_app. lia.
Qed.

(** C8.  With frame width 640 and tolerance ratio 0.16 the frame centre
    is 320, and on the boxes the detector delivers, which hold whole
    pixels, the centering check of [center_face] judges the face
    centered if and only if |face_center_x - 320| <= 102.24: exactly
    then [center_face] on an enabled motor returns True at once, before
    any motor command and without recording; otherwise it sends at least
    one rotation command.  The bound the code computes is
    640 * 0.16 = 102.4; the face centre of a whole-pixel box lies on the
    half-pixel grid, where 102.4 and 102.24 admit the same offsets. *)
Theorem centered_within_102_24
    (f : Face.face_rect) (m : MotorController.t) (r : ActionRecorder.t) (w : Env.t) :
  whole_pixels f ->
  MotorController.enabled m = true ->
  (inject_Z CAMERA_WIDTH == 640)%Q /\
  (FACE_CENTER_TOLERANCE == 0.16)%Q /\
  (center_x == 320)%Q /\
  (within center_x tolerance f = true
   <-> (Qabs (face_center_x f - 320) <= 102.24)%Q) /\
  (center_face f (Some m) r w = inr (true, r, w)
   <-> (Qabs (face_center_x f - 320) <= 102.24)%Q) /\
  (~ (Qabs (face_center_x f - 320) <= 102.24)%Q ->
   exists b r' w' es,
     center_face f (Some m) r w = inr (b, r', w')
     /\ Env.log w' = Env.log w ++ es
     /\ turns es <> 0%nat) /\
  ((Qabs (face_center_x f - 320) <= 102.24)%Q
   <-> (Qabs (face_center_x f - 320) <= tolerance)%Q).
Proof.
  intros (x & y & bw & bh & Hbox) Hm.
  assert (Hgrid : forall bound, (102 <= bound)%Q -> (bound < 102.5)%Q ->
            within center_x tolerance f = true
            <-> (Qabs (face_center_x f - 320) <= bound)%Q).
  { intros bound Hlo Hhi. destruct f as [box]. cbn in Hbox. subst box.
    exact (within_on_pixel_grid x y bw bh bound Hlo Hhi). }
  assert (Hspec : within center_x tolerance f = true
                  <-> (Qabs (face_center_x f - 320) <= 102.24)%Q).
  { apply Hgrid; [by vm_compute|by vm_compute]. }
  assert (Hface : center_face f (Some m) r w = center_passes MAX_CENTER_RETRIES f m r w).
  { unfold center_face, FACE_CENTER_ENABLED. cbn [negb]. by rewrite Hm. }
  assert (Hmoves : within center_x tolerance f = false ->
            exists b r' w' es,
              center_face f (Some m) r w = inr (b, r', w')
              /\ Env.log w' = Env.log w ++ es
              /\ turns es <> 0%nat).
  { intros Hout.
    destruct (center_passes_log m MAX_CENTER_RETRIES f r w Hm)
      as (b & r' & w' & es & Hrun & Hlog & Hturn).
    exists b, r', w', es. rewrite Hface.
    split; [exact Hrun|]. split; [exact Hlog|]. by apply Hturn. }
  split; [reflexivity|]. split; [reflexivity|]. split; [reflexivity|].
  split; [exact Hspec|]. split; [|split].
  - rewrite <- Hspec. split.
    + intros Hrun. destruct (within center_x tolerance f) eqn:Hin; [done|].
      destruct (Hmoves eq_refl) as (b & r' & w' & es & Hrun' & Hlog & Hturn).
      rewrite Hrun in Hrun'. injection Hrun' as _ _ <-.
      rewrite <- (app_nil_r (Env.log w)) in Hlog at 1.
      apply app_inv_head in Hlog. subst es. by destruct Hturn.
    + intros Hin. rewrite Hface. unfold MAX_CENTER_RETRIES. cbn [center_passes].
      by rewrite Hin.
  - intros Hout. apply Hmoves.
    destruct (within center_x tolerance f) eqn:Hin; [|done].
    exfalso. apply Hout, Hspec. done.
  - rewrite <- Hspec. unfold within, Py.le, Py.abs, offset_from.
    rewrite Qle_bool_iff, center_x_value. reflexivity.
Qed.

Lemma centered_within_102_24_witness :
  center_face (Face.mk_face_rect (382, 100, 80, 80)%Q) (Some (MotorController.mk 60 true))
    ActionRecorder.init still
  = inr (true, ActionRecorder.init, still)
  /\ center_face (Face.mk_face_rect (383, 100, 80, 80)%Q) (Some (MotorController.mk 60 true))
       ActionRecorder.init still
     <> inr (true, ActionRecorder.init, still).
Proof.
  split.
  - destruct (centered_within_102_24 (Face.mk_face_rect (382, 100, 80, 80)%Q)
                (MotorController.mk 60 true) ActionRecorder.init still)
      as (_ & _ & _ & _ & Hret & _);
      [by exists 382, 100, 80, 80|reflexivity|].
    apply Hret. by vm_compute.
  - destruct (centered_within_102_24 (Face.mk_face_rect (383, 100, 80, 80)%Q)
                (MotorController.mk 60 true) ActionRecorder.init still)
      as (_ & _ & _ & _ & Hret & _);
      [by exists 383, 100, 80, 80|reflexivity|].
    intros Hrun. apply Hret in Hrun. by vm_compute in Hrun.
Defined.

End CenterFaceFacts.


(** ** SearchController: face centering and the action history *)

Module CenterFaceExtra.
Import Config SearchController SearchControllerNotions.
Import ActionRecorder ActionRecorderNotions ActionRecorderFacts CenterFaceFacts.

Lemma recorded_time_app l1 l2 :
  (recorded_time (l1 ++ l2) == recorded_time l1 + recorded_time l2)%Q.
Proof.
  induction l1 as [|a l1 IH].
  - change (recorded_time l2 == 0 + recorded_time l2)%Q. lra.
  - change (duration a + recorded_time (l1 ++ l2)
            == (duration a + recorded_time l1) + recorded_time l2)%Q.
    rewrite IH. lra.
Qed.

Lemma steps_time_value k actual :
  (steps_time k actual
   == actual + inject_Z (Z.of_nat k) * FACE_CENTER_STEP_DURATION)%Q.
Proof.
  unfold steps_time. induction k as [|k IH].
  - cbv [Nat.iter nat_rect]. change (inject_Z (Z.of_nat 0)) with 0%Q. lra.
  - rewrite Nat.iter_succ, IH, Nat2Z.inj_succ. unfold Z.succ.
    rewrite inject_Z_plus. change (inject_Z 1) with 1%Q. lra.
Qed.

Lemma steps_time_bounds k :
  (1 <= k <= 4)%nat ->
  (FACE_CENTER_STEP_DURATION <= steps_time k 0)%Q
  /\ (steps_time k 0 <= 4 * FACE_CENTER_STEP_DURATION)%Q.
Proof.
  intros Hk. rewrite steps_time_value.
  assert (H1 : (1 <= inject_Z (Z.of_nat k))%Q) by (unfold Qle; simpl; lia).
  assert (H4 : (inject_Z (Z.of_nat k) <= 4)%Q) by (unfold Qle; simpl; lia).
  unfold FACE_CENTER_STEP_DURATION. split; lra.
Qed.

Lemma set_action_history_same r : set_action_history (action_history r ++ []) r = r.
Proof. destruct r. unfold set_action_history. cbn. by rewrite app_nil_r. Qed.

(** One centering pass on a recorder that is not returning: it appends
    one rotate entry toward [direction] whose duration is the time of
    the steps taken, between one and four. *)
Lemma _do_center_rotation_run direction m cx tol r w :
  MotorController.enabled m = true ->
  is_returning r = false ->
  exists res k es w',
    _do_center_rotation direction m cx tol r w
    = inr (res,
           set_action_history
             (action_history r
                ++ [mk_action "rotate" direction (steps_time k 0)
                              (Env.clock w (Env.reads w))]) r,
           w')
    /\ (1 <= k <= 4)%nat
    /\ turns es = k
    /\ Env.log w' = Env.log w ++ es.
Proof.
  intros Hm Hret. unfold _do_center_rotation.
  change (Z.to_nat (Py.int (FACE_CENTER_TIMEOUT
                            / (FACE_CENTER_STEP_DURATION + FACE_CENTER_STEP_PAUSE))))
    with 4%nat.
  destruct (center_steps_run direction m cx tol 4 None 0%Q r w Hm)
    as (res & k & es & Hrun & Hk4 & Hk1 & Hes).
  assert (Hk : (1 <= k <= 4)%nat) by lia.
  destruct (steps_time_bounds k Hk) as [Hlo _]. unfold FACE_CENTER_STEP_DURATION in Hlo.
  exists res, k, es, (Env.tick (after_frames k es w)).
  split; [|done].
  rewrite (bind_run _ _ _ _ _ _ _ Hrun). cbv beta iota zeta.
  assert (Hgt : Py.gt (steps_time k 0) 0.1 = true).
  { unfold Py.gt. destruct (Qle_bool (steps_time k 0) 0.1) eqn:E; [|done].
    apply Qle_bool_iff in E. exfalso. lra. }
  rewrite Hgt.
  rewrite (bind_run _ _ _ _ _ _ _
             (record_kept "rotate" direction (steps_time k 0) r _ Hret ltac:(lra))).
  done.
Qed.

(** The passes of [center_face] on a recorder that is not returning. *)
Lemma center_passes_run m n : forall face_rect r w,
  MotorController.enabled m = true ->
  is_returning r = false ->
  exists b l es w',
    center_passes n face_rect m r w
    = inr (b, set_action_history (action_history r ++ l) r, w')
    /\ (length l <= n)%nat
    /\ Forall centering_entry l
    /\ Env.log w' = Env.log w ++ es
    /\ (recorded_time l
        == inject_Z (Z.of_nat (turns es)) * FACE_CENTER_STEP_DURATION)%Q.
Proof.
  induction n as [|n IH]; intros face_rect r w Hm Hret.
  - exists true, [], [], w. rewrite set_action_history_same, app_nil_r.
    split; [done|]. split; [simpl; lia|]. split; [constructor|]. split; [done|].
    by vm_compute.
  - cbn [center_passes].
    destruct (within center_x tolerance face_rect).
    { exists true, [], [], w. rewrite set_action_history_same, app_nil_r.
      split; [done|]. split; [simpl; lia|]. split; [constructor|]. split; [done|].
      by vm_compute. }
    set (direction := if Py.gt (offset_from center_x face_rect) 0
                      then "right" else "left").
    assert (Hdir : direction = "left" \/ direction = "right")
      by (unfold direction; destruct (Py.gt _ _); auto).
    destruct (_do_center_rotation_run direction m center_x tolerance r w Hm Hret)
      as (res & k & es1 & w1 & Hrun & Hk & Hes1 & Hlog1).
    set (a1 := mk_action "rotate" direction (steps_time k 0) (Env.clock w (Env.reads w)))
      in Hrun.
    set (r1 := set_action_history (action_history r ++ [a1]) r) in Hrun.
    assert (Ha1 : centering_entry a1).
    { destruct (steps_time_bounds k Hk). by repeat split. }
    assert (Htime1 : (recorded_time [a1]
                      == inject_Z (Z.of_nat (turns es1)) * FACE_CENTER_STEP_DURATION)%Q).
    { rewrite Hes1. cbn [recorded_time fold_right a1 duration].
      rewrite steps_time_value. lra. }
    rewrite (bind_run _ _ _ _ _ _ _ Hrun).
    destruct (centered res).
    { exists true, [a1], es1, w1.
      split; [done|]. split; [simpl; lia|]. split; [by constructor|]. by split. }
    destruct (last_face_rect res) as [face_rect'|].
    2: { exists false, [a1], es1, w1.
         split; [done|]. split; [simpl; lia|]. split; [by constructor|]. by split. }
    rewrite (bind_run _ _ _ _ _ _ _ (emits_sleep 0.1 r1 w1)).
    destruct (IH face_rect' r1 (logged [Env.Sleep 0.1] w1) Hm Hret)
      as (b & l & es & w' & Hrest & Hlen & Hall & Hlog & Htime).
    exists b, (a1 :: l), (es1 ++ Env.Sleep 0.1 :: es), w'.
    split.
    { rewrite Hrest. do 2 f_equal. unfold r1, set_action_history. cbn.
      by rewrite <- app_assoc. }
    split; [simpl; lia|]. split; [by constructor|].
    split.
    { rewrite Hlog. cbn [Env.log logged]. rewrite Hlog1, <- !app_assoc. done. }
    change (recorded_time (a1 :: l)) with (duration a1 + recorded_time l)%Q.
    change (recorded_time [a1]) with (duration a1 + 0)%Q in Htime1.
    rewrite turns_app. cbn [turns].
    rewrite Nat2Z.inj_add, inject_Z_plus, Htime. lra.
Qed.

(** X18.  On a recorder that is not returning, [center_face] always
    returns, and every rotation it makes is recorded: it appends at most
    three entries to the history (one per correction pass) and changes
    nothing else in the recorder; each entry is a rotate to the left or
    to the right lasting one to four centering steps; and the recorded
    durations add up to FACE_CENTER_STEP_DURATION times the number of
    rotation commands sent to the motor, of which there are at most
    twelve.  Without a motor, or with a disabled one, nothing is sent and
    nothing is recorded. *)
Theorem centering_is_recorded
    (face_rect : Face.face_rect) (motor : option MotorController.t) (r : t) (w : Env.t) :
  is_returning r = false ->
  exists b l es w',
    center_face face_rect motor r w
    = inr (b, set_action_history (action_history r ++ l) r, w')
    /\ (length l <= 3)%nat
    /\ Forall centering_entry l
    /\ Env.log w' = Env.log w ++ es
    /\ (recorded_time l
        == inject_Z (Z.of_nat (turns es)) * FACE_CENTER_STEP_DURATION)%Q
    /\ (turns es <= 12)%nat
    /\ ((motor = None \/ exists m, motor = Some m /\ MotorController.enabled m = false) ->
        b = true /\ l = [] /\ es = []).
Proof.
  intros Hret.
  assert (Hidle : exists b l es w',
             (mret true : M bool) r w
             = inr (b, set_action_history (action_history r ++ l) r, w')
             /\ (length l <= 3)%nat
             /\ Forall centering_entry l
             /\ Env.log w' = Env.log w ++ es
             /\ (recorded_time l
                 == inject_Z (Z.of_nat (turns es)) * FACE_CENTER_STEP_DURATION)%Q
             /\ (turns es <= 12)%nat
             /\ b = true /\ l = [] /\ es = []).
  { exists true, [], [], w. rewrite set_action_history_same, app_nil_r.
    split; [done|]. split; [simpl; lia|]. split; [constructor|]. split; [done|].
    split; [by vm_compute|]. split; [simpl; lia|]. done. }
  unfold center_face, FACE_CENTER_ENABLED. cbn [negb].
  destruct motor as [m|].
  2: { destruct Hidle as (b & l & es & w' & H1 & H2 & H3 & H4 & H5 & H6 & H7).
       exists b, l, es, w'. do 6 (split; [assumption|]). by intros _. }
  destruct (MotorController.enabled m) eqn:Hm; cbn [negb].
  2: { destruct Hidle as (b & l & es & w' & H1 & H2 & H3 & H4 & H5 & H6 & H7).
       exists b, l, es, w'. do 6 (split; [assumption|]). by intros _. }
  destruct (center_passes_run m MAX_CENTER_RETRIES face_rect r w Hm Hret)
    as (b & l & es & w' & Hrun & Hlen & Hall & Hlog & Htime).
  exists b, l, es, w'.
  split; [exact Hrun|]. split; [exact Hlen|]. split; [exact Hall|].
  split; [exact Hlog|]. split; [exact Htime|]. split.
  - assert (Hsum : (recorded_time l
                    <= inject_Z (Z.of_nat (length l)) * (4 * FACE_CENTER_STEP_DURATION))%Q).
    { clear -Hall. induction Hall as [|a l (_ & _ & _ & Hhi) _ IH].
      - by vm_compute.
      - change (recorded_time (a :: l)) with (duration a + recorded_time l)%Q.
        cbn [length]. rewrite Nat2Z.inj_succ. unfold Z.succ.
        rewrite inject_Z_plus. change (inject_Z 1) with 1%Q.
        unfold FACE_CENTER_STEP_DURATION in *. lra. }
    assert (Hl3 : (inject_Z (Z.of_nat (length l)) <= 3)%Q)
      by (unfold Qle; simpl; unfold MAX_CENTER_RETRIES in Hlen; lia).
    rewrite Htime in Hsum. unfold FACE_CENTER_STEP_DURATION in Hsum.
    assert (Hq : (inject_Z (Z.of_nat (turns es)) <= 12)%Q) by lra.
    unfold Qle in Hq. simpl in Hq. lia.
  - intros [[=] | (m' & [= <-] & Hoff)]. congruence.
Qed.

Lemma centering_is_recorded_witness :
  exists b l es w',
    center_face (Face.mk_face_rect (500, 100, 80, 80)%Q) (Some live_motor) init still
    = inr (b, set_action_history (action_history init ++ l) init, w')
    /\ (length l <= 3)%nat
    /\ Forall centering_entry l
    /\ Env.log w' = Env.log still ++ es.
Proof.
  destruct (centering_is_recorded (Face.mk_face_rect (500, 100, 80, 80)%Q)
              (Some live_motor) init still eq_refl)
    as (b & l & es & w' & Hrun & Hlen & Hall & Hlog & _).
  by exists b, l, es, w'.
Defined.

End CenterFaceExtra.


(** ** InteractionHandler: the timers *)

Module InteractionHandlerExtra.
Import Config InteractionHandler InteractionHandlerNotions.

(** *** A clock that never goes back *)

Lemma ordered_from_le last ts b :
  ordered_from last ts = true -> In b ts -> (last <= b)%Q.
Proof.
  revert last. induction ts as [|t ts IH]; intros last H Hb; [destruct Hb|].
  cbn in H. apply andb_true_iff in H as [H1 H2]. apply Qle_bool_iff in H1.
  destruct Hb as [<-|Hb]; [exact H1|].
  eapply Qle_trans; [exact H1|]. apply IH; assumption.
Qed.

Lemma ordered_from_ordered last ts : ordered_from last ts = true -> ordered ts = true.
Proof.
  destruct ts as [|t ts]; [reflexivity|]. cbn.
  intros H. apply andb_true_iff in H as [_ H]. exact H.
Qed.

Lemma ordered_from_app_l last l1 l2 :
  ordered_from last (l1 ++ l2) = true -> ordered_from last l1 = true.
Proof.
  revert last. induction l1 as [|t l1 IH]; intros last H; [reflexivity|].
  cbn in H |- *. apply andb_true_iff in H as [H1 H2].
  rewrite H1. cbn. apply IH. exact H2.
Qed.

Lemma ordered_app_l l1 l2 : ordered (l1 ++ l2) = true -> ordered l1 = true.
Proof.
  destruct l1 as [|t l1]; [reflexivity|]. cbn. apply ordered_from_app_l.
Qed.

Lemma ordered_app_le l1 l2 a b :
  ordered (l1 ++ l2) = true -> In a l1 -> In b l2 -> (a <= b)%Q.
Proof.
  induction l1 as [|t l1 IH]; intros H Ha Hb; [destruct Ha|].
  cbn in H. destruct Ha as [<-|Ha].
  - eapply ordered_from_le; [exact H|]. apply in_or_app. right. exact Hb.
  - apply IH; [|exact Ha|exact Hb]. eapply ordered_from_ordered. exact H.
Qed.

(** *** What a call does to the awake attributes *)

Lemma run_snoc cs c : run (cs ++ [c]) = perform c (run cs).
Proof. unfold run. rewrite foldl_app. reflexivity. Qed.

Lemma perform_awake_fields c h :
  awake_duration (perform c h) = awake_duration h /\
  match c with
  | WakeUp now1 now2 =>
      is_awake (perform c h) = true /\ awake_time (perform c h) = now1
      /\ last_activity_time (perform c h) = now2
  | UpdateActivity now =>
      is_awake (perform c h) = is_awake h /\ awake_time (perform c h) = awake_time h
      /\ last_activity_time (perform c h) = now
  | _ =>
      (is_awake (perform c h) = true -> is_awake h = true)
      /\ awake_time (perform c h) = awake_time h
      /\ last_activity_time (perform c h) = last_activity_time h
  end.
Proof.
  destruct c; cbn [perform];
    unfold wake_up, update_activity, check_awake_timeout, sleep,
      start_voice_wake_emotion, check_voice_wake_emotion_timeout,
      start_playing_audio, check_audio_finished,
      start_familiar_interaction, refresh_familiar_interaction,
      check_familiar_timeout, end_familiar_interaction,
      start_stranger_observation, refresh_stranger_observation,
      check_stranger_timeout, end_stranger_observation,
      trigger_ultrasonic_scared, check_ultrasonic_recovery;
    repeat match goal with
           | |- context [if ?b then _ else _] => destruct b
           end;
    cbn; repeat split; auto; discriminate.
Qed.

Lemma activity_readings_are_readings c a : In a (activity_readings c) -> In a (readings c).
Proof. destruct c; cbn; tauto. Qed.

Lemma wake_readings_are_readings c w : In w (wake_readings c) -> In w (readings c).
Proof. destruct c; cbn; tauto. Qed.

Lemma flat_map_sub (f g : call -> list Q) cs x :
  (forall c y, In y (f c) -> In y (g c)) ->
  In x (flat_map f cs) -> In x (flat_map g cs).
Proof.
  intros Hfg Hx. apply in_flat_map in Hx as (c & Hc & Hx).
  apply in_flat_map. exists c. split; [exact Hc|]. apply Hfg. exact Hx.
Qed.

Lemma flat_map_snoc (f : call -> list Q) cs c :
  flat_map f (cs ++ [c]) = flat_map f cs ++ f c.
Proof. rewrite flat_map_app. cbn. rewrite app_nil_r. reflexivity. Qed.

(** Under a clock that never goes back, the stored times are the latest
    readings of their kind, and an awake handler holds readings that
    were really taken. *)
Lemma awake_fields cs :
  ordered (flat_map readings cs) = true ->
  awake_duration (run cs) = AWAKE_TIMEOUT
  /\ (forall a, In a (flat_map activity_readings cs) -> (a <= last_activity_time (run cs))%Q)
  /\ (forall w, In w (flat_map wake_readings cs) -> (w <= awake_time (run cs))%Q)
  /\ (is_awake (run cs) = true ->
      In (last_activity_time (run cs)) (flat_map activity_readings cs)
      /\ In (awake_time (run cs)) (flat_map wake_readings cs)).
Proof.
  induction cs as [|c cs IH] using rev_ind; intros Hord.
  - cbn. repeat split; try tauto; discriminate.
  - rewrite flat_map_snoc in Hord.
    destruct (IH (ordered_app_l _ _ Hord)) as (Hd & Ha & Hw & Hin). clear IH.
    assert (Hpast : forall x y, In x (flat_map readings cs) -> In y (readings c) -> (x <= y)%Q)
      by (intros x y; apply ordered_app_le; exact Hord).
    assert (Hpa : forall x y, In x (flat_map activity_readings cs) -> In y (readings c) -> (x <= y)%Q)
      by (intros x y Hx; apply Hpast;
          exact (flat_map_sub _ _ _ _ activity_readings_are_readings Hx)).
    assert (Hpw : forall x y, In x (flat_map wake_readings cs) -> In y (readings c) -> (x <= y)%Q)
      by (intros x y Hx; apply Hpast;
          exact (flat_map_sub _ _ _ _ wake_readings_are_readings Hx)).
    rewrite run_snoc, !flat_map_snoc.
    destruct (perform_awake_fields c (run cs)) as [Hd' Hc]. rewrite Hd'.
    split; [exact Hd|].
    destruct c; cbn [activity_readings wake_readings readings] in *;
      destruct Hc as (Hawake & -> & ->);
      rewrite ?app_nil_r;
      (split; [|split]);
      try exact Ha; try exact Hw;
      try (intros H; apply Hin, Hawake, H).
    + (* wake_up *)
      intros a Hin'. apply in_app_or in Hin' as [Hin'|[<-|[]]]; [|apply Qle_refl].
      apply Hpa; [exact Hin'|]. right. left. reflexivity.
    + intros w Hin'. apply in_app_or in Hin' as [Hin'|[<-|[]]]; [|apply Qle_refl].
      apply Hpw; [exact Hin'|]. left. reflexivity.
    + intros _. split; apply in_or_app; right; left; reflexivity.
    + (* update_activity *)
      intros a Hin'. apply in_app_or in Hin' as [Hin'|[<-|[]]]; [|apply Qle_refl].
      apply Hpa; [exact Hin'|]. left. reflexivity.
    + intros H. rewrite Hawake in H. destruct (Hin H) as [_ Hi].
      split; [|exact Hi]. apply in_or_app. right. left. reflexivity.
Qed.

(** *** The awake timeout *)

(** X19.  Over any sequence of calls on a fresh handler under a clock
    that never goes back, [check_awake_timeout] answers True exactly
    when the handler is awake, every reading stored as an activity time
    (by [wake_up] or [update_activity]) is at least AWAKE_TIMEOUT older
    than its first reading, and every waking time is at least
    AWAKE_TIMEOUT older than its second reading.  A True answer puts the
    handler to sleep, after which the check answers False whatever the
    clock says; a False answer changes nothing. *)
Theorem sleeps_only_after_quiet (cs : list call) (now1 now2 : Q) :
  ordered (flat_map readings cs) = true ->
  let h := run cs in
  let r := check_awake_timeout now1 now2 h in
  (r.1 = true <->
     is_awake h = true
     /\ (forall a, In a (flat_map activity_readings cs) -> (a + AWAKE_TIMEOUT <= now1)%Q)
     /\ (forall w, In w (flat_map wake_readings cs) -> (w + AWAKE_TIMEOUT <= now2)%Q))
  /\ (r.1 = true ->
      is_awake r.2 = false
      /\ forall n1 n2, check_awake_timeout n1 n2 r.2 = (false, r.2))
  /\ (r.1 = false -> r.2 = h).
Proof.
  intros Hord h r.
  destruct (awake_fields cs Hord) as (Hd & Ha & Hw & Hin).
  fold h in Hd, Ha, Hw, Hin.
  subst r. unfold check_awake_timeout. rewrite Hd.
  destruct (is_awake h) eqn:Hawake; cbn [negb].
  2:{ cbn. split; [|split]; [split|..]; try discriminate; try reflexivity.
      intros (H & _). discriminate. }
  destruct (Hin eq_refl) as [Hla Hwa].
  unfold Py.lt, Py.ge. cbn [AWAKE_ACTIVITY_EXTEND andb].
  destruct (Qle_bool AWAKE_TIMEOUT (now1 - last_activity_time h)) eqn:H1; cbn [negb].
  2:{ cbn. split; [|split]; [split|..]; try discriminate; try reflexivity.
      intros (_ & Hq & _). specialize (Hq _ Hla).
      assert (Qle_bool AWAKE_TIMEOUT (now1 - last_activity_time h) = true)
        by (apply Qle_bool_iff; lra).
      congruence. }
  destruct (Qle_bool AWAKE_TIMEOUT (now2 - awake_time h)) eqn:H2.
  2:{ cbn. split; [|split]; [split|..]; try discriminate; try reflexivity.
      intros (_ & _ & Hq). specialize (Hq _ Hwa).
      assert (Qle_bool AWAKE_TIMEOUT (now2 - awake_time h) = true)
        by (apply Qle_bool_iff; lra).
      congruence. }
  apply Qle_bool_iff in H1, H2.
  cbn. split; [|split]; [split|..]; try discriminate; try reflexivity.
  - intros _. split; [reflexivity|]. split.
    + intros a Hi. specialize (Ha a Hi). lra.
    + intros w Hi. specialize (Hw w Hi). lra.
  - intros _. split; reflexivity.
Qed.

Lemma sleeps_only_after_quiet_witness :
  (check_awake_timeout 150 150
     (run [WakeUp 100 100; StartFamiliarInteraction 101; UpdateActivity 110])).1 = true.
Proof.
  apply (proj1 (sleeps_only_after_quiet
                  [WakeUp 100 100; StartFamiliarInteraction 101; UpdateActivity 110]
                  150 150 eq_refl)).
  split; [reflexivity|].
  split; intros x Hx; cbn in Hx;
    repeat (destruct Hx as [<-|Hx]; [vm_compute; discriminate|]); destruct Hx.
Defined.

(** *** One-shot timers *)

(** A check that answers [due] while armed, disarms when it answers
    True, and answers False while idle, answers True at the first due
    poll only. *)
Lemma poll_first_only (check : Q -> t -> bool * t) (due : Q -> bool)
    (armed idle : t -> Prop) :
  (forall now h, armed h ->
     (due now = false /\ check now h = (false, h))
     \/ (due now = true /\ exists h', check now h = (true, h') /\ idle h')) ->
  (forall now h, idle h -> check now h = (false, h)) ->
  forall nows h, armed h -> (poll check nows h).1 = first_only due nows.
Proof.
  intros Harmed Hidle.
  assert (Hrest : forall nows h, idle h ->
            (poll check nows h).1 = map (fun _ => false) nows).
  { induction nows as [|now nows IH]; intros h Hh; [reflexivity|].
    cbn. rewrite (Hidle now h Hh).
    specialize (IH h Hh). destruct (poll check nows h) as [rest h2].
    cbn in IH |- *. rewrite IH. reflexivity. }
  induction nows as [|now nows IH]; intros h Hh; [reflexivity|].
  cbn. destruct (Harmed now h Hh) as [[Hdue Hc]|[Hdue (h' & Hc & Hi)]];
    rewrite Hc, Hdue.
  - specialize (IH h Hh). destruct (poll check nows h) as [rest h2].
    cbn in IH |- *. rewrite IH. reflexivity.
  - specialize (Hrest nows h' Hi). destruct (poll check nows h') as [rest h2].
    cbn in Hrest |- *. rewrite Hrest. reflexivity.
Qed.

(** X20.  Each of the four timers is one-shot: polled at any sequence
    of times after it was armed at [t0], its check answers True at the
    first poll taken its delay or more after [t0] and False at every
    other poll, before and after. *)
Theorem timers_fire_once (h : t) (t0 delay : Q) (nows : list Q) :
  (poll check_voice_wake_emotion_timeout nows (start_voice_wake_emotion t0 h)).1
  = first_only (fun now => Py.ge (now - t0) (voice_wake_duration h)) nows
  /\ (poll check_familiar_timeout nows (start_familiar_interaction t0 h)).1
     = first_only (fun now => Py.ge (now - t0) (familiar_idle_timeout h)) nows
  /\ (poll check_stranger_timeout nows (start_stranger_observation t0 h)).1
     = first_only (fun now => Py.ge (now - t0) (stranger_track_timeout h)) nows
  /\ (poll (check_ultrasonic_recovery delay) nows (trigger_ultrasonic_scared t0 h)).1
     = first_only (fun now => Py.ge (now - t0) delay) nows.
Proof.
  split; [|split; [|split]].
  - apply (poll_first_only _ _
      (fun x => voice_wake_active x = true /\ voice_wake_time x = t0
                /\ voice_wake_duration x = voice_wake_duration h)
      (fun x => voice_wake_active x = false)).
    + intros now x (Ha & Ht & Hd). unfold check_voice_wake_emotion_timeout.
      rewrite Ha, Ht, Hd. cbn [negb].
      destruct (Py.ge (now - t0) (voice_wake_duration h)); [right|left]; split; auto.
      eexists. split; [reflexivity|reflexivity].
    + intros now x Hx. unfold check_voice_wake_emotion_timeout. rewrite Hx. reflexivity.
    + repeat split.
  - apply (poll_first_only _ _
      (fun x => familiar_interaction_active x = true /\ familiar_interaction_time x = t0
                /\ familiar_idle_timeout x = familiar_idle_timeout h)
      (fun x => familiar_interaction_active x = false)).
    + intros now x (Ha & Ht & Hd). unfold check_familiar_timeout.
      rewrite Ha, Ht, Hd. cbn [negb].
      destruct (Py.ge (now - t0) (familiar_idle_timeout h)); [right|left]; split; auto.
      eexists. split; [reflexivity|reflexivity].
    + intros now x Hx. unfold check_familiar_timeout. rewrite Hx. reflexivity.
    + repeat split.
  - apply (poll_first_only _ _
      (fun x => stranger_observation_active x = true /\ stranger_observation_time x = t0
                /\ stranger_track_timeout x = stranger_track_timeout h)
      (fun x => stranger_observation_active x = false)).
    + intros now x (Ha & Ht & Hd). unfold check_stranger_timeout.
      rewrite Ha, Ht, Hd. cbn [negb].
      destruct (Py.ge (now - t0) (stranger_track_timeout h)); [right|left]; split; auto.
      eexists. split; [reflexivity|reflexivity].
    + intros now x Hx. unfold check_stranger_timeout. rewrite Hx. reflexivity.
    + repeat split.
  - apply (poll_first_only _ _
      (fun x => ultrasonic_scared_active x = true /\ ultrasonic_scared_time x = t0)
      (fun x => ultrasonic_scared_active x = false)).
    + intros now x (Ha & Ht). unfold check_ultrasonic_recovery.
      rewrite Ha, Ht. cbn [negb].
      destruct (Py.ge (now - t0) delay); [right|left]; split; auto.
      eexists. split; [reflexivity|reflexivity].
    + intros now x Hx. unfold check_ultrasonic_recovery. rewrite Hx. reflexivity.
    + repeat split.
Qed.

Lemma timers_fire_once_witness :
  (poll check_familiar_timeout [10; 25; 40]%Q (start_familiar_interaction 3 init)).1
  = [false; true; false].
Proof.
  exact (proj1 (proj2 (timers_fire_once init 3 0 [10; 25; 40]%Q))).
Defined.

(** *** Refreshing a timer *)

Lemma refreshes_snoc refresh ts now h :
  refreshes refresh (ts ++ [now]) h = refresh now (refreshes refresh ts h).
Proof. unfold refreshes. rewrite foldl_app. reflexivity. Qed.

Lemma last_touch_snoc t0 ts now : last_touch t0 (ts ++ [now]) = now.
Proof. unfold last_touch. apply last_last. Qed.

Lemma familiar_refreshed h t0 ts :
  let armed := refreshes refresh_familiar_interaction ts (start_familiar_interaction t0 h) in
  familiar_interaction_active armed = true
  /\ familiar_interaction_time armed = last_touch t0 ts
  /\ familiar_idle_timeout armed = familiar_idle_timeout h.
Proof.
  induction ts as [|now ts IH] using rev_ind; [repeat split|].
  cbn zeta in *. rewrite refreshes_snoc, last_touch_snoc.
  destruct IH as (Ha & _ & Hd). unfold refresh_familiar_interaction at 1 3 5.
  rewrite Ha. cbn. rewrite Hd. repeat split.
Qed.

Lemma stranger_refreshed h t0 ts :
  let armed := refreshes refresh_stranger_observation ts (start_stranger_observation t0 h) in
  stranger_observation_active armed = true
  /\ stranger_observation_time armed = last_touch t0 ts
  /\ stranger_track_timeout armed = stranger_track_timeout h.
Proof.
  induction ts as [|now ts IH] using rev_ind; [repeat split|].
  cbn zeta in *. rewrite refreshes_snoc, last_touch_snoc.
  destruct IH as (Ha & _ & Hd). unfold refresh_stranger_observation at 1 3 5.
  rewrite Ha. cbn. rewrite Hd. repeat split.
Qed.

Lemma familiar_idle_refreshes h ts :
  familiar_interaction_active h = false ->
  refreshes refresh_familiar_interaction ts h = h.
Proof.
  intros Hh. induction ts as [|now ts IH] using rev_ind; [reflexivity|].
  rewrite refreshes_snoc, IH. unfold refresh_familiar_interaction. rewrite Hh. reflexivity.
Qed.

Lemma stranger_idle_refreshes h ts :
  stranger_observation_active h = false ->
  refreshes refresh_stranger_observation ts h = h.
Proof.
  intros Hh. induction ts as [|now ts IH] using rev_ind; [reflexivity|].
  rewrite refreshes_snoc, IH. unfold refresh_stranger_observation. rewrite Hh. reflexivity.
Qed.

(** X21.  Refreshing postpones a running timer and never revives a
    finished one.  After [start_familiar_interaction] and any number of
    [refresh_familiar_interaction] calls, [check_familiar_timeout]
    answers True exactly when [familiar_idle_timeout] seconds or more
    have passed since the last of these calls; once it has answered
    True, no sequence of refreshes changes the handler, and the check
    answers False after them.  The stranger-observation timer behaves
    the same way with [stranger_track_timeout]. *)
Theorem refresh_postpones_never_revives (h : t) (t0 now : Q) (ts : list Q) :
  (let armed := refreshes refresh_familiar_interaction ts (start_familiar_interaction t0 h) in
   let r := check_familiar_timeout now armed in
   (r.1 = true <-> (familiar_idle_timeout h <= now - last_touch t0 ts)%Q)
   /\ (r.1 = true -> forall ts' now',
         check_familiar_timeout now' (refreshes refresh_familiar_interaction ts' r.2)
         = (false, r.2))
   /\ (r.1 = false -> r.2 = armed))
  /\
  (let armed := refreshes refresh_stranger_observation ts (start_stranger_observation t0 h) in
   let r := check_stranger_timeout now armed in
   (r.1 = true <-> (stranger_track_timeout h <= now - last_touch t0 ts)%Q)
   /\ (r.1 = true -> forall ts' now',
         check_stranger_timeout now' (refreshes refresh_stranger_observation ts' r.2)
         = (false, r.2))
   /\ (r.1 = false -> r.2 = armed)).
Proof.
  split.
  - intros armed r. destruct (familiar_refreshed h t0 ts) as (Ha & Ht & Hd).
    fold armed in Ha, Ht, Hd. subst r. unfold check_familiar_timeout.
    rewrite Ha, Ht, Hd. cbn [negb]. unfold Py.ge.
    destruct (Qle_bool (familiar_idle_timeout h) (now - last_touch t0 ts)) eqn:Hq; cbn.
    + apply Qle_bool_iff in Hq. split; [tauto|]. split; [|discriminate].
      intros _ ts' now'. rewrite familiar_idle_refreshes by reflexivity. reflexivity.
    + split; [|split; [discriminate|reflexivity]].
      split; [discriminate|]. intros H. apply Qle_bool_iff in H. congruence.
  - intros armed r. destruct (stranger_refreshed h t0 ts) as (Ha & Ht & Hd).
    fold armed in Ha, Ht, Hd. subst r. unfold check_stranger_timeout.
    rewrite Ha, Ht, Hd. cbn [negb]. unfold Py.ge.
    destruct (Qle_bool (stranger_track_timeout h) (now - last_touch t0 ts)) eqn:Hq; cbn.
    + apply Qle_bool_iff in Hq. split; [tauto|]. split; [|discriminate].
      intros _ ts' now'. rewrite stranger_idle_refreshes by reflexivity. reflexivity.
    + split; [|split; [discriminate|reflexivity]].
      split; [discriminate|]. intros H. apply Qle_bool_iff in H. congruence.
Qed.

Lemma refresh_postpones_never_revives_witness :
  (check_familiar_timeout 36
     (refreshes refresh_familiar_interaction [10; 16]%Q
        (start_familiar_interaction 0 init))).1 = true.
Proof.
  apply (proj1 (refresh_postpones_never_revives init 0 36 [10; 16]%Q)).
  vm_compute. discriminate.
Defined.

End InteractionHandlerExtra.


(** ** SearchController: rotating while watching for a face *)

Module SearchRotationExtra.
Import Config SearchController SearchControllerNotions.
Import ActionRecorder ActionRecorderNotions ActionRecorderFacts.

Lemma detect_face_in_search_run devices s r w :
  detect_face_in_search devices s r w
  = if devices then
      inr (if sees_face (Env.camera w (Env.frames w))
           then (true, on_face_found s) else (false, s),
           r, Env.grab w)
    else inr ((false, s), r, w).
Proof.
  unfold detect_face_in_search, camera_detect_faces_only, camera_detect, mbind, M_bind.
  destruct devices; [|reflexivity]. cbn.
  destruct (Env.camera w (Env.frames w)) as [[|x l]|]; reflexivity.
Qed.

Lemma reading_0 w : reading w 0 = Env.clock w (Env.reads w).
Proof. unfold reading. by rewrite Nat.add_0_r. Qed.

(** The loop ends at the first test of the clock that finds the time
    up, or at the first frame that shows a face, whichever comes
    first. *)
Lemma rotate_loop_run fuel : forall k start duration devices s r w,
  (k < fuel)%nat ->
  Py.lt (reading w k - start) duration = false ->
  exists (j : nat) (found : bool) (w' : Env.t),
    (j <= k)%nat
    /\ rotate_loop fuel start duration devices s r w
       = inr (Some (found, if found then on_face_found s else s), r, w')
    /\ Env.clock w' = Env.clock w /\ Env.camera w' = Env.camera w
    /\ Env.log w' = Env.log w
    /\ Env.reads w' = (Env.reads w + j + 1)%nat
    /\ (forall i, (i < j)%nat ->
          Py.lt (reading w i - start) duration = true
          /\ (devices = true -> sees_face (Env.camera w (Env.frames w + i)) = false))
    /\ (found = true ->
          devices = true
          /\ sees_face (Env.camera w (Env.frames w + j)) = true
          /\ Py.lt (reading w j - start) duration = true)
    /\ (found = false -> Py.lt (reading w j - start) duration = false).
Proof.
  induction fuel as [|fuel IH]; intros k start duration devices s r w Hk Hdead; [lia|].
  cbn [rotate_loop].
  rewrite (bind_run time_time _ r w _ r (Env.tick w) eq_refl).
  destruct (Py.lt (Env.clock w (Env.reads w) - start) duration) eqn:Hin.
  2:{ exists 0%nat, false, (Env.tick w).
      split; [lia|]. split; [reflexivity|].
      split; [reflexivity|]. split; [reflexivity|]. split; [reflexivity|].
      split; [cbn; lia|]. split; [intros i Hi; lia|].
      split; [discriminate|]. intros _. rewrite reading_0. exact Hin. }
  destruct k as [|k]; [rewrite reading_0 in Hdead; congruence|].
  assert (Hshift : forall w1 i,
            Env.clock w1 = Env.clock w -> Env.reads w1 = S (Env.reads w) ->
            reading w1 i = reading w (S i)).
  { intros w1 i Hc Hr. unfold reading. rewrite Hc, Hr. f_equal. lia. }
  destruct devices.
  - rewrite (bind_run _ _ _ _ _ _ _ (detect_face_in_search_run true s r (Env.tick w))).
    change (Env.camera (Env.tick w) (Env.frames (Env.tick w)))
      with (Env.camera w (Env.frames w)).
    destruct (sees_face (Env.camera w (Env.frames w))) eqn:Hface.
    + exists 0%nat, true, (Env.grab (Env.tick w)).
      split; [lia|]. split; [reflexivity|].
      split; [reflexivity|]. split; [reflexivity|]. split; [reflexivity|].
      split; [cbn; lia|]. split; [intros i Hi; lia|].
      split; [|discriminate]. intros _. rewrite Nat.add_0_r, reading_0. done.
    + destruct (IH k start duration true s r (Env.grab (Env.tick w)))
        as (j & found & w' & Hj & Hrun & Hc & Hcam & Hlog & Hreads & Hbefore & Hfound & Hnot).
      { lia. }
      { rewrite Hshift by reflexivity. exact Hdead. }
      exists (S j), found, w'.
      split; [lia|]. split; [exact Hrun|].
      split; [exact Hc|]. split; [exact Hcam|]. split; [exact Hlog|].
      split; [cbn in Hreads; lia|].
      split; [|split].
      * intros [|i] Hi.
        { rewrite reading_0, Nat.add_0_r. done. }
        destruct (Hbefore i ltac:(lia)) as [H1 H2].
        rewrite Hshift in H1 by reflexivity. split; [exact H1|].
        intros Hd. specialize (H2 Hd). cbn in H2.
        replace (Env.frames w + S i)%nat with (S (Env.frames w + i)) by lia. exact H2.
      * intros Hf. destruct (Hfound Hf) as (Hd & Hs & Hl).
        rewrite Hshift in Hl by reflexivity. cbn in Hs.
        replace (Env.frames w + S j)%nat with (S (Env.frames w + j)) by lia. done.
      * intros Hf. specialize (Hnot Hf). rewrite Hshift in Hnot by reflexivity. exact Hnot.
  - rewrite (bind_run _ _ _ _ _ _ _ (detect_face_in_search_run false s r (Env.tick w))).
    destruct (IH k start duration false s r (Env.tick w))
      as (j & found & w' & Hj & Hrun & Hc & Hcam & Hlog & Hreads & Hbefore & Hfound & Hnot).
    { lia. }
    { rewrite Hshift by reflexivity. exact Hdead. }
    exists (S j), found, w'.
    split; [lia|]. split; [exact Hrun|].
    split; [exact Hc|]. split; [exact Hcam|]. split; [exact Hlog|].
    split; [cbn in Hreads; lia|].
    split; [|split].
    * intros [|i] Hi.
      { rewrite reading_0. split; [exact Hin|discriminate]. }
      destruct (Hbefore i ltac:(lia)) as [H1 _].
      rewrite Hshift in H1 by reflexivity. split; [exact H1|discriminate].
    * intros Hf. destruct (Hfound Hf) as (Hd & _). discriminate.
    * intros Hf. specialize (Hnot Hf). rewrite Hshift in Hnot by reflexivity. exact Hnot.
Qed.

(** The rotation, whatever turns the motor on and off. *)
Lemma rotation_run (on off : M unit) (es_on es_off : list Env.event)
    fuel direction duration devices (s : SearchController.t) r w k :
  emits on es_on -> emits off es_off ->
  (k < fuel)%nat ->
  Py.lt (reading w (S k) - reading w 0) duration = false ->
  exists (j : nat) (found : bool) (r' : ActionRecorder.t) (w' : Env.t),
    (j <= k)%nat
    /\ (start_time ← time_time;
        on;;
        out ← rotate_loop fuel start_time duration devices s;
        match out with
        | None => mret None
        | Some (found_face, s') =>
            off;;
            now ← time_time;
            let actual_rotate_time := (now - start_time)%Q in
            (if Py.gt actual_rotate_time 0.1
             then record "rotate" direction actual_rotate_time
             else mret tt);;
            mret (Some (found_face, s'))
        end) r w
       = inr (Some (found, if found then on_face_found s else s), r', w')
    /\ Env.log w' = Env.log w ++ es_on ++ es_off
    /\ (let actual := (reading w (j + 2) - reading w 0)%Q in
        r' = if negb (is_returning r) && Py.gt actual 0.1
             then set_action_history
                    (action_history r
                       ++ [mk_action "rotate" direction actual (reading w (j + 3))]) r
             else r)
    /\ (forall i, (i < j)%nat ->
          Py.lt (reading w (S i) - reading w 0) duration = true
          /\ (devices = true -> sees_face (Env.camera w (Env.frames w + i)) = false))
    /\ (found = true ->
          devices = true
          /\ sees_face (Env.camera w (Env.frames w + j)) = true
          /\ Py.lt (reading w (S j) - reading w 0) duration = true)
    /\ (found = false -> Py.lt (reading w (S j) - reading w 0) duration = false).
Proof.
  intros Hon Hoff Hk Hdead.
  rewrite (bind_run time_time _ r w _ r (Env.tick w) eq_refl).
  rewrite (bind_run _ _ _ _ _ _ _ (Hon r (Env.tick w))).
  set (w1 := logged es_on (Env.tick w)).
  assert (Hshift : forall i, reading w1 i = reading w (S i)).
  { intros i. unfold reading. cbn. f_equal. lia. }
  rewrite reading_0 in *.
  destruct (rotate_loop_run fuel k (Env.clock w (Env.reads w)) duration devices s r w1)
    as (j & found & w2 & Hj & Hrun & Hc & Hcam & Hlog & Hreads & Hbefore & Hfound & Hnot).
  { exact Hk. }
  { rewrite Hshift. exact Hdead. }
  rewrite (bind_run _ _ _ _ _ _ _ Hrun).
  rewrite (bind_run _ _ _ _ _ _ _ (Hoff r w2)).
  rewrite (bind_run time_time _ r (logged es_off w2) _ r (Env.tick (logged es_off w2)) eq_refl).
  assert (Hstop : Env.clock (logged es_off w2) (Env.reads (logged es_off w2))
                  = reading w (j + 2)).
  { cbn. rewrite Hc, Hreads. unfold reading. cbn. f_equal. lia. }
  rewrite Hstop.
  set (actual := (reading w (j + 2) - Env.clock w (Env.reads w))%Q).
  assert (Hbefore' : forall i, (i < j)%nat ->
            Py.lt (reading w (S i) - Env.clock w (Env.reads w)) duration = true
            /\ (devices = true -> sees_face (Env.camera w (Env.frames w + i)) = false)).
  { intros i Hi. destruct (Hbefore i Hi) as [H1 H2]. rewrite Hshift in H1.
    split; [exact H1|exact H2]. }
  assert (Hfound' : found = true ->
            devices = true
            /\ sees_face (Env.camera w (Env.frames w + j)) = true
            /\ Py.lt (reading w (S j) - Env.clock w (Env.reads w)) duration = true).
  { intros Hf. destruct (Hfound Hf) as (H1 & H2 & H3). rewrite Hshift in H3.
    split; [exact H1|]. split; [exact H2|exact H3]. }
  assert (Hnot' : found = false ->
            Py.lt (reading w (S j) - Env.clock w (Env.reads w)) duration = false).
  { intros Hf. specialize (Hnot Hf). rewrite Hshift in Hnot. exact Hnot. }
  clear Hbefore Hfound Hnot.
  set (w3 := Env.tick (logged es_off w2)).
  assert (Hlog3 : Env.log w3 = Env.log w ++ es_on ++ es_off).
  { cbn. rewrite Hlog. cbn. by rewrite <- app_assoc. }
  assert (Hstamp : Env.clock w3 (Env.reads w3) = reading w (j + 3)).
  { cbn. rewrite Hc, Hreads. unfold reading. cbn. f_equal. lia. }
  cbn zeta. fold actual.
  destruct (Py.gt actual 0.1) eqn:Hgt.
  - destruct (is_returning r) eqn:Hret.
    + rewrite (bind_run _ _ _ _ _ _ _ (record_while_returning "rotate" direction actual r w3 Hret)).
      exists j, found, r, w3.
      split; [exact Hj|]. split; [reflexivity|]. split; [exact Hlog3|].
      split; [reflexivity|]. split; [exact Hbefore'|]. split; [exact Hfound'|exact Hnot'].
    + assert (Hge : (0.05 <= actual)%Q).
      { unfold Py.gt in Hgt. apply negb_true_iff in Hgt.
        destruct (Qlt_le_dec 0.1 actual) as [Hlt|Hle]; [lra|].
        apply Qle_bool_iff in Hle. congruence. }
      rewrite (bind_run _ _ _ _ _ _ _ (record_kept "rotate" direction actual r w3 Hret Hge)).
      exists j, found,
        (set_action_history
           (action_history r
              ++ [mk_action "rotate" direction actual (Env.clock w3 (Env.reads w3))]) r),
        (Env.tick w3).
      split; [exact Hj|]. split; [reflexivity|]. split; [exact Hlog3|].
      split; [cbn [negb andb]; fold actual; rewrite Hstamp, Hgt; reflexivity|].
      split; [exact Hbefore'|]. split; [exact Hfound'|exact Hnot'].
  - exists j, found, r, w3.
    split; [exact Hj|]. split; [reflexivity|]. split; [exact Hlog3|].
    split; [cbn zeta; fold actual; by rewrite Hgt, andb_false_r|].
    split; [exact Hbefore'|]. split; [exact Hfound'|exact Hnot'].
Qed.


(** X22.  A search rotation always ends with the motor stopped and
    records what it turned.  If one of the first [k + 1] tests of the
    loop condition finds the time up, [rotate_and_detect] returns after
    [j + 1 <= k + 1] tests, having sent the motor one turn command at
    SEARCH_ROTATE_SPEED and then one stop (nothing without a working
    motor).  On a recorder that is not returning it appends one 'rotate'
    entry in the given direction lasting from its first to its last
    clock reading, when that is more than 0.1 s, and otherwise leaves
    the recorder alone.  It answers True exactly when it stopped on a
    frame showing a face, which is the first such frame and was taken
    before the time was up, and then marks the controller with
    [on_face_found]; it answers False when the time ran out first. *)
Theorem rotation_stops_and_is_recorded fuel direction duration motor devices
    (s : SearchController.t) (r : ActionRecorder.t) (w : Env.t) (k : nat) :
  (k < fuel)%nat ->
  Py.lt (reading w (S k) - reading w 0) duration = false ->
  exists (j : nat) (found : bool) (r' : ActionRecorder.t) (w' : Env.t),
    (j <= k)%nat
    /\ rotate_and_detect fuel direction duration motor devices s r w
       = inr (Some (found, if found then on_face_found s else s), r', w')
    /\ Env.log w' = Env.log w ++ search_motion direction motor
    /\ (let actual := (reading w (j + 2) - reading w 0)%Q in
        r' = if negb (is_returning r) && Py.gt actual 0.1
             then set_action_history
                    (action_history r
                       ++ [mk_action "rotate" direction actual (reading w (j + 3))]) r
             else r)
    /\ (forall i, (i < j)%nat ->
          Py.lt (reading w (S i) - reading w 0) duration = true
          /\ (devices = true -> sees_face (Env.camera w (Env.frames w + i)) = false))
    /\ (found = true ->
          devices = true
          /\ sees_face (Env.camera w (Env.frames w + j)) = true
          /\ Py.lt (reading w (S j) - reading w 0) duration = true)
    /\ (found = false -> Py.lt (reading w (S j) - reading w 0) duration = false).
Proof.
  intros Hk Hdead. unfold rotate_and_detect, search_motion.
  destruct motor as [[ds [|]]|]; cbn [MotorController.enabled].
  - destruct (bool_decide (direction = "left")).
    + apply (rotation_run _ _ [Env.TurnLeft SEARCH_ROTATE_SPEED] [Env.Stop]);
        [exact (emits_emit_all [Env.TurnLeft SEARCH_ROTATE_SPEED])
        |exact (emits_emit_all [Env.Stop])|exact Hk|exact Hdead].
    + apply (rotation_run _ _ [Env.TurnRight SEARCH_ROTATE_SPEED] [Env.Stop]);
        [exact (emits_emit_all [Env.TurnRight SEARCH_ROTATE_SPEED])
        |exact (emits_emit_all [Env.Stop])|exact Hk|exact Hdead].
  - apply (rotation_run _ _ [] []); [exact emits_ret|exact emits_ret|exact Hk|exact Hdead].
  - apply (rotation_run _ _ [] []); [exact emits_ret|exact emits_ret|exact Hk|exact Hdead].
Qed.

Lemma rotation_stops_and_is_recorded_witness :
  let w := Env.mk (fun n => inject_Z (Z.of_nat n)) 0 (fun _ => Some []) 0 [] in
  exists (found : bool) (r' : ActionRecorder.t) (w' : Env.t),
    rotate_and_detect 5 "left" 2 (Some (MotorController.mk 40 true)) true
      SearchController.init ActionRecorder.init w
    = inr (Some (found, if found then on_face_found SearchController.init
                        else SearchController.init), r', w')
    /\ Env.log w' = [Env.TurnLeft SEARCH_ROTATE_SPEED; Env.Stop].
Proof.
  intros w.
  destruct (rotation_stops_and_is_recorded 5 "left" 2 (Some (MotorController.mk 40 true))
              true SearchController.init ActionRecorder.init w 2)
    as (j & found & r' & w' & _ & Hrun & Hlog & _); [lia|reflexivity|].
  exists found, r', w'. split; [exact Hrun|exact Hlog].
Defined.

End SearchRotationExtra.


(** ** ActionRecorder: a return started on a non-empty history *)

Module GuardedReturnExtra.
Import Config ActionRecorder ActionRecorderNotions ActionRecorderFacts.

(** [start_returning] is [stop_action] and then [start_returning] on a
    recorder without resident action. *)
Lemma start_returning_after_stop r w r0 w0 :
  stop_action r w = inr (tt, r0, w0) -> _current_action r0 = None ->
  start_returning r w = start_returning r0 w0.
Proof.
  intros Hstop Hnone. unfold start_returning.
  rewrite (bind_run _ _ _ _ _ _ _ Hstop).
  by rewrite (bind_run _ _ _ _ _ _ _ (stop_action_none r0 w0 Hnone)).
Qed.

Lemma start_returning_nonempty r w :
  action_history r <> [] ->
  exists r1 w1,
    start_returning r w = inr (true, r1, w1)
    /\ return_action_index r1 = Z.of_nat (length (action_history r1)) - 1
    /\ Env.log w1 = Env.log w
    /\ (action_history r1 = action_history r
        \/ exists c, _current_action r = Some c /\ (0.05 <= elapsed r w)%Q
                     /\ action_history r1 = action_history r ++ [finished c r w]).
Proof.
  intros Hh. destruct (_current_action r) as [c|] eqn:Hc.
  - destruct (Qlt_le_dec (elapsed r w) 0.05) as [Hlt|Hge].
    + eexists _, _. split.
      { rewrite (start_returning_after_stop r w _ _
                   (eq_trans (stop_action_some c r w Hc)
                             (_finish_current_action_dropped c r w Hc Hlt)) eq_refl).
        apply start_returning_idle; [reflexivity|exact Hh]. }
      split; [reflexivity|]. split; [reflexivity|]. left. reflexivity.
    + eexists _, _. split.
      { rewrite (start_returning_after_stop r w _ _
                   (eq_trans (stop_action_some c r w Hc)
                             (_finish_current_action_kept c r w Hc Hge)) eq_refl).
        apply start_returning_idle; [reflexivity|].
        cbn. intros E. by apply app_eq_nil in E as [_ ?]. }
      split; [reflexivity|]. split; [reflexivity|]. right. exists c. done.
  - eexists _, _. split; [apply start_returning_idle; [exact Hc|exact Hh]|].
    split; [reflexivity|]. split; [reflexivity|]. left. reflexivity.
Qed.

(** X23.  A return started on a non-empty history always completes.
    Whatever the recorder is doing (an action may be resident, a return
    may be under way), if [has_actions()] holds then [start_returning()]
    returns True, having at most appended the resident action when it
    has lasted 0.05 s or more, and one call of [execute_return_action]
    per entry plus one ends the return without raising: every entry is
    replayed, last first, and the recorder is left empty, not returning,
    with the cursor at -1. *)
Theorem guarded_return_completes (r : t) (w : Env.t) (motor : option MotorController.t) :
  action_history r <> [] ->
  exists (r1 : t) (w1 : Env.t) (infos : list return_action) (w' : Env.t),
    has_actions r w = inr (true, r, w)
    /\ start_returning r w = inr (true, r1, w1)
    /\ (action_history r1 = action_history r
        \/ exists c, _current_action r = Some c /\ (0.05 <= elapsed r w)%Q
                     /\ action_history r1 = action_history r ++ [finished c r w])
    /\ replay (S (length (action_history r1))) motor r1 w1
       = inr (Some infos, mk [] false (-1) None 0, w')
    /\ replayed <$> infos = rev (plain <$> action_history r1)
    /\ Env.log w'
       = Env.log w ++ flat_map (undo_events motor) (rev (plain <$> action_history r1)).
Proof.
  intros Hh.
  destruct (start_returning_nonempty r w Hh) as (r1 & w1 & Hstart & Hidx & Hlog & Hhist).
  eexists r1, w1, _, _.
  split.
  { unfold has_actions, mbind, M_bind, self. cbn -[Z.gtb Z.of_nat].
    destruct (action_history r) as [|a h]; [done|]. cbn [length].
    by destruct (Z.gtb_spec (Z.of_nat (S (length h))) 0); [|lia]. }
  split; [exact Hstart|]. split; [exact Hhist|].
  split; [apply (replay_from motor (length (action_history r1)) r1 w1); [done|exact Hidx]|].
  rewrite firstn_all. split.
  - rewrite fmap_rev. f_equal. rewrite fmap_imap.
    exact (imap_const plain (action_history r1)).
  - cbn [Env.log logged]. rewrite Hlog. f_equal.
    by rewrite <- fmap_rev, flat_map_fmap.
Qed.

Lemma guarded_return_completes_witness :
  exists (r1 : t) (w1 : Env.t) (infos : list return_action) (w' : Env.t),
    start_returning
      (mk [mk_action "rotate" "left" 1 9] false 0 (Some (mk_current "move" "forward")) (-2))
      still
    = inr (true, r1, w1)
    /\ replay (S (length (action_history r1))) None r1 w1
       = inr (Some infos, mk [] false (-1) None 0, w').
Proof.
  destruct (guarded_return_completes
              (mk [mk_action "rotate" "left" 1 9] false 0
                  (Some (mk_current "move" "forward")) (-2)) still None)
    as (r1 & w1 & infos & w' & _ & Hstart & _ & Hreplay & _); [discriminate|].
  exists r1, w1, infos, w'. split; [exact Hstart|exact Hreplay].
Defined.

End GuardedReturnExtra.
